(** * DepScout dependency-health engine: a shallow embedding of
    [src/services/analyzer.service.ts] and of the parts of the JavaScript
    runtime and of the [semver] package it relies on.

    Conventions of the model.

    - A JavaScript string is a [string]; each [ascii] stands for one UTF-16
      code unit in the range 0..255.
    - A JavaScript number is a [jsnum]: the exact rational value of the
      double, or one of the two infinities, or NaN.  Counters, version
      components and scores computed by the engine are integers; they are
      kept as [Z] / [N].  The arithmetic of the version distance and of
      the health score is the one of doubles: every result is rounded to
      the nearest double ([Number]).  Counters are lengths of arrays and
      are added exactly.
    - Values that come from [JSON.parse] (the manifest, registry and
      quality-signal responses, the audit output) are [jsval] trees.
    - Code that can throw returns a [result]; [try { } catch { }] is
      [tryCatch].
    - [Date.now()] is a clock oracle: [now k] is the reading returned by the
      k-th call of a run.
    - The order in which the concurrent fetches of one fan-out complete is a
      parameter of the world ([completion]); callbacks run in that order.
      A fetch that never settles is not modelled. *)

From Stdlib Require Import ZArith NArith QArith List String Ascii Bool Lia.
From Stdlib Require Import Decimal DecimalString DecimalN DecimalPos DecimalFacts.
From Stdlib Require Import Permutation Sorted.
Import ListNotations.

#[local] Set Warnings "-register-all".

Local Open Scope list_scope.
Local Open Scope string_scope.

(* ================================================================== *)
(** * Strings as sequences of code units *)
(* ================================================================== *)

Module Str.

(** ECMAScript WhiteSpace and LineTerminator code units below 256:
    TAB, LF, VT, FF, CR, SP and NBSP. *)
Definition isWhiteSpace (c : ascii) : bool :=
  let n := nat_of_ascii c in
  ((9 <=? n)%nat && (n <=? 13)%nat) || (n =? 32)%nat || (n =? 160)%nat.

Fixpoint trimStart (s : string) : string :=
  match s with
  | EmptyString => EmptyString
  | String c r => if isWhiteSpace c then trimStart r else s
  end.

Fixpoint trimEnd (s : string) : string :=
  match s with
  | EmptyString => EmptyString
  | String c r =>
      match trimEnd r with
      | EmptyString => if isWhiteSpace c then EmptyString else String c EmptyString
      | r' => String c r'
      end
  end.

(** [String.prototype.trim] *)
Definition trim (s : string) : string := trimEnd (trimStart s).

Fixpoint forallb (p : ascii -> bool) (s : string) : bool :=
  match s with
  | EmptyString => true
  | String c r => p c && forallb p r
  end.

Fixpoint existsb (p : ascii -> bool) (s : string) : bool :=
  match s with
  | EmptyString => false
  | String c r => p c || existsb p r
  end.

(** Remove every code unit satisfying [p]:
    [s.replace(/[...]/g, '')] for a character class. *)
Fixpoint remove (p : ascii -> bool) (s : string) : string :=
  match s with
  | EmptyString => EmptyString
  | String c r => if p c then remove p r else String c (remove p r)
  end.

(** Drop the longest prefix of code units satisfying [p]:
    [s.replace(/^[...]+/, '')]. *)
Fixpoint dropWhile (p : ascii -> bool) (s : string) : string :=
  match s with
  | EmptyString => EmptyString
  | String c r => if p c then dropWhile p r else s
  end.

(** Cut at the first occurrence of [c]: the text before it and, when [c]
    occurs, the text after it. *)
Fixpoint breakAt (c : ascii) (s : string) : string * option string :=
  match s with
  | EmptyString => (EmptyString, None)
  | String a r =>
      if Ascii.eqb a c then (EmptyString, Some r)
      else let (p, q) := breakAt c r in (String a p, q)
  end.

(** [String.prototype.split] on a one-character separator. *)
Fixpoint splitOn (c : ascii) (s : string) : list string :=
  match s with
  | EmptyString => [EmptyString]
  | String a r =>
      if Ascii.eqb a c then EmptyString :: splitOn c r
      else match splitOn c r with
           | [] => [String a EmptyString]
           | p :: ps => String a p :: ps
           end
  end.

(** [Array.prototype.join] on strings. *)
Fixpoint join (sep : string) (l : list string) : string :=
  match l with
  | [] => EmptyString
  | [x] => x
  | x :: r => x ++ sep ++ join sep r
  end.

Definition isUpperAscii (c : ascii) : bool :=
  let n := nat_of_ascii c in (65 <=? n)%nat && (n <=? 90)%nat.

(** Latin-1 capitals with a Latin-1 lower-case partner
    (0xC0..0xDE without the multiplication sign 0xD7). *)
Definition isUpperLatin1 (c : ascii) : bool :=
  let n := nat_of_ascii c in
  (192 <=? n)%nat && (n <=? 222)%nat && negb (n =? 215)%nat.

Definition lowerChar (c : ascii) : ascii :=
  if isUpperAscii c || isUpperLatin1 c
  then ascii_of_nat (nat_of_ascii c + 32) else c.

(** [String.prototype.toLowerCase] *)
Fixpoint toLowerCase (s : string) : string :=
  match s with
  | EmptyString => EmptyString
  | String c r => String (lowerChar c) (toLowerCase r)
  end.

Definition isDigit (c : ascii) : bool :=
  let n := nat_of_ascii c in (48 <=? n)%nat && (n <=? 57)%nat.

(** Decimal text of a natural number and of an integer, as
    [Number.prototype.toString] prints integers below 10^21. *)
Definition ofN (n : N) : string := NilZero.string_of_uint (N.to_uint n).

Definition ofZ (z : Z) : string :=
  match z with
  | Zneg p => String "-" (ofN (Npos p))
  | _ => ofN (Z.to_N z)
  end.

(** [0|[1-9]\d*]: decimal text without a superfluous leading zero. *)
Definition canonicalNumeric (s : string) : bool :=
  match s with
  | EmptyString => false
  | String c r =>
      if Ascii.eqb c "0" then (r =? "")
      else isDigit c && forallb isDigit r
  end.

(** The number a string of digits denotes. *)
Definition decimalValue (s : string) : N :=
  match NilEmpty.uint_of_string s with
  | Some d => N.of_uint d
  | None => 0%N
  end.

Fixpoint chars (s : string) : list string :=
  match s with
  | EmptyString => []
  | String c r => String c EmptyString :: chars r
  end.

End Str.

(* ================================================================== *)
(** * Exceptions *)
(* ================================================================== *)

(** Every exception raised on the paths modelled here is an instance of
    [Error] (a [TypeError], a [SyntaxError] or a network [Error]); only its
    message is observable. *)
Inductive exn : Type := JsError (message : string).

Definition message (e : exn) : string := let (m) := e in m.

Inductive result (A : Type) : Type :=
| Ok (a : A)
| Throw (e : exn).
Arguments Ok {A} a.
Arguments Throw {A} e.

Definition bind {A B} (r : result A) (k : A -> result B) : result B :=
  match r with
  | Ok a => k a
  | Throw e => Throw e
  end.

Declare Scope js_scope.
Delimit Scope js_scope with js.
Notation "x <- c ;; k" := (bind c (fun x => k))
  (at level 61, c at next level, right associativity) : js_scope.
Local Open Scope js_scope.

(** [try { body } catch (e) { handler e }] *)
Definition tryCatch {A} (body : result A) (handler : exn -> result A) : result A :=
  match body with
  | Ok a => Ok a
  | Throw e => handler e
  end.

Definition isOk {A} (r : result A) : bool :=
  match r with Ok _ => true | Throw _ => false end.

(* ================================================================== *)
(** * JavaScript values *)
(* ================================================================== *)

Module JS.

(** A number: the exact value of a finite double, an infinity, or NaN. *)
Inductive jsnum : Type :=
| Fin (q : Q)
| PosInf
| NegInf
| NaN.

(** [x < y] on numbers; any comparison with NaN is false. *)
Definition numLt (x y : jsnum) : bool :=
  match x, y with
  | NaN, _ | _, NaN => false
  | Fin a, Fin b => negb (Qle_bool b a)
  | Fin _, PosInf => true
  | Fin _, NegInf => false
  | PosInf, _ => false
  | NegInf, NegInf => false
  | NegInf, _ => true
  end.

Definition numTruthy (x : jsnum) : bool :=
  match x with
  | Fin q => negb (Qeq_bool q 0)
  | NaN => false
  | _ => true
  end.

(** The literals [0.5] and [0.3] of the source as the doubles they denote:
    0.5 is exact, 0.3 is 5404319552844595 / 2^54. *)
Definition lit_0_5 : jsnum := Fin (1 # 2).
Definition lit_0_3 : jsnum := Fin (5404319552844595 # 18014398509481984).

(** Values: the results of [JSON.parse] plus [undefined]. An object is its
    list of own properties in property order. *)
Inductive jsval : Type :=
| JUndefined
| JNull
| JBool (b : bool)
| JNum (n : jsnum)
| JStr (s : string)
| JArr (items : list jsval)
| JObj (props : list (string * jsval)).

(** The two primitives of the runtime that the engine reaches through
    coercions and whose algorithms are not reproduced here:
    [Number.prototype.toString] and StringToNumber. Every result below that
    mentions a [Runtime] holds for each of them. *)
Class Runtime : Type := {
  numberToString : jsnum -> string;
  stringToNumber : string -> jsnum
}.

Definition objectEmpty : jsval := JObj [].

(** ToBoolean *)
Definition truthy (v : jsval) : bool :=
  match v with
  | JUndefined | JNull => false
  | JBool b => b
  | JNum n => numTruthy n
  | JStr s => negb (s =? "")
  | JArr _ | JObj _ => true
  end.

(** [a || b] *)
Definition orElse (a b : jsval) : jsval := if truthy a then a else b.

Definition isNullish (v : jsval) : bool :=
  match v with JUndefined | JNull => true | _ => false end.

(** [typeof v === 'object'] (true of [null]) *)
Definition typeofObject (v : jsval) : bool :=
  match v with JNull | JArr _ | JObj _ => true | _ => false end.

Fixpoint ownGet (o : list (string * jsval)) (k : string) : option jsval :=
  match o with
  | [] => None
  | (k', v) :: r => if k' =? k then Some v else ownGet r k
  end.

Definition hasOwn (o : list (string * jsval)) (k : string) : bool :=
  match ownGet o k with Some _ => true | None => false end.

Definition describe (v : jsval) : string :=
  match v with JNull => "null" | _ => "undefined" end.

(** [v.k] and [v[k]] for the property names the engine reads
    ([dependencies], [dist-tags], [latest], [versions], a version string,
    [via], [source], ...). None of them names a built-in property of
    strings, numbers, booleans, arrays or [Object.prototype], so only own
    properties of objects are found; reading from [null] or [undefined]
    throws. *)
Definition getProp (v : jsval) (k : string) : result jsval :=
  match v with
  | JUndefined | JNull =>
      Throw (JsError ("Cannot read properties of " ++ describe v
                      ++ " (reading '" ++ k ++ "')"))
  | JObj o => Ok (match ownGet o k with Some x => x | None => JUndefined end)
  | _ => Ok JUndefined
  end.

(** [v?.k] *)
Definition getOpt (v : jsval) (k : string) : result jsval :=
  if isNullish v then Ok JUndefined else getProp v k.

(** Array index: the canonical decimal text of an integer in 0..2^32-2. *)
Definition arrayIndex (s : string) : option N :=
  if Str.canonicalNumeric s && (Str.decimalValue s <? 4294967295)%N
  then Some (Str.decimalValue s) else None.

(** Position of a new own property: array indices come first in ascending
    order, the other names follow in insertion order. *)
Fixpoint insertProp {A} (k : string) (v : A) (o : list (string * A))
  : list (string * A) :=
  match o with
  | [] => [(k, v)]
  | (k', v') :: r =>
      match arrayIndex k, arrayIndex k' with
      | Some n, Some n' =>
          if (n <? n')%N then (k, v) :: o else (k', v') :: insertProp k v r
      | Some _, None => (k, v) :: o
      | None, _ => (k', v') :: insertProp k v r
      end
  end.

Fixpoint replaceProp {A} (k : string) (v : A) (o : list (string * A))
  : list (string * A) :=
  match o with
  | [] => []
  | (k', v') :: r =>
      if k' =? k then (k', v) :: r else (k', v') :: replaceProp k v r
  end.

Definition hasKey {A} (o : list (string * A)) (k : string) : bool :=
  List.existsb (fun kv => fst kv =? k) o.

(** CreateDataProperty, and [o[k] = v] when [k] is not [__proto__]: an
    existing own property keeps its position. *)
Definition setProp {A} (o : list (string * A)) (k : string) (v : A)
  : list (string * A) :=
  if hasKey o k then replaceProp k v o else insertProp k v o.

Fixpoint indexedFrom {A} (i : N) (l : list A) : list (string * A) :=
  match l with
  | [] => []
  | x :: r => (Str.ofN i, x) :: indexedFrom (N.succ i) r
  end.

(** Own enumerable string-keyed properties of ToObject(v), in order
    ([Object.entries], and the source of a spread). Numbers and booleans
    have none; a string exposes its code units, an array its elements. *)
Definition ownEntries (v : jsval) : list (string * jsval) :=
  match v with
  | JObj o => o
  | JArr l => indexedFrom 0 l
  | JStr s => indexedFrom 0 (map JStr (Str.chars s))
  | _ => []
  end.

Definition copyProps (target source : list (string * jsval))
  : list (string * jsval) :=
  fold_left (fun acc kv => setProp acc (fst kv) (snd kv)) source target.

(** [{ ...a, ...b }]; spreading [null] or [undefined] adds nothing. *)
Definition spread2 (a b : jsval) : list (string * jsval) :=
  copyProps (copyProps [] (ownEntries a)) (ownEntries b).

(** [Object.keys(v).length] for a value that is not nullish. *)
Definition keysLength (v : jsval) : Z := Z.of_nat (List.length (ownEntries v)).

Section Coercions.
Context {RT : Runtime}.

(** ToString; on arrays [Array.prototype.join], on objects
    OrdinaryToPrimitive. A parsed object inherits
    [Object.prototype.toString] unless it has an own property of that
    name, whose value is never callable. The same function is the
    outcome of the method call [v.toString()] on a value that is not
    nullish. *)
Fixpoint toString (v : jsval) : result string :=
  match v with
  | JUndefined => Ok "undefined"
  | JNull => Ok "null"
  | JBool true => Ok "true"
  | JBool false => Ok "false"
  | JNum n => Ok (numberToString n)
  | JStr s => Ok s
  | JArr l =>
      (fix joinItems (l : list jsval) : result string :=
         match l with
         | [] => Ok ""
         | x :: r =>
             e <- (if isNullish x then Ok "" else toString x) ;;
             match r with
             | [] => Ok e
             | _ => t <- joinItems r ;; Ok (e ++ "," ++ t)
             end
         end) l
  | JObj o =>
      if hasOwn o "toString"
      then Throw (JsError "Cannot convert object to primitive value")
      else Ok "[object Object]"
  end.

(** ToPrimitive *)
Definition toPrimitive (v : jsval) : result jsval :=
  match v with
  | JArr _ | JObj _ => s <- toString v ;; Ok (JStr s)
  | _ => Ok v
  end.

(** ToNumber of a primitive *)
Definition toNumber (p : jsval) : jsnum :=
  match p with
  | JUndefined => NaN
  | JNull => Fin 0
  | JBool true => Fin 1
  | JBool false => Fin 0
  | JNum n => n
  | JStr s => stringToNumber s
  | _ => NaN
  end.

(** [v < c] for a number [c] *)
Definition lessThan (v : jsval) (c : jsnum) : result bool :=
  p <- toPrimitive v ;; Ok (numLt (toNumber p) c).

End Coercions.

(** Names defined on [Object.prototype]. *)
Definition objectPrototypeKeys : list string :=
  ["constructor"; "__defineGetter__"; "__defineSetter__"; "hasOwnProperty";
   "__lookupGetter__"; "__lookupSetter__"; "isPrototypeOf";
   "propertyIsEnumerable"; "toString"; "valueOf"; "__proto__";
   "toLocaleString"].

Definition inList (k : string) (l : list string) : bool :=
  List.existsb (fun x => x =? k) l.

End JS.

(* ================================================================== *)
(** * The [semver] package: the functions the engine calls *)
(* ================================================================== *)

(** The engine imports [semver] and calls [valid], [clean], [gt], [diff],
    [compare], [major], [minor] and [patch], all in strict mode. They are
    transcribed from release 7.7 of the package: classes/semver.js,
    internal/re.js, internal/identifiers.js and functions/diff.js. A
    version that is the lower one of a pair and carries a pre-release tag
    while the higher one carries none is special-cased by [diff] since
    release 7.4. *)

Module Semver.
Import Str.

Definition MAX_LENGTH : nat := 256.
Definition MAX_SAFE_INTEGER : N := 9007199254740991.

(** The parsed fields of a [SemVer] object; [version] is [format]. Numeric
    pre-release identifiers are kept as their text, which is what they
    print back to. *)
Record SemVer : Type := mkSemVer {
  major : N;
  minor : N;
  patch : N;
  prerelease : list string;
  build : list string
}.

Definition isLetter (c : ascii) : bool :=
  let n := nat_of_ascii c in
  ((65 <=? n)%nat && (n <=? 90)%nat) || ((97 <=? n)%nat && (n <=? 122)%nat).

(** [[a-zA-Z0-9-]] *)
Definition isLetterDashNumber (c : ascii) : bool :=
  isDigit c || isLetter c || Ascii.eqb c "-".

(** NUMERICIDENTIFIER: [0|[1-9]\d*] *)
Definition numericIdentifier (s : string) : bool := canonicalNumeric s.

(** NONNUMERICIDENTIFIER: [\d*[a-zA-Z-][a-zA-Z0-9-]*] *)
Definition nonNumericIdentifier (s : string) : bool :=
  forallb isLetterDashNumber s && existsb (fun c => negb (isDigit c)) s.

Definition prereleaseIdentifier (s : string) : bool :=
  numericIdentifier s || nonNumericIdentifier s.

(** BUILDIDENTIFIER: [[a-zA-Z0-9-]+] *)
Definition buildIdentifier (s : string) : bool :=
  negb (s =? "") && forallb isLetterDashNumber s.

Definition component (s : string) : option N :=
  if numericIdentifier s then
    let n := decimalValue s in
    if (MAX_SAFE_INTEGER <? n)%N then None else Some n
  else None.

Definition identifiers (ok : string -> bool) (part : option string)
  : option (list string) :=
  match part with
  | None => Some []
  | Some text =>
      let ids := splitOn "." text in
      if List.forallb ok ids then Some ids else None
  end.

(** The strict pattern FULL: an optional [v]; three numeric identifiers
    separated by dots; optionally [-] and dot-separated pre-release
    identifiers; optionally [+] and dot-separated build identifiers; then
    the end of the text. The range check on the three numbers follows.

    [matchPlain] is the pattern behind the optional [v]. The main part
    holds only digits and dots and a pre-release holds no [+], so the
    build part starts at the first [+] and the pre-release at the first
    [-] before it. *)
Definition matchPlain (t : string) : option SemVer :=
  let (body, buildPart) := breakAt "+" t in
  let (main, prePart) := breakAt "-" body in
  match splitOn "." main with
  | [a; b; c] =>
      match component a, component b, component c,
            identifiers prereleaseIdentifier prePart,
            identifiers buildIdentifier buildPart with
      | Some ma, Some mi, Some pa, Some pre, Some bld =>
          Some (mkSemVer ma mi pa pre bld)
      | _, _, _, _, _ => None
      end
  | _ => None
  end.

Definition dropV (t : string) : string :=
  match t with
  | String "v" r => r
  | _ => t
  end.

Definition matchFull (t : string) : option SemVer := matchPlain (dropV t).

(** [new SemVer(version)] on a string; [None] stands for the [TypeError]
    it throws. *)
Definition construct (version : string) : option SemVer :=
  if (MAX_LENGTH <? String.length version)%nat then None
  else matchFull (trim version).

(** [SemVer.prototype.format]: the [version] field. *)
Definition format (v : SemVer) : string :=
  ofN (major v) ++ "." ++ ofN (minor v) ++ "." ++ ofN (patch v)
  ++ match prerelease v with
     | [] => ""
     | pre => "-" ++ join "." pre
     end.

(** [semver.parse(version)]: [null] instead of an exception. *)
Definition parse (version : string) : option SemVer := construct version.

(** [semver.valid] *)
Definition valid (version : string) : option string :=
  option_map format (parse version).

Definition isEqOrV (c : ascii) : bool := Ascii.eqb c "=" || Ascii.eqb c "v".

(** [semver.clean]: [parse(version.trim().replace(/^[=v]+/, ''))] *)
Definition clean (version : string) : option string :=
  option_map format (parse (dropWhile isEqOrV (trim version))).

(** [/^[0-9]+$/] *)
Definition isNumeric (s : string) : bool :=
  negb (s =? "") && forallb isDigit s.

(** The double nearest to a natural number (ties to even): what unary [+]
    yields on a string of digits. *)
Definition toDouble (n : N) : N :=
  if (n <? 2 ^ 53)%N then n
  else
    let k := (N.log2 n - 52)%N in
    let q := N.shiftr n k in
    let r := N.land n (N.ones k) in
    let half := N.shiftl 1 (k - 1) in
    let up := (half <? r)%N || ((r =? half)%N && N.odd q) in
    N.shiftl (if up then q + 1 else q)%N k.

Definition signOf (c : comparison) : Z :=
  match c with Lt => -1 | Eq => 0 | Gt => 1 end.

(** [compareIdentifiers] of internal/identifiers.js *)
Definition compareIdentifiers (a b : string) : Z :=
  let anum := isNumeric a in
  let bnum := isNumeric b in
  if anum && bnum
  then signOf (toDouble (decimalValue a) ?= toDouble (decimalValue b))%N
  else if a =? b then 0
  else if anum && negb bnum then -1
  else if bnum && negb anum then 1
  else if String.ltb a b then -1 else 1.

(** [a || b] on numbers *)
Definition orZ (a b : Z) : Z := if (a =? 0)%Z then b else a.

Definition compareMain (v o : SemVer) : Z :=
  orZ (signOf (major v ?= major o)%N)
      (orZ (signOf (minor v ?= minor o)%N)
           (signOf (patch v ?= patch o)%N)).

(** The [do ... while (++i)] loop of [comparePre]. *)
Fixpoint comparePreLoop (a b : list string) : Z :=
  match a, b with
  | [], [] => 0
  | _ :: _, [] => 1
  | [], _ :: _ => -1
  | x :: a', y :: b' =>
      if x =? y then comparePreLoop a' b' else compareIdentifiers x y
  end.

Definition hasPre (v : SemVer) : bool :=
  match prerelease v with [] => false | _ => true end.

Definition comparePre (v o : SemVer) : Z :=
  if hasPre v && negb (hasPre o) then -1
  else if negb (hasPre v) && hasPre o then 1
  else if negb (hasPre v) && negb (hasPre o) then 0
  else comparePreLoop (prerelease v) (prerelease o).

(** [SemVer.prototype.compare] *)
Definition compareSemVer (v o : SemVer) : Z :=
  if format o =? format v then 0
  else orZ (compareMain v o) (comparePre v o).

Definition invalidVersion (s : string) : exn :=
  JsError ("Invalid Version: " ++ s).

Definition constructOrThrow (s : string) : result SemVer :=
  match construct s with
  | Some v => Ok v
  | None => Throw (invalidVersion s)
  end.

(** [semver.compare(a, b)] = [new SemVer(a).compare(new SemVer(b))] *)
Definition compare (a b : string) : result Z :=
  (va <- constructOrThrow a ;;
   vb <- constructOrThrow b ;;
   Ok (compareSemVer va vb))%js.

(** [semver.gt] *)
Definition gt (a b : string) : result bool :=
  (c <- compare a b ;; Ok (0 <? c)%Z)%js.

(** [semver.major], [semver.minor], [semver.patch] *)
Definition majorOf (a : string) : result N :=
  (v <- constructOrThrow a ;; Ok (major v))%js.
Definition minorOf (a : string) : result N :=
  (v <- constructOrThrow a ;; Ok (minor v))%js.
Definition patchOf (a : string) : result N :=
  (v <- constructOrThrow a ;; Ok (patch v))%js.

Inductive ReleaseType : Type :=
| Major | Premajor | Minor | Preminor | Patch | Prepatch | Prerelease.

Definition withPre (pre : bool) (plain prefixed : ReleaseType) : ReleaseType :=
  if pre then prefixed else plain.

(** functions/diff.js on two parsed versions; [None] is [null]. *)
Definition diffSemVer (v1 v2 : SemVer) : option ReleaseType :=
  let comparison := compareSemVer v1 v2 in
  if (comparison =? 0)%Z then None
  else
    let v1Higher := (0 <? comparison)%Z in
    let highVersion := if v1Higher then v1 else v2 in
    let lowVersion := if v1Higher then v2 else v1 in
    let highHasPre := hasPre highVersion in
    let lowHasPre := hasPre lowVersion in
    let general :=
      if negb (major v1 =? major v2)%N then withPre highHasPre Major Premajor
      else if negb (minor v1 =? minor v2)%N then withPre highHasPre Minor Preminor
      else if negb (patch v1 =? patch v2)%N then withPre highHasPre Patch Prepatch
      else Prerelease in
    if lowHasPre && negb highHasPre then
      if (patch lowVersion =? 0)%N && (minor lowVersion =? 0)%N then Some Major
      else if (compareMain lowVersion highVersion =? 0)%Z then
        if negb (minor lowVersion =? 0)%N && (patch lowVersion =? 0)%N
        then Some Minor else Some Patch
      else Some general
    else Some general.

(** [semver.diff(version1, version2)]: both arguments are parsed with
    [throwErrors]. *)
Definition diff (version1 version2 : string) : result (option ReleaseType) :=
  (v1 <- constructOrThrow version1 ;;
   v2 <- constructOrThrow version2 ;;
   Ok (diffSemVer v1 v2))%js.

End Semver.

(* ================================================================== *)
(** * Arithmetic on numbers *)
(* ================================================================== *)

(** The operators [+], [-] and [*] on numbers whose values are integers:
    the result is the double nearest to the exact result, ties to even.
    Below 2^53 in magnitude every integer is a double and the result is
    exact. The exponent range is not modelled: an array has fewer than
    2^32 elements and a component of a version is at most
    MAX_SAFE_INTEGER, so that the numbers met in the engine stay below
    2^90. *)
Module Number.

Definition nearest (z : Z) : Z :=
  match z with
  | Z0 => 0
  | Zpos p => Z.of_N (Semver.toDouble (Npos p))
  | Zneg p => - Z.of_N (Semver.toDouble (Npos p))
  end.

Definition add (a b : Z) : Z := nearest (a + b).
Definition sub (a b : Z) : Z := nearest (a - b).
Definition mul (a b : Z) : Z := nearest (a * b).

End Number.

(* ================================================================== *)
(** * State threaded through code that can throw *)
(* ================================================================== *)

(** A computation over a mutable structure of type [S]: the structure is
    returned also when the computation throws, because the writes made
    before the exception stay. *)
Definition St (S A : Type) : Type := S -> result A * S.

Definition retS {S A} (a : A) : St S A := fun s => (Ok a, s).

Definition bindS {S A B} (c : St S A) (k : A -> St S B) : St S B :=
  fun s => match c s with
           | (Ok a, s') => k a s'
           | (Throw e, s') => (Throw e, s')
           end.

Definition liftS {S A} (r : result A) : St S A := fun s => (r, s).

Definition getS {S} : St S S := fun s => (Ok s, s).

Definition putS {S} (s : S) : St S unit := fun _ => (Ok tt, s).

(** [try { body } catch (e) { }] around a block: what the block wrote
    before throwing is kept. *)
Definition swallowS {S} (body : St S unit) : St S unit :=
  fun s => (Ok tt, snd (body s)).

Fixpoint forEachS {S A} (f : A -> St S unit) (l : list A) : St S unit :=
  match l with
  | [] => retS tt
  | x :: r => bindS (f x) (fun _ => forEachS f r)
  end.

Declare Scope st_scope.
Delimit Scope st_scope with st.
Notation "x <- c ;; k" := (bindS c (fun x => k))
  (at level 61, c at next level, right associativity) : st_scope.
Notation "c ;;; k" := (bindS c (fun _ => k))
  (at level 61, right associativity) : st_scope.

(* ================================================================== *)
(** * Types of [analyzer.service.ts] *)
(* ================================================================== *)

Inductive UpdateType : Type := UMajor | UMinor | UPatch.

Inductive Severity : Type := Critical | High | Moderate | Low | Unknown.

Module OutdatedPackage.
Record t : Type := mk {
  package : string;
  current : string;
  latest : string;
  type : UpdateType
}.
End OutdatedPackage.

(** The fields [version], [description] and [fixedIn] are copied from
    parsed data without a check and can hold any value. *)
Module Vulnerability.
Record t : Type := mk {
  id : string;
  package : string;
  version : JS.jsval;
  severity : Severity;
  description : JS.jsval;
  fixedIn : JS.jsval
}.
End Vulnerability.

Module Summary.
Record t : Type := mk {
  critical : Z;
  high : Z;
  moderate : Z;
  low : Z;
  outdated : Z;
  totalDeps : Z;
  totalDevDeps : Z
}.
End Summary.

Module DependencyReport.
Record t : Type := mk {
  dependencies : JS.jsval;
  devDependencies : JS.jsval;
  healthScore : Z;
  outdated : list OutdatedPackage.t;
  summary : Summary.t;
  totalDependencies : Z;
  vulnerabilities : list Vulnerability.t
}.
End DependencyReport.

Module NpmOutdatedInfo.
Record t : Type := mk {
  current : string;
  wanted : string;
  latest : string;
  location : string
}.
End NpmOutdatedInfo.

Module VersionDistance.
Record t : Type := mk {
  majorVersionsBehind : Z;
  minorVersionsBehind : Z;
  patchVersionsBehind : Z;
  totalDistance : Z
}.
End VersionDistance.

(* ================================================================== *)
(** * The world outside the engine *)
(* ================================================================== *)

(** How [npm audit --json] ended: with exit code 0, or with an error that
    may carry the standard output. The inner option is [JSON.parse] of that
    output ([None]: it throws). *)
Inductive AuditRun : Type :=
| AuditExited (parsed : option JS.jsval)
| AuditFailed (stdout : option (option JS.jsval)).

(** The frozen external data of one run, and the order in which the
    fetches of a fan-out complete ([completion name] is the rank of the
    fetch for [name]; callbacks run by increasing rank). A fetch is [None]
    when its promise rejects. *)
Record World : Type := mkWorld {
  registry : string -> option JS.jsval;
  npms : string -> option JS.jsval;
  audit : AuditRun;
  completion : string -> nat
}.

(** The clock: [now k] is what the k-th call of [Date.now()] returns. *)
Definition Clock : Type := nat -> Z.

(* ================================================================== *)
(** * [class AnalyzerService] *)
(* ================================================================== *)

Module AnalyzerService.
Import JS.

(** [try { ... } catch (error) { return fallback }] in a method that
    returns a plain value. *)
Definition orReturn {A} (body : result A) (fallback : A) : A :=
  match body with
  | Ok a => a
  | Throw _ => fallback
  end.

(* ---------------------------------------------------------------- *)
(** ** Fetches *)

Definition fetchPackageInfo (w : World) (packageName : string) : result jsval :=
  match registry w packageName with
  | Some info => Ok info
  | None => Throw (JsError "registry request failed")
  end.

Definition fetchNpmsIoData (w : World) (packageName : string) : result jsval :=
  match npms w packageName with
  | Some data => Ok data
  | None => Throw (JsError "npms.io request failed")
  end.

Definition emptyAudit : jsval := JObj [("vulnerabilities", JObj [])].

Definition getNpmAudit (w : World) : jsval :=
  match audit w with
  | AuditExited (Some parsed) => parsed
  | AuditExited None => emptyAudit
  | AuditFailed (Some (Some parsed)) => parsed
  | AuditFailed (Some None) => emptyAudit
  | AuditFailed None => emptyAudit
  end.

(** Callbacks of a fan-out run in the order in which their fetches
    complete: a stable insertion by rank of the dispatch order. *)
Fixpoint insertByRank {A} (rank : string -> nat) (e : string * A)
  (l : list (string * A)) : list (string * A) :=
  match l with
  | [] => [e]
  | x :: r =>
      if (rank (fst e) <=? rank (fst x))%nat then e :: l
      else x :: insertByRank rank e r
  end.

Definition completionOrder {A} (rank : string -> nat) (l : list (string * A))
  : list (string * A) :=
  fold_right (insertByRank rank) [] l.

(* ---------------------------------------------------------------- *)
(** ** Semver operations *)

(** [[\^~>=<]] *)
Definition isRangeOperator (c : ascii) : bool :=
  Ascii.eqb c "^" || Ascii.eqb c "~" || Ascii.eqb c ">"
  || Ascii.eqb c "=" || Ascii.eqb c "<".

(** The argument is typed [string] but arrives unchecked from the
    manifest: on anything else [range.replace] is not callable. *)
Definition extractVersionFromRange (range : jsval) : result (option string) :=
  match range with
  | JStr s => Ok (Semver.valid (Str.trim (Str.remove isRangeOperator s)))
  | JUndefined | JNull =>
      Throw (JsError ("Cannot read properties of " ++ describe range
                      ++ " (reading 'replace')"))
  | _ => Throw (JsError "range.replace is not a function")
  end.

(** [semver.gt(latest, current)] where [latest] comes from the registry
    response: the [SemVer] constructor rejects what is not a string. *)
Definition gtLatest (latest : jsval) (current : string) : result bool :=
  match latest with
  | JStr l => Semver.gt l current
  | _ => Throw (JsError "Invalid version. Must be a string.")
  end.

Definition stringOf (v : jsval) : string :=
  match v with JStr s => s | _ => "" end.

(** [outdated[name] = info]: the name [__proto__] reaches the setter of
    [Object.prototype] and creates no own property. *)
Definition assign {A} (o : list (string * A)) (name : string) (v : A)
  : list (string * A) :=
  if name =? "__proto__" then o else setProp o name v.

(** The body of the [async] callback of [getOutdatedFast], from the
    moment its fetch has settled. *)
Definition outdatedCallback (w : World)
  (outdated : list (string * NpmOutdatedInfo.t)) (entry : string * jsval)
  : list (string * NpmOutdatedInfo.t) :=
  let (name, range) := entry in
  orReturn
    (info <- fetchPackageInfo w name ;;
     tags <- getProp info "dist-tags" ;;
     latest <- getOpt tags "latest" ;;
     current <- extractVersionFromRange range ;;
     match current with
     | Some cur =>
         if truthy latest then
           newer <- gtLatest latest cur ;;
           if (newer : bool) then
             Ok (assign outdated name
                   (NpmOutdatedInfo.mk cur (stringOf latest) (stringOf latest) ""))
           else Ok outdated
         else Ok outdated
     | None => Ok outdated
     end)
    outdated.

Definition mergedDependencies (packageJson : jsval)
  : result (list (string * jsval)) :=
  deps <- getProp packageJson "dependencies" ;;
  devDeps <- getProp packageJson "devDependencies" ;;
  Ok (spread2 deps devDeps).

Definition getOutdatedFast (w : World) (packageJson : jsval)
  : result (list (string * NpmOutdatedInfo.t)) :=
  deps <- mergedDependencies packageJson ;;
  Ok (fold_left (outdatedCallback w) (completionOrder (completion w) deps) []).

Definition determineUpdateType (currentVersion latestVersion : string)
  : UpdateType :=
  orReturn
    (match Semver.clean currentVersion, Semver.clean latestVersion with
     | Some current, Some latest =>
         diffType <- Semver.diff current latest ;;
         match diffType with
         | Some Semver.Major | Some Semver.Premajor => Ok UMajor
         | Some Semver.Minor | Some Semver.Preminor => Ok UMinor
         | Some Semver.Patch | Some Semver.Prepatch => Ok UPatch
         | _ => Ok UPatch
         end
     | _, _ => Ok UPatch
     end)
    UPatch.

(** One turn of the loop of [buildOutdatedList]. *)
Definition pushOutdated (outdatedList : list OutdatedPackage.t)
  (entry : string * NpmOutdatedInfo.t) : list OutdatedPackage.t :=
  let (pkgName, pkgInfo) := entry in
  let current := NpmOutdatedInfo.current pkgInfo in
  let latest := NpmOutdatedInfo.latest pkgInfo in
  match Semver.valid current, Semver.valid latest with
  | Some _, Some _ =>
      (outdatedList
         ++ [OutdatedPackage.mk pkgName current latest
               (determineUpdateType current latest)])%list
  | _, _ => outdatedList
  end.

Definition buildOutdatedList (npmOutdated : list (string * NpmOutdatedInfo.t))
  : list OutdatedPackage.t :=
  fold_left pushOutdated npmOutdated [].

Definition zeroDistance : VersionDistance.t := VersionDistance.mk 0 0 0 0.

Definition calculateVersionDistance (current latest : string)
  : VersionDistance.t :=
  orReturn
    (match Semver.clean current, Semver.clean latest with
     | Some curr, Some lat =>
         latMajor <- Semver.majorOf lat ;;
         currMajor <- Semver.majorOf curr ;;
         latMinor <- Semver.minorOf lat ;;
         currMinor <- Semver.minorOf curr ;;
         latPatch <- Semver.patchOf lat ;;
         currPatch <- Semver.patchOf curr ;;
         let majorDiff := Number.sub (Z.of_N latMajor) (Z.of_N currMajor) in
         let minorDiff := Number.sub (Z.of_N latMinor) (Z.of_N currMinor) in
         let patchDiff := Number.sub (Z.of_N latPatch) (Z.of_N currPatch) in
         Ok (VersionDistance.mk
               majorDiff
               (if (majorDiff =? 0)%Z then minorDiff else 0%Z)
               (if (majorDiff =? 0)%Z && (minorDiff =? 0)%Z then patchDiff else 0%Z)
               (Number.add
                  (Number.add (Number.mul majorDiff 10000)
                              (Number.mul minorDiff 100))
                  patchDiff))
     | _, _ => Ok zeroDistance
     end)
    zeroDistance.

(* ---------------------------------------------------------------- *)
(** ** Health score *)

(** [Math.round] on an integer. *)
Definition mathRound (z : Z) : Z := z.

Definition outdatedPenalty (pkg : OutdatedPackage.t) : Z :=
  let distance :=
    calculateVersionDistance (OutdatedPackage.current pkg)
                             (OutdatedPackage.latest pkg) in
  match OutdatedPackage.type pkg with
  | UMajor => Number.mul (VersionDistance.majorVersionsBehind distance) 5
  | UMinor => Number.mul (VersionDistance.minorVersionsBehind distance) 2
  | UPatch => Number.mul (VersionDistance.patchVersionsBehind distance) 1
  end.

Definition calculateHealthScore (report : DependencyReport.t) : Z :=
  let s := DependencyReport.summary report in
  let score := 100%Z in
  let score := Number.sub score (Number.mul (Summary.critical s) 15) in
  let score := Number.sub score (Number.mul (Summary.high s) 10) in
  let score := Number.sub score (Number.mul (Summary.moderate s) 5) in
  let score := Number.sub score (Number.mul (Summary.low s) 2) in
  let score :=
    fold_left (fun score pkg => Number.sub score (outdatedPenalty pkg))
              (DependencyReport.outdated report) score in
  Z.max 0 (Z.min 100 (mathRound score)).

(* ---------------------------------------------------------------- *)
(** ** Vulnerability processing *)

Definition severityOfName (s : string) : option Severity :=
  if s =? "critical" then Some Critical
  else if s =? "high" then Some High
  else if s =? "moderate" then Some Moderate
  else if s =? "low" then Some Low
  else None.

(** The parameter is typed [string | undefined]; a truthy value of
    another type has no [toLowerCase]. *)
Definition normalizeSeverity (severity : jsval) : result Severity :=
  if negb (truthy severity) then Ok Unknown
  else match severity with
       | JStr s =>
           match severityOfName (Str.toLowerCase s) with
           | Some sev => Ok sev
           | None => Ok Unknown
           end
       | _ => Throw (JsError "severity.toLowerCase is not a function")
       end.

Section WithRuntime.
Context {RT : Runtime}.

(** State of [processVulnerabilities]: the array built so far and the
    number of clock readings taken. *)
Definition VulnState : Type := (list Vulnerability.t * nat)%type.

(** [via.source?.toString() || `vuln-${pkg}-${Date.now()}`] *)
Definition vulnerabilityId (now : Clock) (pkg : string) (source : jsval)
  : St VulnState string :=
  (text <- liftS (if isNullish source then Ok ""
                  else toString source) ;;
   if negb (text =? "") then retS text
   else
     st <- getS ;;
     putS (fst st, S (snd st)) ;;;
     retS ("vuln-" ++ pkg ++ "-" ++ Str.ofZ (now (snd st))))%st.

(** The callback of [vulnInfo.via.forEach]. *)
Definition viaCallback (now : Clock) (pkg : string) (vulnInfo via : jsval)
  : St VulnState unit :=
  (if typeofObject via then
     source <- liftS (getProp via "source") ;;
     sourceOrTitle <- liftS (if truthy source then Ok source
                             else getProp via "title") ;;
     if truthy sourceOrTitle then
       id <- vulnerabilityId now pkg source ;;
       range <- liftS (getProp via "range") ;;
       sev <- liftS (getProp via "severity") ;;
       severity <- liftS (normalizeSeverity sev) ;;
       description <- liftS (getProp via "title") ;;
       fixAvailable <- liftS (getProp vulnInfo "fixAvailable") ;;
       fixVersion <- liftS (getOpt fixAvailable "version") ;;
       st <- getS ;;
       putS ((fst st
                ++ [Vulnerability.mk id pkg
                      (orElse range (JStr "unknown"))
                      severity
                      (orElse description (JStr "No description available"))
                      (orElse fixVersion (JStr "Check npm registry"))])%list,
             snd st)
     else retS tt
   else retS tt)%st.

(** The body of the [for ... of Object.entries(...)] loop. *)
Definition packageLoopBody (now : Clock) (entry : string * jsval)
  : St VulnState unit :=
  (let (pkg, vulnInfo) := entry in
   via <- liftS (getProp vulnInfo "via") ;;
   match via with
   | JArr items => forEachS (viaCallback now pkg vulnInfo) items
   | _ => retS tt
   end)%st.

Definition processVulnerabilitiesBody (now : Clock) (npmAudit : jsval)
  : St VulnState unit :=
  (vulns <- liftS (getProp npmAudit "vulnerabilities") ;;
   if truthy vulns then forEachS (packageLoopBody now) (ownEntries vulns)
   else retS tt)%st.

Definition processVulnerabilities (now : Clock) (npmAudit : jsval)
  : list Vulnerability.t :=
  fst (snd (swallowS (processVulnerabilitiesBody now npmAudit) ([], 0%nat))).

Definition countSeverity (sev : Severity) (l : list Vulnerability.t) : Z :=
  Z.of_nat
    (List.length
       (filter (fun v => match Vulnerability.severity v, sev with
                         | Critical, Critical | High, High
                         | Moderate, Moderate | Low, Low
                         | Unknown, Unknown => true
                         | _, _ => false
                         end) l)).

(** The assignments of [generateDependencyReport] after the report
    object has been created: vulnerabilities, summary counts, total and
    health score. *)
Definition fillReport (report : DependencyReport.t)
  (vulnerabilities : list Vulnerability.t) : DependencyReport.t :=
  let s := DependencyReport.summary report in
  let s :=
    Summary.mk
      (countSeverity Critical vulnerabilities)
      (countSeverity High vulnerabilities)
      (countSeverity Moderate vulnerabilities)
      (countSeverity Low vulnerabilities)
      (Z.of_nat (List.length (DependencyReport.outdated report)))
      (Summary.totalDeps s)
      (Summary.totalDevDeps s) in
  let report :=
    DependencyReport.mk
      (DependencyReport.dependencies report)
      (DependencyReport.devDependencies report)
      (DependencyReport.healthScore report)
      (DependencyReport.outdated report)
      s
      (Summary.totalDeps s + Summary.totalDevDeps s)%Z
      vulnerabilities in
  DependencyReport.mk
    (DependencyReport.dependencies report)
    (DependencyReport.devDependencies report)
    (calculateHealthScore report)
    (DependencyReport.outdated report)
    (DependencyReport.summary report)
    (DependencyReport.totalDependencies report)
    (DependencyReport.vulnerabilities report).

Definition generateDependencyReport (w : World) (now : Clock)
  (packageJson : jsval) : result DependencyReport.t :=
  tryCatch
    (npmOutdated <- getOutdatedFast w packageJson ;;
     let npmAudit := getNpmAudit w in
     dependencies <- getProp packageJson "dependencies" ;;
     devDependencies <- getProp packageJson "devDependencies" ;;
     let report :=
       DependencyReport.mk
         (orElse dependencies objectEmpty)
         (orElse devDependencies objectEmpty)
         100
         (buildOutdatedList npmOutdated)
         (Summary.mk 0 0 0 0 0
            (keysLength (orElse dependencies objectEmpty))
            (keysLength (orElse devDependencies objectEmpty)))
         0
         [] in
     Ok (fillReport report (processVulnerabilities now npmAudit)))
    (fun error =>
       Throw (JsError ("Failed to generate dependency report: "
                       ++ message error))).

(* -------------------------------------------------------------- *)
(** ** The registry and quality-signal audit *)

(** The object [vulnerabilities] that the callbacks of
    [getNpmAuditFast] share: its own properties, and whether its
    prototype has been replaced through an assignment to [__proto__]
    (the replacement is an entry object with the own properties [via]
    and [fixAvailable]). *)
Record Accumulator : Type := mkAccumulator {
  own : list (string * jsval);
  protoReplaced : bool
}.

Definition emptyAccumulator : Accumulator := mkAccumulator [] false.

(** What [vulnerabilities[name]] evaluates to. *)
Inductive Lookup : Type :=
| OwnEntry (entry : jsval)
| Prototype         (* [__proto__]: the prototype object itself *)
| Inherited         (* a property found on the prototype chain *)
| Missing.

Definition lookup (acc : Accumulator) (name : string) : Lookup :=
  if name =? "__proto__" then Prototype
  else match ownGet (own acc) name with
       | Some entry => OwnEntry entry
       | None =>
           if protoReplaced acc && inList name ["via"; "fixAvailable"]
           then Inherited
           else if inList name objectPrototypeKeys then Inherited
           else Missing
       end.

(** [vulnerabilities[name] = entry] for an entry object. *)
Definition assignEntry (name : string) (entry : jsval) : St Accumulator unit :=
  fun acc =>
    (Ok tt,
     if name =? "__proto__" then mkAccumulator (own acc) true
     else mkAccumulator (setProp (own acc) name entry) (protoReplaced acc)).

Definition freshEntry : jsval :=
  JObj [("via", JArr []); ("fixAvailable", JObj [("version", JStr "latest")])].

Definition pushItem (entry item : jsval) : result jsval :=
  match entry with
  | JObj props =>
      match ownGet props "via" with
      | Some (JArr items) =>
          Ok (JObj (replaceProp "via" (JArr (items ++ [item])%list) props))
      | _ => Throw (JsError "Cannot read properties of undefined (reading 'push')")
      end
  | _ => Throw (JsError "Cannot read properties of undefined (reading 'push')")
  end.

(** [if (!vulnerabilities[name]) { vulnerabilities[name] = {...} }
     vulnerabilities[name].via.push(item)].
    A value inherited from the prototype chain is truthy and has no
    [via] array, so [push] throws; the replaced prototype has one, and
    what is pushed there is not an own property of [vulnerabilities]. *)
Definition pushFinding (name : string) (item : jsval) : St Accumulator unit :=
  (acc <- getS ;;
   match lookup acc name with
   | OwnEntry entry =>
       entry' <- liftS (pushItem entry item) ;;
       assignEntry name entry'
   | Missing =>
       entry' <- liftS (pushItem freshEntry item) ;;
       assignEntry name entry'
   | Prototype =>
       if protoReplaced acc then retS tt
       else liftS (Throw (JsError
              "Cannot read properties of undefined (reading 'push')"))
   | Inherited =>
       liftS (Throw (JsError
         "Cannot read properties of undefined (reading 'push')"))
   end)%st.

Definition finding (source title severity version : string) : jsval :=
  JObj [("source", JStr source); ("title", JStr title);
        ("severity", JStr severity); ("range", JStr version)].

(** [npmsData?.score?.detail?.<field>] *)
Definition scoreDetail (npmsData : jsval) (field : string) : result jsval :=
  score <- getOpt npmsData "score" ;;
  detail <- getOpt score "detail" ;;
  getOpt detail field.

(** [quality < 0.5 || maintenance < 0.5] on the optional chains. *)
Definition lowScore (npmsData : jsval) : result bool :=
  quality <- scoreDetail npmsData "quality" ;;
  lowQuality <- lessThan quality lit_0_5 ;;
  if (lowQuality : bool) then Ok true
  else
    maintenance <- scoreDetail npmsData "maintenance" ;;
    lessThan maintenance lit_0_5.

Definition checkNpmsIoSecurity (w : World) (packageName version : string)
  : St Accumulator unit :=
  swallowS
    (npmsData <- liftS (fetchNpmsIoData w packageName) ;;
     low <- liftS (lowScore npmsData) ;;
     (if (low : bool) then
        score <- liftS (getProp npmsData "score") ;;
        detail <- liftS (getProp score "detail") ;;
        quality <- liftS (getProp detail "quality") ;;
        veryLow <- liftS (lessThan quality lit_0_3) ;;
        let severity := if (veryLow : bool) then "high" else "moderate" in
        pushFinding packageName
          (finding "npms-quality-check"
             "Low quality/maintenance score detected" severity version)
      else retS tt) ;;;
     collected <- liftS (getOpt npmsData "collected") ;;
     metadata <- liftS (getOpt collected "metadata") ;;
     flag <- liftS (getOpt metadata "hasVulnerabilities") ;;
     if truthy flag then
       pushFinding packageName
         (finding "npms-vulnerability-flag"
            "Package flagged with known vulnerabilities" "high" version)
     else retS tt)%st.

(** The body of the [async] callback of [getNpmAuditFast]. The two
    fetches of a package and the code between them touch only the
    property of that package, so running the callbacks one after the
    other in completion order yields every object the interleaved
    execution can yield. *)
Definition auditCallback (w : World) (entry : string * jsval)
  : St Accumulator unit :=
  let (name, version) := entry in
  swallowS
    (pkgInfo <- liftS (fetchPackageInfo w name) ;;
     current <- liftS (extractVersionFromRange version) ;;
     match current with
     | None => retS tt
     | Some currentVersion =>
         versions <- liftS (getProp pkgInfo "versions") ;;
         versionData <- liftS (if truthy versions
                               then getProp versions currentVersion
                               else Ok JUndefined) ;;
         (if truthy versions && truthy versionData then
            deprecated <- liftS (getProp versionData "deprecated") ;;
            if truthy deprecated then
              tags <- liftS (getProp pkgInfo "dist-tags") ;;
              latest <- liftS (getOpt tags "latest") ;;
              assignEntry name
                (JObj [("via",
                        JArr [JObj [("source", JStr ("npm-deprecated-" ++ name));
                                    ("title", deprecated);
                                    ("severity", JStr "moderate");
                                    ("range", version)]]);
                       ("fixAvailable",
                        JObj [("version",
                               orElse latest (JStr currentVersion))])])
            else retS tt
          else retS tt) ;;;
         checkNpmsIoSecurity w name currentVersion
     end)%st.

Definition getNpmAuditFast (w : World) (packageJson : jsval) : jsval :=
  orReturn
    (deps <- mergedDependencies packageJson ;;
     let vulnerabilities :=
       snd (forEachS (auditCallback w)
                     (completionOrder (completion w) deps)
                     emptyAccumulator) in
     Ok (JObj [("vulnerabilities", JObj (own vulnerabilities))]))
    emptyAudit.

Definition generateVulnerabilityReport (w : World) (now : Clock)
  (packageJson : jsval) : result (list Vulnerability.t) :=
  tryCatch
    (_ <- getProp packageJson "name" ;;
     let npmAudit := getNpmAuditFast w packageJson in
     Ok (processVulnerabilities now npmAudit))
    (fun _ => Ok []).

End WithRuntime.

(* ---------------------------------------------------------------- *)
(** ** Sorting *)

(** Arrays of outdated entries live on the heap; a report, and every
    variable bound to its [outdated] field, holds a reference. *)
Definition Ref : Type := nat.
Definition Heap : Type := Ref -> option (list OutdatedPackage.t).

Definition write (h : Heap) (r : Ref) (l : list OutdatedPackage.t) : Heap :=
  fun r' => if (r' =? r)%nat then Some l else h r'.

(** The comparator [(a, b) => semver.compare(a.current, b.current)]. *)
Definition byCurrent (a b : OutdatedPackage.t) : result Z :=
  Semver.compare (OutdatedPackage.current a) (OutdatedPackage.current b).

(** Stable insertion: [x] goes behind the elements that do not compare
    greater than it. *)
Fixpoint insertSorted (x : OutdatedPackage.t) (l : list OutdatedPackage.t)
  : result (list OutdatedPackage.t) :=
  match l with
  | [] => Ok [x]
  | y :: r =>
      c <- byCurrent y x ;;
      if (0 <? c)%Z then Ok (x :: l)
      else r' <- insertSorted x r ;; Ok (y :: r')
  end.

(** The sorted order [Array.prototype.sort] computes (it is stable);
    the comparator throws on a version that does not parse. *)
Definition sorted (l : list OutdatedPackage.t) : result (list OutdatedPackage.t) :=
  fold_left (fun acc x => l' <- acc ;; insertSorted x l') l (Ok []).

(** [outdatedList.sort(...)] sorts the array it is given and returns
    that array. When the comparator throws nothing has been written
    back. *)
Definition sortOutdatedByPriority (h : Heap) (outdatedList : Ref)
  : result (Heap * Ref) :=
  match h outdatedList with
  | Some l =>
      l' <- sorted l ;;
      Ok (write h outdatedList l', outdatedList)
  | None => Throw (JsError "dangling reference")
  end.

End AnalyzerService.

(* ================================================================== *)
(** * The specification's wording of the pure operations *)
(* ================================================================== *)

Module Spec.

(** "compare major components first; if equal compare minor; if equal
    compare patch; the first differing component determines the
    classification. Pre-release/build-metadata differences with identical
    major.minor.patch classify as patch." *)
Definition classifyBump (current latest : Semver.SemVer) : UpdateType :=
  if negb (Semver.major current =? Semver.major latest)%N then UMajor
  else if negb (Semver.minor current =? Semver.minor latest)%N then UMinor
  else UPatch.

Record Distance : Type := mkDistance {
  majorBehind : Z;
  minorBehind : Z;
  patchBehind : Z
}.

(** "majorBehind = latest.major - current.major; if majorBehind == 0,
    minorBehind = latest.minor - current.minor, else 0; if both are 0,
    patchBehind = latest.patch - current.patch, else 0." *)
Definition distance (current latest : Semver.SemVer) : Distance :=
  let majorBehind :=
    (Z.of_N (Semver.major latest) - Z.of_N (Semver.major current))%Z in
  let minorBehind :=
    if (majorBehind =? 0)%Z
    then (Z.of_N (Semver.minor latest) - Z.of_N (Semver.minor current))%Z
    else 0%Z in
  let patchBehind :=
    if (majorBehind =? 0)%Z && (minorBehind =? 0)%Z
    then (Z.of_N (Semver.patch latest) - Z.of_N (Semver.patch current))%Z
    else 0%Z in
  mkDistance majorBehind minorBehind patchBehind.

(** "critical -15, high -10, moderate -5, low -2, unknown -0" *)
Definition severityPenalty (s : Severity) : Z :=
  match s with
  | Critical => 15
  | High => 10
  | Moderate => 5
  | Low => 2
  | Unknown => 0
  end.

(** "for major bumps, 5 x majorBehind; for minor bumps, 2 x minorBehind;
    for patch bumps, 1 x patchBehind", on an entry whose two versions are
    valid. *)
Definition stalenessPenalty (e : OutdatedPackage.t) : Z :=
  match Semver.parse (OutdatedPackage.current e),
        Semver.parse (OutdatedPackage.latest e) with
  | Some current, Some latest =>
      let d := distance current latest in
      match OutdatedPackage.type e with
      | UMajor => (5 * majorBehind d)%Z
      | UMinor => (2 * minorBehind d)%Z
      | UPatch => (1 * patchBehind d)%Z
      end
  | _, _ => 0%Z
  end.

Definition total (l : list Z) : Z := fold_right Z.add 0%Z l.

(** "Start at 100 ... Final score is clamped to [0, 100] and rounded to
    the nearest integer." *)
Definition score (vulnerabilities : list Vulnerability.t)
  (outdated : list OutdatedPackage.t) : Z :=
  let raw :=
    (100
     - total (map (fun v => severityPenalty (Vulnerability.severity v))
                  vulnerabilities)
     - total (map stalenessPenalty outdated))%Z in
  Z.max 0 (Z.min 100 raw).

(** One of the two versions carries a pre-release tag, the other does
    not, and the tagged one does not have the greater
    major.minor.patch: a pre-release followed by a release. *)
Definition prereleaseToRelease (a b : Semver.SemVer) : bool :=
  (Semver.hasPre a && negb (Semver.hasPre b)
   && (Semver.compareMain a b <=? 0)%Z)
  || (Semver.hasPre b && negb (Semver.hasPre a)
      && (Semver.compareMain b a <=? 0)%Z).

(** The version of such a pair that carries the tag. *)
Definition tagged (a b : Semver.SemVer) : Semver.SemVer :=
  if Semver.hasPre a then a else b.

(** A pre-release with minor 0 and patch 0 followed by a release, as
    1.0.0-alpha and 1.1.0. *)
Definition beforeMajor (a b : Semver.SemVer) : bool :=
  prereleaseToRelease a b
  && (Semver.minor (tagged a b) =? 0)%N && (Semver.patch (tagged a b) =? 0)%N.

(** A pre-release with patch 0 and a minor that is not 0 followed by the
    release of the same major.minor.patch, as 1.2.0-alpha and 1.2.0. *)
Definition beforeMinor (a b : Semver.SemVer) : bool :=
  prereleaseToRelease a b
  && (Semver.compareMain a b =? 0)%Z
  && negb (Semver.minor (tagged a b) =? 0)%N
  && (Semver.patch (tagged a b) =? 0)%N.

End Spec.
(* ================================================================== *)
(** * [Array.prototype.sort] *)
(* ================================================================== *)

Module JSArray.

(** Stable insertion under a comparator that can throw: [x] goes behind
    the elements that do not compare greater than it. *)
Fixpoint insertBy {A} (compareFn : A -> A -> result Z) (x : A) (l : list A)
  : result (list A) :=
  match l with
  | [] => Ok [x]
  | y :: r =>
      c <- compareFn y x ;;
      if (0 <? c)%Z then Ok (x :: l)
      else r' <- insertBy compareFn x r ;; Ok (y :: r')
  end.

(** The order [l.sort(compareFn)] computes: the sort is stable, an array
    of fewer than two elements is returned without a call of the
    comparator, and in a longer one every element is compared at least
    once. *)
Definition sortBy {A} (compareFn : A -> A -> result Z) (l : list A)
  : result (list A) :=
  fold_left (fun acc x => l' <- acc ;; insertBy compareFn x l') l (Ok []).

End JSArray.

(* ================================================================== *)
(** * The [semver] package: functions behind the utility methods *)
(* ================================================================== *)

(** The utility methods of the service call [semver.prerelease] and
    [semver.rsort] besides the functions of [Semver]. They are
    transcribed from release 7.7: functions/prerelease.js,
    functions/rsort.js, functions/compare-build.js and the method
    [compareBuild] of classes/semver.js. *)

Module SemverFunctions.
Import Str Semver.

(** An element of the array [prerelease] of a [SemVer] object: the
    constructor turns a numeric identifier below MAX_SAFE_INTEGER into a
    number and keeps every other one as a string. *)
Inductive Identifier : Type :=
| IdNumber (n : N)
| IdString (s : string).

Definition identifierOf (id : string) : Identifier :=
  if isNumeric id then
    let num := toDouble (decimalValue id) in
    if (num <? MAX_SAFE_INTEGER)%N then IdNumber num else IdString id
  else IdString id.

(** [semver.prerelease]: the array, or [null] when the version does not
    parse or has no pre-release identifiers. *)
Definition prereleaseOf (version : string) : option (list Identifier) :=
  match parse version with
  | Some parsed =>
      match prerelease parsed with
      | [] => None
      | ids => Some (map identifierOf ids)
      end
  | None => None
  end.

(** [SemVer.prototype.compareBuild]: the [do ... while (++i)] loop of
    [comparePre], on the build identifiers. *)
Definition compareBuildSemVer (v o : SemVer) : Z :=
  comparePreLoop (build v) (build o).

(** [compareBuild(a, b)] of functions/compare-build.js *)
Definition compareBuild (a b : string) : result Z :=
  versionA <- constructOrThrow a ;;
  versionB <- constructOrThrow b ;;
  Ok (orZ (compareSemVer versionA versionB) (compareBuildSemVer versionA versionB)).

(** [semver.rsort(list)]: [list.sort((a, b) => compareBuild(b, a))] *)
Definition rsort (list : list string) : result (List.list string) :=
  JSArray.sortBy (fun a b => compareBuild b a) list.

End SemverFunctions.

(* ================================================================== *)
(** * [class AnalyzerService]: the public utility methods *)
(* ================================================================== *)

(** The methods of [analyzer.service.ts] that work on version strings
    alone. Their parameters are typed [string]. [checkVersionRange],
    [getBestVersionInRange], [validateVersions] and [coerceVersion] rest
    on the range grammar and the coercion pattern of [semver] and are not
    part of the model. *)

Module VersionAnalysis.
Record t : Type := mk {
  major : N;
  minor : N;
  patch : N;
  prerelease : option (list SemverFunctions.Identifier);
  version : string
}.
End VersionAnalysis.

Module AnalyzerUtilities.
Import JS AnalyzerService.

(** [null] is [None]. *)
Definition analyzeVersion (version : string) : option VersionAnalysis.t :=
  orReturn
    (match Semver.clean version with
     | None => Ok None
     | Some cleanVersion =>
         major <- Semver.majorOf cleanVersion ;;
         minor <- Semver.minorOf cleanVersion ;;
         patch <- Semver.patchOf cleanVersion ;;
         Ok (Some (VersionAnalysis.mk major minor patch
                     (SemverFunctions.prereleaseOf cleanVersion)
                     cleanVersion))
     end)
    None.

Definition hasBreakingChanges (current latest : string) : bool :=
  orReturn
    (match Semver.clean current, Semver.clean latest with
     | Some curr, Some lat =>
         currMajor <- Semver.majorOf curr ;;
         latMajor <- Semver.majorOf lat ;;
         Ok (currMajor <? latMajor)%N
     | _, _ => Ok false
     end)
    false.

Definition areVersionsCompatible (version1 version2 : string) : bool :=
  orReturn
    (match Semver.clean version1, Semver.clean version2 with
     | Some v1, Some v2 =>
         major1 <- Semver.majorOf v1 ;;
         major2 <- Semver.majorOf v2 ;;
         Ok (major1 =? major2)%N
     | _, _ => Ok false
     end)
    false.

(** [sorted[0] || null] *)
Definition firstOrNull (sorted : list string) : option string :=
  match sorted with
  | x :: _ => if x =? "" then None else Some x
  | [] => None
  end.

(** [findNewestVersion] sorts the array it is given. The result pairs
    the content of that array after the call with the value returned;
    when the comparator throws nothing has been written back. *)
Definition findNewestVersion (versions : list string)
  : list string * option string :=
  match SemverFunctions.rsort versions with
  | Ok sorted => (sorted, firstOrNull sorted)
  | Throw _ => (versions, None)
  end.

End AnalyzerUtilities.
(* ================================================================== *)
(** * The HTTP layer: [analyzer.middleware.ts], [analyzer.controller.ts]
      and [analyzer.route.ts] *)
(* ================================================================== *)

(** Conventions of this part.

    - A handler of Express ends in one of three ways: it sends a response
      with [res.status(n).json(body)], it calls [next()], or it calls
      [next(error)]. That is its [Outcome].
    - A response body is the object literal passed to [res.json]; a
      member that is absent or [undefined] is [None].
    - What the handlers reach outside the process (the registry, the
      quality-signal service, the audit tool, the file system, the
      environment) is a [Host.t]. *)

Module StrSearch.

(** [String.prototype.includes] *)
Fixpoint includes (s search : string) : bool :=
  String.prefix search s
  || match s with
     | EmptyString => false
     | String _ r => includes r search
     end.

(** [String.prototype.endsWith] *)
Definition endsWith (s search : string) : bool :=
  (String.length search <=? String.length s)%nat
  && (String.substring (String.length s - String.length search)
                       (String.length search) s =? search).

End StrSearch.

Module Config.

(** [config.env]: [process.env.NODE_ENV || 'development'] *)
Definition env (NODE_ENV : option string) : string :=
  match NODE_ENV with
  | Some value => if value =? "" then "development" else value
  | None => "development"
  end.

End Config.

Module Host.
Record t : Type := mk {
  registry : string -> option JS.jsval;
  npms : string -> option JS.jsval;
  completion : string -> nat;
  (** How [npm audit --json] ends in the directory of the
      [packageJsonPath] a service was constructed with; [None] is the
      service constructed without argument. *)
  npmAudit : option JS.jsval -> AuditRun;
  (** [process.env.NODE_ENV] *)
  NODE_ENV : option string;
  (** [fs.existsSync] and [path.dirname] on strings, and the [TypeError]
      with which [path.dirname] rejects a value of another type. *)
  existsSync : string -> bool;
  dirname : string -> string;
  pathTypeError : JS.jsval -> exn;
  (** [path.join(process.cwd(), 'dependency-report.json')], and
      [fs.writeFileSync(filePath, JSON.stringify(report, null, 2), 'utf8')]. *)
  defaultReportPath : string;
  writeFileSync : JS.jsval -> DependencyReport.t -> result unit
}.
End Host.

Module SeverityCounts.
Record t : Type := mk {
  critical : Z;
  high : Z;
  moderate : Z;
  low : Z;
  unknown : Z;
  total : Z
}.
End SeverityCounts.

(** The member [data] of the bodies the controller sends. *)
Inductive Data : Type :=
| ReportData (report : DependencyReport.t)
| SavedData (report : DependencyReport.t) (savedTo : JS.jsval)
| HealthData (healthScore : Z) (summary : Summary.t)
| OutdatedData (outdated : list OutdatedPackage.t) (count : Z)
| VulnerabilityData (vulnerabilities : list Vulnerability.t) (count : Z)
                    (summary : SeverityCounts.t).

Module Json.
Record t : Type := mk {
  success : bool;
  message : option string;
  error : option string;
  data : option Data
}.
End Json.

Module Response.
Record t : Type := mk {
  status : Z;
  json : Json.t
}.
End Response.

Module Http.
Import JS.

(** What the handlers read of a request. [body] is [undefined] when no
    body parser has filled it. *)
Record Request : Type := mkRequest {
  body : jsval;
  query : jsval
}.

Inductive Outcome : Type :=
| Responded (response : Response.t)
| Next
| NextError (error : exn).

(** [{ success: false, message }] and [{ success: false, error }] *)
Definition failureMessage (text : string) : Json.t :=
  Json.mk false (Some text) None None.
Definition failureError (text : string) : Json.t :=
  Json.mk false None (Some text) None.

(** [const { k } = v]: reading a member of [null] or [undefined] throws;
    the text is V8's for a source expression [expr]. *)
Definition destructure (expr : string) (v : jsval) (k : string) : result jsval :=
  match v with
  | JUndefined | JNull =>
      Throw (JsError ("Cannot destructure property '" ++ k ++ "' of '" ++ expr
                      ++ "' as it is " ++ describe v ++ "."))
  | _ => getProp v k
  end.

(** [typeof v === 'string'] *)
Definition typeofString (v : jsval) : bool :=
  match v with JStr _ => true | _ => false end.

(** [try { ...; res.status(n).json(body) } catch (error) { next(error) }] *)
Definition respondOrNext (handler : result Response.t) : Outcome :=
  match handler with
  | Ok response => Responded response
  | Throw error => NextError error
  end.

End Http.

(* ------------------------------------------------------------------ *)
(** ** [analyzer.middleware.ts] *)

Module AnalyzerMiddleware.
Import JS Http StrSearch.

Definition validateVersionCheck (req : Request) : Outcome :=
  match (version <- destructure "req.body" (body req) "version" ;;
         range <- destructure "req.body" (body req) "range" ;;
         Ok (version, range)) with
  | Ok (version, range) =>
      if negb (truthy version) then
        Responded (Response.mk 400 (failureMessage "version is required"))
      else if negb (truthy range) then
        Responded (Response.mk 400 (failureMessage "range is required"))
      else if negb (typeofString version) || negb (typeofString range) then
        Responded (Response.mk 400
                     (failureMessage "version and range must be strings"))
      else Next
  | Throw error => NextError error
  end.

Definition validateOutputPath (h : Host.t) (req : Request) : Outcome :=
  match destructure "req.body" (body req) "outputPath" with
  | Ok outputPath =>
      if truthy outputPath then
        match outputPath with
        | JStr path =>
            let dir := Host.dirname h path in
            if negb (Host.existsSync h dir) then
              Responded (Response.mk 400
                (failureMessage ("Output directory does not exist: " ++ dir)))
            else if negb (endsWith path ".json") then
              Responded (Response.mk 400
                (failureMessage "Output file must be a .json file"))
            else Next
        | _ => NextError (Host.pathTypeError h outputPath)
        end
      else Next
  | Throw error => NextError error
  end.

Definition analyzerErrorHandler (h : Host.t) (error : exn) : Response.t :=
  if includes (message error) "package.json" then
    Response.mk 400 (failureMessage (message error))
  else if includes (message error) "npm" then
    Response.mk 500
      (Json.mk false
         (Some "NPM command failed. Make sure npm is installed and accessible.")
         (Some (message error)) None)
  else
    Response.mk 500
      (Json.mk false
         (Some "An error occurred while analyzing dependencies")
         (if Config.env (Host.NODE_ENV h) =? "development"
          then Some (message error) else None)
         None).

(** The [catch] of this handler answers by itself. *)
Definition validatePackageJsonData (req : Request) : Outcome :=
  match (dependencies <- destructure "req.body" (body req) "dependencies" ;;
         devDependencies <- destructure "req.body" (body req) "devDependencies" ;;
         Ok (dependencies, devDependencies)) with
  | Ok (dependencies, devDependencies) =>
      if negb (truthy dependencies) && negb (truthy devDependencies) then
        Responded (Response.mk 400
          (failureError
             "At least one of dependencies or devDependencies is required"))
      else Next
  | Throw _ =>
      Responded (Response.mk 400 (failureError "Invalid package.json data"))
  end.

End AnalyzerMiddleware.

(* ------------------------------------------------------------------ *)
(** ** [analyzer.controller.ts] *)

(** [validateVersions] and [checkVersion] call [semver.validRange] and
    [semver.satisfies] and are not part of the model. *)

Module AnalyzerController.
Import JS Http AnalyzerService.

(** [packageJsonPath ? new AnalyzerService(packageJsonPath)
                     : this.analyzerService]:
    the path of a service decides only where its audit tool runs. *)
Definition serviceFor (h : Host.t) (packageJsonPath : jsval) : World :=
  mkWorld (Host.registry h) (Host.npms h)
          (Host.npmAudit h (if truthy packageJsonPath
                            then Some packageJsonPath else None))
          (Host.completion h).

(** [this.analyzerService] *)
Definition analyzerService (h : Host.t) : World := serviceFor h JUndefined.

(** [saveReportToFile] of the service. *)
Definition saveReportToFile (h : Host.t) (report : DependencyReport.t)
  (outputPath : jsval) : result jsval :=
  tryCatch
    (let filePath := if truthy outputPath then outputPath
                     else JStr (Host.defaultReportPath h) in
     _ <- Host.writeFileSync h filePath report ;;
     Ok filePath)
    (fun error =>
       Throw (JsError ("Failed to save report to file: " ++ message error))).

Definition nameOfSeverity (s : Severity) : string :=
  match s with
  | Critical => "critical"
  | High => "high"
  | Moderate => "moderate"
  | Low => "low"
  | Unknown => "unknown"
  end.

(** [vulnerabilities.filter(v => v.severity === severity)] *)
Definition bySeverity (severity : string) (l : list Vulnerability.t)
  : list Vulnerability.t :=
  filter (fun v => nameOfSeverity (Vulnerability.severity v) =? severity) l.

Definition lengthOf {A} (l : list A) : Z := Z.of_nat (List.length l).

Section WithRuntime.
Context {RT : Runtime}.

Definition generateReport (h : Host.t) (now : Clock) (req : Request) : Outcome :=
  respondOrNext
    (packageJsonPath <- destructure "req.body" (body req) "packageJsonPath" ;;
     let service := serviceFor h packageJsonPath in
     report <- generateDependencyReport service now (body req) ;;
     Ok (Response.mk 200
           (Json.mk true (Some "Dependency report generated successfully")
                   None (Some (ReportData report))))).

(** The service is called without a manifest. *)
Definition generateAndSaveReport (h : Host.t) (now : Clock) (req : Request)
  : Outcome :=
  respondOrNext
    (packageJsonPath <- destructure "req.body" (body req) "packageJsonPath" ;;
     outputPath <- destructure "req.body" (body req) "outputPath" ;;
     let service := serviceFor h packageJsonPath in
     report <- generateDependencyReport service now JUndefined ;;
     filePath <- saveReportToFile h report outputPath ;;
     Ok (Response.mk 200
           (Json.mk true
                   (Some "Dependency report generated and saved successfully")
                   None (Some (SavedData report filePath))))).

Definition getHealthScore (h : Host.t) (now : Clock) (req : Request) : Outcome :=
  respondOrNext
    (packageJsonPath <- destructure "req.query" (query req) "packageJsonPath" ;;
     let service := serviceFor h packageJsonPath in
     report <- generateDependencyReport service now JUndefined ;;
     Ok (Response.mk 200
           (Json.mk true None None
                   (Some (HealthData (DependencyReport.healthScore report)
                                     (DependencyReport.summary report)))))).

(** The array [report.outdated] is the one that is sorted and sent. *)
Definition getOutdatedPackages (h : Host.t) (now : Clock) (req : Request)
  : Outcome :=
  respondOrNext
    (packageJsonPath <- destructure "req.query" (query req) "packageJsonPath" ;;
     sortByPriority <- destructure "req.query" (query req) "sortByPriority" ;;
     let service := serviceFor h packageJsonPath in
     report <- generateDependencyReport service now JUndefined ;;
     let heap := write (fun _ => None) 0%nat (DependencyReport.outdated report) in
     sorted <- match sortByPriority with
               | JStr "true" => sortOutdatedByPriority heap 0%nat
               | _ => Ok (heap, 0%nat)
               end ;;
     let outdated := match fst sorted (snd sorted) with
                     | Some l => l
                     | None => []
                     end in
     Ok (Response.mk 200
           (Json.mk true None None
                   (Some (OutdatedData outdated (lengthOf outdated)))))).

Definition getVulnerabilities (h : Host.t) (now : Clock) (req : Request)
  : Outcome :=
  respondOrNext
    (let packageJsonData := body req in
     severity <- destructure "req.query" (query req) "severity" ;;
     vulnerabilities <-
       generateVulnerabilityReport (analyzerService h) now packageJsonData ;;
     let vulnerabilities :=
       match severity with
       | JStr s => if truthy severity then bySeverity s vulnerabilities
                   else vulnerabilities
       | _ => vulnerabilities
       end in
     let summary :=
       SeverityCounts.mk
         (lengthOf (bySeverity "critical" vulnerabilities))
         (lengthOf (bySeverity "high" vulnerabilities))
         (lengthOf (bySeverity "moderate" vulnerabilities))
         (lengthOf (bySeverity "low" vulnerabilities))
         (lengthOf (bySeverity "unknown" vulnerabilities))
         (lengthOf vulnerabilities) in
     Ok (Response.mk 200
           (Json.mk true None None
                   (Some (VulnerabilityData vulnerabilities
                            (lengthOf vulnerabilities) summary))))).

End WithRuntime.

End AnalyzerController.

(* ------------------------------------------------------------------ *)
(** ** [analyzer.route.ts] *)

Module AnalyzerRoutes.
Import JS Http AnalyzerMiddleware AnalyzerController.

(** The handlers of a route run in order until one of them answers or
    passes an error on. *)
Fixpoint dispatch (handlers : list (Request -> Outcome)) (req : Request)
  : Outcome :=
  match handlers with
  | [] => Next
  | handler :: rest =>
      match handler req with
      | Next => dispatch rest req
      | outcome => outcome
      end
  end.

(** A route of the router, closed by [router.use(analyzerErrorHandler)]. *)
Definition route (h : Host.t) (handlers : list (Request -> Outcome))
  (req : Request) : Outcome :=
  match dispatch handlers req with
  | NextError error => Responded (analyzerErrorHandler h error)
  | outcome => outcome
  end.

Section WithRuntime.
Context {RT : Runtime}.

(** [POST /report] *)
Definition report (h : Host.t) (now : Clock) : Request -> Outcome :=
  route h [validatePackageJsonData; generateReport h now].

(** [POST /report/save] *)
Definition reportSave (h : Host.t) (now : Clock) : Request -> Outcome :=
  route h [validatePackageJsonData; validateOutputPath h;
           generateAndSaveReport h now].

(** [GET /health-score] *)
Definition healthScore (h : Host.t) (now : Clock) : Request -> Outcome :=
  route h [validatePackageJsonData; getHealthScore h now].

(** [GET /outdated] *)
Definition outdated (h : Host.t) (now : Clock) : Request -> Outcome :=
  route h [validatePackageJsonData; getOutdatedPackages h now].

(** [POST /vulnerabilities] *)
Definition vulnerabilities (h : Host.t) (now : Clock) : Request -> Outcome :=
  route h [validatePackageJsonData; getVulnerabilities h now].

End WithRuntime.

End AnalyzerRoutes.

(* ================================================================== *)
(** * Vocabulary of the proofs *)
(* ================================================================== *)

Module Vocab.
Import Str Semver JS.

Definition isNot (c : ascii) : ascii -> bool := fun x => negb (Ascii.eqb x c).

Definition notSpace (c : ascii) : bool := negb (isWhiteSpace c).

(** Characters of the text behind the optional [v]. *)
Definition bodyChar (c : ascii) : bool :=
  isLetterDashNumber c || Ascii.eqb c ".".
Definition versionChar (c : ascii) : bool :=
  bodyChar c || Ascii.eqb c "+".

(** What a successful match says about the text. *)
Record Matched (t : string) (v : SemVer) : Type := {
  m_body : string;
  m_main : string;
  m_pre : option string;
  m_build : option string;
  m_a : string; m_b : string; m_c : string;
  m_break_plus : breakAt "+" t = (m_body, m_build);
  m_break_dash : breakAt "-" m_body = (m_main, m_pre);
  m_split : splitOn "." m_main = [m_a; m_b; m_c];
  m_major : component m_a = Some (major v);
  m_minor : component m_b = Some (minor v);
  m_patch : component m_c = Some (patch v);
  m_prerelease : identifiers prereleaseIdentifier m_pre = Some (prerelease v);
  m_buildids : identifiers buildIdentifier m_build = Some (build v)
}.

Definition preText (v : SemVer) : string :=
  match prerelease v with
  | [] => ""
  | pre => "-" ++ join "." pre
  end.

Definition release (v : SemVer) : SemVer :=
  mkSemVer (major v) (minor v) (patch v) (prerelease v) [].

(** A version that is the result of parsing some text. *)
Definition parsed (v : SemVer) : Prop := exists s, construct s = Some v.

(** The mapping of [determineUpdateType] from the result of
    [semver.diff]. *)
Definition updateOf (d : option ReleaseType) : UpdateType :=
  match d with
  | Some Major | Some Premajor => UMajor
  | Some Minor | Some Preminor => UMinor
  | _ => UPatch
  end.

(** An entry whose two versions pass [semver.valid], as
    [buildOutdatedList] requires. *)
Definition validEntry (e : OutdatedPackage.t) : Prop :=
  valid (OutdatedPackage.current e) <> None
  /\ valid (OutdatedPackage.latest e) <> None.

(** The property names of an object. *)
Definition keys {A} (o : list (string * A)) : list string := map fst o.

(** Two property lists with the same names in the same order and the same
    values except under [name]. *)
Definition agreeOff (name : string) (o o' : list (string * jsval)) : Prop :=
  Forall2 (fun a b => fst a = fst b /\ (fst a <> name -> snd a = snd b)) o o'.

End Vocab.

Module ScoreVocab.

(** The score of [calculateHealthScore] before the loop over the
    outdated entries, from the four counters of the summary. *)
Definition afterVulnerabilities (critical high moderate low : Z) : Z :=
  Number.sub
    (Number.sub
       (Number.sub (Number.sub 100 (Number.mul critical 15))
                   (Number.mul high 10))
       (Number.mul moderate 5))
    (Number.mul low 2).

(** The running score [d] of the code against the exact difference [x]
    while no penalty is negative: the two are equal as long as [x] is
    above -2^52, and both are negative from then on. *)
Definition tracks (d x : Z) : Prop :=
  (d = x /\ - 2 ^ 52 <= x <= 100)%Z \/ (d < 0 /\ x < 0)%Z.

End ScoreVocab.

Module AuditVocab.
Import JS Vocab AnalyzerService.

(** The shape of the items that [getNpmAuditFast] puts into a [via]
    array. *)
Definition isFinding (item : jsval) : Prop :=
  exists source title severity range sev,
    item = JObj [("source", JStr source); ("title", title);
                 ("severity", JStr severity); ("range", range)]
    /\ source <> "" /\ normalizeSeverity (JStr severity) = Ok sev.

Definition itemSource (item : jsval) : string :=
  match item with
  | JObj (("source", JStr s) :: _) => s
  | _ => ""
  end.

Definition entryItems (entry : jsval) : list jsval :=
  match entry with
  | JObj (("via", JArr items) :: _) => items
  | _ => []
  end.

Definition entrySources (entry : jsval) : list string :=
  map itemSource (entryItems entry).

(** The shape of the entries of [vulnerabilities]. *)
Definition isEntry (entry : jsval) : Prop :=
  exists items fixVersion,
    entry = JObj [("via", JArr items);
                  ("fixAvailable", JObj [("version", fixVersion)])]
    /\ Forall isFinding items.

(** The invariant of the accumulator while the callback of [name] runs:
    own names are distinct and are [name] or among [before]; every entry
    is well-shaped with distinct sources; the sources under [name] are
    among [allowed]. *)
Record Stage (name : string) (before allowed : list string)
  (acc : Accumulator) : Prop := {
  stage_nodup : NoDup (keys (own acc));
  stage_entries :
    forall k e, In (k, e) (own acc) ->
      isEntry e /\ NoDup (entrySources e)
      /\ (k = name -> incl (entrySources e) allowed);
  stage_keys : forall k, In k (keys (own acc)) -> k = name \/ In k before
}.

(** Between callbacks. *)
Definition Settled (before : list string) (acc : Accumulator) : Prop :=
  NoDup (keys (own acc))
  /\ (forall k e, In (k, e) (own acc) -> isEntry e /\ NoDup (entrySources e))
  /\ (forall k, In k (keys (own acc)) -> In k before).

(** Partial correctness with an exceptional postcondition. *)
Definition triple {S A} (P : S -> Prop) (c : St S A)
  (Q : A -> S -> Prop) (E : S -> Prop) : Prop :=
  forall s, P s ->
    match c s with
    | (Ok a, s') => Q a s'
    | (Throw _, s') => E s'
    end.

Definition pairOf (v : Vulnerability.t) : string * string :=
  (Vulnerability.package v, Vulnerability.id v).

Definition entryPairs (kv : string * jsval) : list (string * string) :=
  map (pair (fst kv)) (entrySources (snd kv)).

(** The [source] texts that [getNpmAuditFast] writes. *)
Definition qualitySource : string := "npms-quality-check".
Definition flagSource : string := "npms-vulnerability-flag".
Definition deprecatedSource (name : string) : string := "npm-deprecated-" ++ name.

End AuditVocab.

Module SortVocab.
Import JS Semver AnalyzerService.

(** [a] may stand before [b]: the comparator does not put it behind. *)
Definition notAfter (a b : OutdatedPackage.t) : Prop :=
  exists c, byCurrent a b = Ok c /\ (c <= 0)%Z.

Definition validCurrent (e : OutdatedPackage.t) : Prop :=
  valid (OutdatedPackage.current e) <> None.

End SortVocab.

Module ClockVocab.
Import JS AnalyzerService.

(** Two vulnerabilities that differ at most in their [id]. *)
Definition sameButId (a b : Vulnerability.t) : Prop :=
  Vulnerability.package a = Vulnerability.package b
  /\ Vulnerability.version a = Vulnerability.version b
  /\ Vulnerability.severity a = Vulnerability.severity b
  /\ Vulnerability.description a = Vulnerability.description b
  /\ Vulnerability.fixedIn a = Vulnerability.fixedIn b.

(** The id synthesized for [pkg] from the reading [k] of the clock. *)
Definition synthesizedId (now : Clock) (pkg : string) (k : nat) : string :=
  "vuln-" ++ pkg ++ "-" ++ Str.ofZ (now k).

Section WithRuntime.
Context {RT : Runtime}.

(** [via.source?.toString()], the empty text standing for [undefined]. *)
Definition sourceText (source : jsval) : result string :=
  if isNullish source then Ok "" else toString source.

(** [text] is what the source of an advisory item listed under the
    package [pkg] in the audit data prints to. *)
Definition advisoryText (npmAudit : jsval) (pkg text : string) : Prop :=
  exists vulns vulnInfo items via source,
    getProp npmAudit "vulnerabilities" = Ok vulns
    /\ In (pkg, vulnInfo) (ownEntries vulns)
    /\ getProp vulnInfo "via" = Ok (JArr items)
    /\ In via items
    /\ getProp via "source" = Ok source
    /\ sourceText source = Ok text.

(** The lists of vulnerabilities of two runs over the same audit data
    under the clocks [now1] and [now2], with the number of ids synthesized
    so far. The two entries at one position are made from one advisory
    item and agree in every field but the id. When the source of the item
    prints to a text that is not empty, that text is the id in both runs;
    otherwise the k-th synthesized id of each run is made from the k-th
    reading of its clock. *)
Inductive paired (npmAudit : jsval) (now1 now2 : Clock)
  : nat -> list Vulnerability.t -> list Vulnerability.t -> Prop :=
| paired_nil : paired npmAudit now1 now2 0 [] []
| paired_sourced k l1 l2 a b text :
    paired npmAudit now1 now2 k l1 l2 ->
    sameButId a b ->
    advisoryText npmAudit (Vulnerability.package a) text ->
    text <> "" ->
    Vulnerability.id a = text ->
    Vulnerability.id b = text ->
    paired npmAudit now1 now2 k (l1 ++ [a]) (l2 ++ [b])
| paired_synthesized k l1 l2 a b :
    paired npmAudit now1 now2 k l1 l2 ->
    sameButId a b ->
    advisoryText npmAudit (Vulnerability.package a) "" ->
    Vulnerability.id a = synthesizedId now1 (Vulnerability.package a) k ->
    Vulnerability.id b = synthesizedId now2 (Vulnerability.package a) k ->
    paired npmAudit now1 now2 (S k) (l1 ++ [a]) (l2 ++ [b]).

(** Two reports of runs under the clocks [now1] and [now2] that differ at
    most in synthesized ids of vulnerabilities. *)
Definition sameButIds (npmAudit : jsval) (now1 now2 : Clock)
  (r1 r2 : DependencyReport.t) : Prop :=
  DependencyReport.dependencies r1 = DependencyReport.dependencies r2
  /\ DependencyReport.devDependencies r1 = DependencyReport.devDependencies r2
  /\ DependencyReport.healthScore r1 = DependencyReport.healthScore r2
  /\ DependencyReport.outdated r1 = DependencyReport.outdated r2
  /\ DependencyReport.summary r1 = DependencyReport.summary r2
  /\ DependencyReport.totalDependencies r1 = DependencyReport.totalDependencies r2
  /\ exists k, paired npmAudit now1 now2 k
                 (DependencyReport.vulnerabilities r1)
                 (DependencyReport.vulnerabilities r2).

(** The number of times [processVulnerabilities] reads the clock. *)
Definition clockReadings (now : Clock) (npmAudit : jsval) : nat :=
  snd (snd (processVulnerabilitiesBody now npmAudit ([], 0%nat))).

End WithRuntime.

(** States of two runs under different clocks while both go on: as many
    readings taken, the entries in the relation [L] with that number, and
    the same entries as long as no reading has been taken. *)
Definition related
  (L : nat -> list Vulnerability.t -> list Vulnerability.t -> Prop)
  (s1 s2 : list Vulnerability.t * nat) : Prop :=
  snd s1 = snd s2
  /\ L (snd s1) (fst s1) (fst s2)
  /\ (snd s1 = 0%nat -> fst s1 = fst s2).

(** States of two runs after both have thrown: the last reading may have
    been taken for an entry that was not pushed. *)
Definition thrown
  (L : nat -> list Vulnerability.t -> list Vulnerability.t -> Prop)
  (s1 s2 : list Vulnerability.t * nat) : Prop :=
  snd s1 = snd s2
  /\ (exists k, L k (fst s1) (fst s2))
  /\ (snd s1 = 0%nat -> fst s1 = fst s2).

Definition simulates {A}
  (L : nat -> list Vulnerability.t -> list Vulnerability.t -> Prop)
  (c1 c2 : St (list Vulnerability.t * nat) A) : Prop :=
  forall s1 s2, related L s1 s2 ->
    match c1 s1, c2 s2 with
    | (Ok a, s1'), (Ok b, s2') => a = b /\ related L s1' s2'
    | (Throw _, s1'), (Throw _, s2') => thrown L s1' s2'
    | _, _ => False
    end.

End ClockVocab.

(* ================================================================== *)
(** * Data for the examples *)
(* ================================================================== *)

Module Examples.
Import JS AnalyzerService.

(** A runtime for running examples: exact on the integers and on their
    canonical decimal text, which is all the examples contain. *)
Definition sampleRuntime : Runtime := {|
  numberToString n :=
    match n with
    | Fin q => Str.ofZ (Qnum q / Zpos (Qden q))
    | PosInf => "Infinity"
    | NegInf => "-Infinity"
    | NaN => "NaN"
    end;
  stringToNumber s :=
    if Str.canonicalNumeric s then Fin (inject_Z (Z.of_N (Str.decimalValue s)))
    else NaN
|}.

Definition noResponse : string -> option jsval := fun _ => None.

Definition dispatchOrder : string -> nat := fun _ => 0%nat.

(** A world whose audit tool reports [vulnerabilities] and whose fetches
    all fail. *)
Definition auditWorld (vulnerabilities : jsval) : World :=
  mkWorld noResponse noResponse
          (AuditExited (Some (JObj [("vulnerabilities", vulnerabilities)])))
          dispatchOrder.

Definition emptyManifest : jsval :=
  JObj [("name", JStr "demo"); ("dependencies", JObj []);
        ("devDependencies", JObj [])].

(** An advisory without [source]. *)
Definition untitledSource : jsval :=
  JObj [("lodash",
         JObj [("via", JArr [JObj [("title", JStr "Prototype Pollution");
                                   ("severity", JStr "high")]])])].

(** An advisory with a [source]. *)
Definition sourced : jsval :=
  JObj [("lodash",
         JObj [("via", JArr [JObj [("source", JStr "GHSA-p6mc-m468-83gw");
                                   ("title", JStr "Prototype Pollution");
                                   ("severity", JStr "high")]])])].

(** The same [source] twice under one package. *)
Definition repeated : jsval :=
  JObj [("lodash",
         JObj [("via", JArr [JObj [("source", JStr "GHSA-p6mc-m468-83gw");
                                   ("title", JStr "Prototype Pollution");
                                   ("severity", JStr "high")];
                             JObj [("source", JStr "GHSA-p6mc-m468-83gw");
                                   ("title", JStr "Prototype Pollution in lodash");
                                   ("severity", JStr "high")]])])].

Definition morning : Clock := fun _ => 1700000000000%Z.
Definition evening : Clock := fun _ => 1700000040000%Z.

(** A registry that knows one package. *)
Definition reactRegistry (name : string) : option jsval :=
  if name =? "react"
  then Some (JObj [("dist-tags", JObj [("latest", JStr "19.0.0")]);
                   ("versions",
                    JObj [("18.2.0", JObj [("deprecated", JStr "use 19")])])])
  else None.

Definition reactWorld : World :=
  mkWorld reactRegistry noResponse (AuditExited None) dispatchOrder.

(** [react] with a range in each mapping. *)
Definition twoRanges : list (string * jsval) :=
  [("name", JStr "demo");
   ("dependencies", JObj [("react", JStr "^17.0.2")]);
   ("devDependencies", JObj [("react", JStr "~18.2.0")])].

(** [react] with a range that is no single version. *)
Definition openRange : jsval :=
  JObj [("dependencies", JObj [("react", JStr ">=1.0.0 <2.0.0")])].

Definition entry (package current latest : string) (type : UpdateType)
  : OutdatedPackage.t :=
  OutdatedPackage.mk package current latest type.

Definition vulnerability (id : string) (severity : Severity) : Vulnerability.t :=
  Vulnerability.mk id "lodash" (JStr "unknown") severity
                   (JStr "No description available") (JStr "Check npm registry").

Definition blankReport (outdated : list OutdatedPackage.t) : DependencyReport.t :=
  DependencyReport.mk objectEmpty objectEmpty 100 outdated
                      (Summary.mk 0 0 0 0 0 0 0) 0 [].

(** Two entries whose penalties cancel: the first has its latest version
    behind its current one by MAX_SAFE_INTEGER patches, the second is
    behind by as many. *)
Definition backAndForth : list OutdatedPackage.t :=
  [entry "left-pad" "0.0.9007199254740991" "0.0.0" UPatch;
   entry "right-pad" "0.0.0" "0.0.9007199254740991" UPatch].

(** [react] with an open range in [dependencies] and a range of one
    version in [devDependencies]. *)
Definition declaredOpen : jsval :=
  JObj [("dependencies", JObj [("react", JStr "1.x")]);
        ("devDependencies", JObj [("react", JStr "~18.2.0")])].

(** A heap with one array of two entries, the later version first. *)
Definition unsortedHeap : Heap :=
  write (fun _ => None) 0%nat
        [entry "react" "18.2.0" "19.0.0" UMajor;
         entry "lodash" "4.17.20" "4.17.21" UPatch].

End Examples.
(* ================================================================== *)
(** * Vocabulary of the proofs about the utility methods *)
(* ================================================================== *)

Module UtilVocab.
Import Str Semver SemverFunctions AnalyzerService.

(** The version [semver.clean] parses: the text without surrounding
    blanks and leading [=] and [v]. *)
Definition cleaned (s : string) : option SemVer :=
  parse (dropWhile isEqOrV (trim s)).

(** The text of an element of the [prerelease] array. *)
Definition identifierText (id : Identifier) : string :=
  match id with
  | IdNumber n => ofN n
  | IdString s => s
  end.

(** The analysis of a parsed version. *)
Definition analysisOf (v : SemVer) : VersionAnalysis.t :=
  VersionAnalysis.mk (major v) (minor v) (patch v)
    (match prerelease v with
     | [] => None
     | ids => Some (map identifierOf ids)
     end)
    (format v).

Definition plainChar (c : ascii) : bool := negb (isRangeOperator c).

End UtilVocab.

Module ArrayVocab.
(** [a] may stand before [b] under a comparator whose value on the
    domain [D] is [key]. *)
Definition inOrder {A} (D : A -> Prop) (key : A -> A -> Z) (a b : A) : Prop :=
  D a /\ D b /\ (key a b <= 0)%Z.

End ArrayVocab.

Module OrderVocab.
Import Str Semver SemverFunctions.
(** A comparator that changes sign when its arguments are swapped. *)
Definition anti {A} (c : A -> A -> Z) : Prop :=
  forall x y, c y x = (- c x y)%Z.

(** A comparator whose "not after" is transitive on a domain. *)
Definition transOn {A} (D : A -> Prop) (c : A -> A -> Z) : Prop :=
  forall x y z, D x -> D y -> D z ->
    (c x y <= 0)%Z -> (c y z <= 0)%Z -> (c x z <= 0)%Z.

(** An identifier that [compareIdentifiers] compares exactly: not
    numeric, or numeric without a superfluous zero and below 2^53. *)
Definition exactIdentifier (id : string) : bool :=
  negb (isNumeric id)
  || (canonicalNumeric id && (decimalValue id <? 2 ^ 53)%N).

Definition exactVersion (v : SemVer) : bool :=
  List.forallb exactIdentifier (prerelease v)
  && List.forallb exactIdentifier (build v).

(** A version string that parses, with exact identifiers. *)
Definition comparable (s : string) : Prop :=
  exists v, construct s = Some v /\ exactVersion v = true.

(** [compareBuild] on two parsed versions. *)
Definition buildOrder (v o : SemVer) : Z :=
  orZ (compareSemVer v o) (compareBuildSemVer v o).

(** [a] is not older than [b]. *)
Definition notOlder (a b : string) : Prop :=
  exists c, compareBuild a b = Ok c /\ (0 <= c)%Z.

Definition exactList (l : list string) : Prop :=
  List.forallb exactIdentifier l = true.

Definition exactParsed (v : SemVer) : Prop :=
  Vocab.parsed v /\ exactVersion v = true.

End OrderVocab.

Module NewestVocab.
Import Semver SemverFunctions OrderVocab.

(** A string that [new SemVer] accepts. *)
Definition accepted (s : string) : Prop := exists v, construct s = Some v.

(** The value of the comparator of [rsort] on accepted strings. *)
Definition rsortKey (a b : string) : Z :=
  match construct a, construct b with
  | Some va, Some vb => buildOrder vb va
  | _, _ => 0%Z
  end.

End NewestVocab.

Module EngineVocab.
Import JS AnalyzerService.

(** What [getOutdatedFast] has found when it records [info] under
    [name]: the effective range of [name] yields the current version,
    the registry names a latest version, and that one is greater. *)
Definition recorded (w : World) (deps : list (string * jsval))
  (name : string) (info : NpmOutdatedInfo.t) : Prop :=
  name <> "__proto__"
  /\ exists range response tags,
       In (name, range) deps
       /\ extractVersionFromRange range
          = Ok (Some (NpmOutdatedInfo.current info))
       /\ registry w name = Some response
       /\ getProp response "dist-tags" = Ok tags
       /\ getOpt tags "latest" = Ok (JStr (NpmOutdatedInfo.latest info))
       /\ Semver.gt (NpmOutdatedInfo.latest info)
                    (NpmOutdatedInfo.current info) = Ok true.

(** The same world with the fetches completing in another order. *)
Definition reordered (w : World) (completion' : string -> nat) : World :=
  mkWorld (registry w) (npms w) (audit w) completion'.

End EngineVocab.

Module FindingVocab.
Import JS AnalyzerService AuditVocab.

(** A vulnerability whose fields are filled: the id is not empty and
    the three copied fields are truthy. *)
Definition filled (v : Vulnerability.t) : Prop :=
  Vulnerability.id v <> ""
  /\ truthy (Vulnerability.version v) = true
  /\ truthy (Vulnerability.description v) = true
  /\ truthy (Vulnerability.fixedIn v) = true.

(** The invariant of [processVulnerabilities]: what has been pushed
    satisfies [P]. *)
Definition pushed (P : Vulnerability.t -> Prop)
  (st : list Vulnerability.t * nat) : Prop :=
  Forall P (fst st).

End FindingVocab.

Module RegistryVocab.
Import JS AnalyzerService AuditVocab.

(** The three kinds of items [getNpmAuditFast] writes for the package
    [name], with the severities it gives them. *)
Definition knownItem (name : string) (item : jsval) : Prop :=
  exists source title severity range,
    item = JObj [("source", JStr source); ("title", title);
                 ("severity", JStr severity); ("range", range)]
    /\ ((source = deprecatedSource name /\ severity = "moderate")
        \/ (source = qualitySource
            /\ (severity = "high" \/ severity = "moderate"))
        \/ (source = flagSource /\ severity = "high")).

(** The package [name] has been looked at: its effective range yields a
    version and the registry has answered. *)
Definition checked (w : World) (deps : list (string * jsval)) (name : string)
  : Prop :=
  exists range current response,
    In (name, range) deps
    /\ extractVersionFromRange range = Ok (Some current)
    /\ registry w name = Some response.

(** The invariant of the object [vulnerabilities] of [getNpmAuditFast]. *)
Definition Known (w : World) (deps : list (string * jsval))
  (acc : Accumulator) : Prop :=
  forall k e, In (k, e) (own acc) ->
    checked w deps k
    /\ exists items fixVersion,
         e = JObj [("via", JArr items);
                   ("fixAvailable", JObj [("version", fixVersion)])]
         /\ Forall (knownItem k) items.

(** A vulnerability of one of the three kinds. *)
Definition registryFinding (v : Vulnerability.t) : Prop :=
  (Vulnerability.id v = deprecatedSource (Vulnerability.package v)
   /\ Vulnerability.severity v = Moderate)
  \/ (Vulnerability.id v = qualitySource
      /\ (Vulnerability.severity v = High
          \/ Vulnerability.severity v = Moderate))
  \/ (Vulnerability.id v = flagSource /\ Vulnerability.severity v = High).

End RegistryVocab.

Module HttpVocab.
Import JS Http AnalyzerService.

(** [o.k] on the own properties of an object. *)
Definition member (props : list (string * jsval)) (k : string) : jsval :=
  match ownGet props k with
  | Some x => x
  | None => JUndefined
  end.

(** A body that [validatePackageJsonData] lets pass: an object with a
    truthy [dependencies] or [devDependencies]. *)
Definition declaresDependencies (body : jsval) : bool :=
  match body with
  | JObj props =>
      truthy (member props "dependencies")
      || truthy (member props "devDependencies")
  | _ => false
  end.

(** The message of the error with which [generateDependencyReport]
    answers a call without manifest. *)
Definition noManifest : string :=
  "Failed to generate dependency report: "
  ++ "Cannot read properties of undefined (reading 'dependencies')".

(** The answer of the error handler to an error whose message names
    neither package.json nor npm. *)
Definition genericFailure (h : Host.t) (text : string) : Response.t :=
  Response.mk 500
    (Json.mk false (Some "An error occurred while analyzing dependencies")
       (if Config.env (Host.NODE_ENV h) =? "development"
        then Some text else None)
       None).

(** A response that reports a failure. *)
Definition refusal (r : Response.t) : Prop :=
  (Response.status r = 400%Z \/ Response.status r = 500%Z)
  /\ Json.success (Response.json r) = false
  /\ Json.data (Response.json r) = None.

End HttpVocab.

Module CountVocab.
Import JS AnalyzerService AuditVocab.

(** The elements of the [via] array of an advisory that are objects. *)
Definition objectItems (vulnInfo : jsval) : nat :=
  match getProp vulnInfo "via" with
  | Ok (JArr items) => List.length (filter typeofObject items)
  | _ => 0%nat
  end.

Fixpoint sumOf (l : list nat) : nat :=
  match l with
  | [] => 0%nat
  | n :: r => (n + sumOf r)%nat
  end.

(** The number of such elements in the audit data. *)
Definition advisoryItems (npmAudit : jsval) : nat :=
  match getProp npmAudit "vulnerabilities" with
  | Ok vulnerabilities =>
      sumOf (map (fun kv => objectItems (snd kv)) (ownEntries vulnerabilities))
  | Throw _ => 0%nat
  end.

(** At most [n] entries have been pushed. *)
Definition atMost (n : nat) (st : list Vulnerability.t * nat) : Prop :=
  (List.length (fst st) <= n)%nat.

(** The entries of a list that belong to [package]. *)
Definition ofPackage (package : string) (l : list Vulnerability.t)
  : list Vulnerability.t :=
  filter (fun v => Vulnerability.package v =? package) l.

End CountVocab.

(* ================================================================== *)
(** * Data for the examples of the further properties *)
(* ================================================================== *)

Module Samples.
Import JS Http AnalyzerService SemverFunctions Examples.

Definition sampleAnalysis : VersionAnalysis.t :=
  VersionAnalysis.mk 1 2 3 (Some [IdString "rc"; IdNumber 1]) "1.2.3-rc.1".

Definition releases : list string :=
  ["1.0.0"; "2.1.0-beta.1"; "2.1.0"; "v2.0.0+build.7"].

(** What [reactWorld] makes of the manifest [twoRanges]. *)
Definition reactEntry : OutdatedPackage.t :=
  OutdatedPackage.mk "react" "18.2.0" "19.0.0" UMajor.

Definition reactReport : DependencyReport.t :=
  DependencyReport.mk (JObj [("react", JStr "^17.0.2")])
                      (JObj [("react", JStr "~18.2.0")])
                      95 [reactEntry] (Summary.mk 0 0 0 0 1 1 1) 2 [].

Definition reactDeprecated : Vulnerability.t :=
  Vulnerability.mk "npm-deprecated-react" "react" (JStr "~18.2.0") Moderate
                   (JStr "use 19") (JStr "19.0.0").

(** What the advisory [untitledSource] becomes in the morning. *)
Definition synthesized : Vulnerability.t :=
  Vulnerability.mk "vuln-lodash-1700000000000" "lodash" (JStr "unknown") High
                   (JStr "Prototype Pollution") (JStr "Check npm registry").

End Samples.

(* ================================================================== *)
(** * Facts about strings, decimal text and version text *)
(* ================================================================== *)

Module StrFacts.
Import Str Vocab.

Lemma forallb_app p s t :
  forallb p (s ++ t) = forallb p s && forallb p t.
Proof.
  induction s as [|a s IH]; simpl; [reflexivity|].
  rewrite IH. now rewrite andb_assoc.
Qed.

Lemma forallb_impl (p q : ascii -> bool) s :
  (forall c, p c = true -> q c = true) ->
  forallb p s = true -> forallb q s = true.
Proof.
  intros Hpq. induction s as [|a s IH]; simpl; [reflexivity|].
  intros H. apply andb_true_iff in H as [Ha Hs].
  now rewrite (Hpq _ Ha), IH.
Qed.

Lemma breakAt_spec c s :
  match breakAt c s with
  | (p, None) => s = p /\ forallb (isNot c) p = true
  | (p, Some q) => s = p ++ String c q /\ forallb (isNot c) p = true
  end.
Proof.
  induction s as [|a s IH]; simpl; [now split|].
  destruct (Ascii.eqb_spec a c) as [->|Hne].
  - now split.
  - destruct (breakAt c s) as [p [q|]]; destruct IH as [-> Hp]; simpl;
      unfold isNot at 1; (destruct (Ascii.eqb_spec a c); [contradiction|]);
      simpl; now split.
Qed.

Lemma breakAt_absent c s :
  forallb (isNot c) s = true -> breakAt c s = (s, None).
Proof.
  induction s as [|a s IH]; simpl; [reflexivity|].
  unfold isNot at 1. intros H. apply andb_true_iff in H as [Ha Hs].
  destruct (Ascii.eqb a c); [discriminate|]. now rewrite IH.
Qed.

Lemma splitOn_nonempty c s : splitOn c s <> [].
Proof.
  destruct s as [|a s]; simpl; [discriminate|].
  destruct (Ascii.eqb a c); [discriminate|].
  destruct (splitOn c s); discriminate.
Qed.

Lemma join_splitOn c s : join (String c "") (splitOn c s) = s.
Proof.
  induction s as [|a s IH]; simpl; [reflexivity|].
  destruct (Ascii.eqb_spec a c) as [->|Hne].
  - pose proof (splitOn_nonempty c s) as Hn.
    simpl. destruct (splitOn c s) as [|x r]; [contradiction|].
    simpl in *. now rewrite IH.
  - destruct (splitOn c s) as [|x r] eqn:E.
    + now destruct (splitOn_nonempty c s).
    + simpl in *. destruct r; simpl in *; now rewrite <- IH.
Qed.



Lemma forallb_splitOn p c s :
  p c = true ->
  List.forallb (forallb p) (splitOn c s) = true -> forallb p s = true.
Proof.
  intros Hc H. rewrite <- (join_splitOn c s).
  induction (splitOn c s) as [|x r IH]; [reflexivity|].
  simpl in H. apply andb_true_iff in H as [Hx Hr].
  destruct r as [|y r]; [exact Hx|].
  change (join (String c "") (x :: y :: r))
    with (x ++ String c (join (String c "") (y :: r))).
  rewrite forallb_app, Hx. cbn [forallb andb]. rewrite Hc.
  cbn [andb]. apply IH, Hr.
Qed.

Lemma trimStart_id s : forallb notSpace s = true -> trimStart s = s.
Proof.
  destruct s as [|a s]; simpl; [reflexivity|].
  unfold notSpace at 1. intros H. apply andb_true_iff in H as [Ha _].
  now destruct (isWhiteSpace a).
Qed.

Lemma trimEnd_id s : forallb notSpace s = true -> trimEnd s = s.
Proof.
  induction s as [|a s IH]; simpl; [reflexivity|].
  unfold notSpace at 1. intros H. apply andb_true_iff in H as [Ha Hs].
  rewrite IH by assumption.
  destruct s; [|reflexivity]. now destruct (isWhiteSpace a).
Qed.

Lemma trim_id s : forallb notSpace s = true -> trim s = s.
Proof.
  intros H. unfold trim. rewrite trimStart_id by assumption.
  now apply trimEnd_id.
Qed.

Lemma length_trimStart s : (String.length (trimStart s) <= String.length s)%nat.
Proof.
  induction s as [|a s IH]; simpl; [lia|].
  destruct (isWhiteSpace a); simpl; lia.
Qed.

Lemma length_trimEnd s : (String.length (trimEnd s) <= String.length s)%nat.
Proof.
  induction s as [|a s IH]; simpl; [lia|].
  destruct (trimEnd s); [destruct (isWhiteSpace a)|]; simpl in *; lia.
Qed.

Lemma length_trim s : (String.length (trim s) <= String.length s)%nat.
Proof.
  unfold trim. pose proof (length_trimEnd (trimStart s)).
  pose proof (length_trimStart s). lia.
Qed.

Lemma length_app s t :
  String.length (s ++ t) = (String.length s + String.length t)%nat.
Proof. induction s; simpl; [reflexivity|now rewrite IHs]. Qed.

End StrFacts.

Module DecimalText.
Import Str Vocab StrFacts.

Lemma isDigit_cases c :
  isDigit c = true ->
  exists d, forall u, uint_of_char c (Some u) = Some (d u) /\
                      NilEmpty.string_of_uint (d u)
                      = String c (NilEmpty.string_of_uint u).
Proof.
  destruct c as [[|] [|] [|] [|] [|] [|] [|] [|]]; vm_compute;
    try discriminate; intros _;
    first [ exists D0; now split | exists D1; now split | exists D2; now split
          | exists D3; now split | exists D4; now split | exists D5; now split
          | exists D6; now split | exists D7; now split | exists D8; now split
          | exists D9; now split ].
Qed.

Lemma digits_uint s :
  forallb isDigit s = true ->
  exists u, NilEmpty.uint_of_string s = Some u.
Proof.
  induction s as [|c s IH]; simpl; [now exists Nil|].
  intros H. apply andb_true_iff in H as [Hc Hs].
  destruct (IH Hs) as [u ->].
  destruct (isDigit_cases c Hc) as [d Hd].
  exists (d u). apply Hd.
Qed.

Lemma canonical_digits a :
  canonicalNumeric a = true -> forallb isDigit a = true.
Proof.
  destruct a as [|c r]; simpl; [discriminate|].
  destruct (Ascii.eqb_spec c "0") as [->|_].
  - intros H. apply String.eqb_eq in H. now subst.
  - trivial.
Qed.


Lemma canonical_unorm a u :
  canonicalNumeric a = true ->
  NilEmpty.uint_of_string a = Some u -> unorm u = u /\ u <> Nil.
Proof.
  destruct a as [|c r]; simpl; [discriminate|].
  destruct (Ascii.eqb_spec c "0") as [->|Hc].
  - intros H. apply String.eqb_eq in H. subst. simpl.
    intros [= <-]. now split.
  - intros H. apply andb_true_iff in H as [Hd Hr].
    destruct (NilEmpty.uint_of_string r) as [u'|]; [|discriminate].
    intros Hu. apply uint_of_char_spec in Hu.
    destruct Hu as [[-> _]|Hu]; [contradiction|].
    repeat (destruct Hu as [[_ ->]|Hu]; [now split|]).
    destruct Hu as [_ ->]. now split.
Qed.

Lemma canonical_roundtrip a :
  canonicalNumeric a = true -> ofN (decimalValue a) = a.
Proof.
  intros Ha. destruct (digits_uint a (canonical_digits a Ha)) as [u Hu].
  destruct (canonical_unorm a u Ha Hu) as [Hn Hnil].
  unfold ofN, decimalValue. rewrite Hu.
  rewrite DecimalN.Unsigned.to_of, Hn.
  unfold NilZero.string_of_uint.
  destruct u; [contradiction| | | | | | | | | |];
    now apply NilEmpty.sus.
Qed.

Lemma to_uint_nonnil n : N.to_uint n <> Nil.
Proof.
  destruct n; simpl; [discriminate|].
  apply DecimalPos.Unsigned.to_uint_nonnil.
Qed.



End DecimalText.

Module SemverFacts.
Import Str Vocab StrFacts DecimalText Semver.

Ltac by_cases c :=
  destruct c as [[|] [|] [|] [|] [|] [|] [|] [|]]; vm_compute;
  try reflexivity; try discriminate; auto.

Lemma digit_ldn c : isDigit c = true -> isLetterDashNumber c = true.
Proof. by_cases c. Qed.
Lemma ldn_body c : isLetterDashNumber c = true -> bodyChar c = true.
Proof. by_cases c. Qed.
Lemma digit_body c : isDigit c = true -> bodyChar c = true.
Proof. by_cases c. Qed.
Lemma body_version c : bodyChar c = true -> versionChar c = true.
Proof. by_cases c. Qed.
Lemma ldn_version c : isLetterDashNumber c = true -> versionChar c = true.
Proof. by_cases c. Qed.
Lemma body_not_plus c : bodyChar c = true -> isNot "+" c = true.
Proof. by_cases c. Qed.
Lemma version_notSpace c : versionChar c = true -> notSpace c = true.
Proof. by_cases c. Qed.
Lemma digit_not_v c : isDigit c = true -> isEqOrV c = false.
Proof. by_cases c. Qed.

Lemma dropV_spec t : dropV t = t \/ t = String "v" (dropV t).
Proof.
  destruct t as [|c r]; [now left|].
  destruct c as [[|] [|] [|] [|] [|] [|] [|] [|]]; simpl; auto.
Qed.

Lemma dropV_digit d r : isDigit d = true -> dropV (String d r) = String d r.
Proof. by_cases d. Qed.

Lemma component_inv a n :
  component a = Some n ->
  canonicalNumeric a = true /\ decimalValue a = n
  /\ (n <= MAX_SAFE_INTEGER)%N.
Proof.
  unfold component, numericIdentifier.
  destruct (canonicalNumeric a); [|discriminate].
  destruct (N.ltb_spec MAX_SAFE_INTEGER (decimalValue a)); [discriminate|].
  intros [= <-]. auto.
Qed.


Lemma component_text a n : component a = Some n -> ofN n = a.
Proof.
  intros H. apply component_inv in H as (Hc & <- & _).
  now apply canonical_roundtrip.
Qed.

Lemma component_digits a n :
  component a = Some n -> forallb isDigit a = true.
Proof.
  intros H. apply component_inv in H as (Hc & _ & _).
  now apply canonical_digits.
Qed.

Lemma prerelease_ldn s :
  prereleaseIdentifier s = true -> forallb isLetterDashNumber s = true.
Proof.
  unfold prereleaseIdentifier, numericIdentifier, nonNumericIdentifier.
  intros H. apply orb_true_iff in H as [H|H].
  - apply canonical_digits in H.
    revert H. apply forallb_impl, digit_ldn.
  - now apply andb_true_iff in H as [H _].
Qed.

Lemma build_ldn s :
  buildIdentifier s = true -> forallb isLetterDashNumber s = true.
Proof.
  unfold buildIdentifier. intros H. now apply andb_true_iff in H as [_ H].
Qed.

Lemma forallb_forallb_impl (p : string -> bool) (q : ascii -> bool) l :
  (forall s, p s = true -> forallb q s = true) ->
  List.forallb p l = true -> List.forallb (forallb q) l = true.
Proof.
  intros Hpq. induction l as [|x r IH]; simpl; [reflexivity|].
  intros H. apply andb_true_iff in H as [Hx Hr].
  now rewrite (Hpq _ Hx), IH.
Qed.

Lemma matchPlain_inv t v : matchPlain t = Some v -> Matched t v.
Proof.
  unfold matchPlain.
  destruct (breakAt "+" t) as [body buildPart] eqn:Hplus.
  destruct (breakAt "-" body) as [main prePart] eqn:Hdash.
  destruct (splitOn "." main) as [|a [|b [|c [|? ?]]]] eqn:Hsplit;
    try discriminate.
  destruct (component a) eqn:Ha; [|discriminate].
  destruct (component b) eqn:Hb; [|discriminate].
  destruct (component c) eqn:Hc; [|discriminate].
  destruct (identifiers prereleaseIdentifier prePart) eqn:Hp; [|discriminate].
  destruct (identifiers buildIdentifier buildPart) eqn:Hbd; [|discriminate].
  intros [= <-]. econstructor; eauto.
Qed.

Lemma identifiers_inv ok part ids :
  identifiers ok part = Some ids ->
  match part with
  | None => ids = []
  | Some text => ids = splitOn "." text /\ List.forallb ok ids = true
  end.
Proof.
  unfold identifiers. destruct part as [text|]; [|now intros [= <-]].
  destruct (List.forallb ok (splitOn "." text)) eqn:E; [|discriminate].
  now intros [= <-].
Qed.

Ltac open_match M :=
  destruct M as [body main pre bld a b c
                 Hplus Hdash Hsplit Hma Hmi Hpa Hpre Hbld];
  cbn [m_body m_main m_pre m_build m_a m_b m_c].

Lemma append_assoc (a b c : string) : (a ++ b) ++ c = a ++ b ++ c.
Proof. induction a; simpl; congruence. Qed.

Lemma append_empty (a : string) : a ++ "" = a.
Proof. induction a; simpl; congruence. Qed.

Lemma format_main v :
  format v
  = (ofN (major v) ++ "." ++ ofN (minor v) ++ "." ++ ofN (patch v))
    ++ preText v.
Proof.
  unfold format, preText. now rewrite !append_assoc.
Qed.

Lemma main_text t v (M : Matched t v) :
  m_main _ _ M = ofN (major v) ++ "." ++ ofN (minor v) ++ "." ++ ofN (patch v).
Proof.
  open_match M.
  rewrite <- (join_splitOn "." main), Hsplit.
  rewrite (component_text _ _ Hma), (component_text _ _ Hmi),
          (component_text _ _ Hpa).
  reflexivity.
Qed.

Lemma body_text t v (M : Matched t v) : m_body _ _ M = format v.
Proof.
  rewrite format_main. unfold preText. rewrite <- (main_text t v M).
  open_match M.
  pose proof (breakAt_spec "-" body) as Hd. rewrite Hdash in Hd.
  pose proof (identifiers_inv _ _ _ Hpre) as Hp.
  destruct pre as [text|].
  - destruct Hd as [-> _]. destruct Hp as [Hp _].
    pose proof (splitOn_nonempty "." text) as Hne.
    rewrite Hp. destruct (splitOn "." text) eqn:E; [contradiction|].
    rewrite <- E, join_splitOn. reflexivity.
  - destruct Hd as [-> _]. rewrite Hp. now rewrite append_empty.
Qed.

Lemma main_chars t v (M : Matched t v) :
  forallb bodyChar (m_main _ _ M) = true.
Proof.
  open_match M.
  apply (forallb_splitOn bodyChar "."); [reflexivity|].
  rewrite Hsplit. simpl.
  rewrite (forallb_impl _ _ _ digit_body (component_digits _ _ Hma)),
          (forallb_impl _ _ _ digit_body (component_digits _ _ Hmi)),
          (forallb_impl _ _ _ digit_body (component_digits _ _ Hpa)).
  reflexivity.
Qed.

Lemma body_chars t v (M : Matched t v) :
  forallb bodyChar (m_body _ _ M) = true.
Proof.
  pose proof (main_chars t v M) as Hm. revert Hm.
  open_match M. intros Hm.
  pose proof (breakAt_spec "-" body) as Hd. rewrite Hdash in Hd.
  pose proof (identifiers_inv _ _ _ Hpre) as Hp.
  destruct pre as [text|]; destruct Hd as [-> _]; [|exact Hm].
  rewrite forallb_app, Hm. simpl.
  apply (forallb_splitOn bodyChar "."); [reflexivity|].
  destruct Hp as [<- Hok].
  revert Hok. apply forallb_forallb_impl.
  intros s Hs. apply prerelease_ldn in Hs.
  revert Hs. apply forallb_impl, ldn_body.
Qed.

Lemma text_chars t v (M : Matched t v) : forallb versionChar t = true.
Proof.
  pose proof (forallb_impl _ _ _ body_version (body_chars t v M)) as Hb.
  revert Hb. open_match M. intros Hb.
  pose proof (breakAt_spec "+" t) as Hd. rewrite Hplus in Hd.
  pose proof (identifiers_inv _ _ _ Hbld) as Hp.
  destruct bld as [text|]; destruct Hd as [-> _]; [|exact Hb].
  rewrite forallb_app, Hb. simpl.
  apply (forallb_splitOn versionChar "."); [reflexivity|].
  destruct Hp as [<- Hok].
  revert Hok. apply forallb_forallb_impl.
  intros s Hs. apply build_ldn in Hs.
  revert Hs. apply forallb_impl, ldn_version.
Qed.

Lemma body_head t v (M : Matched t v) :
  exists d r, m_body _ _ M = String d r /\ isDigit d = true.
Proof.
  rewrite (body_text t v M). unfold format.
  open_match M.
  pose proof (component_text _ _ Hma) as Ha.
  pose proof (component_inv _ _ Hma) as (Hc & _ & _).
  rewrite Ha. destruct a as [|d r]; [discriminate|].
  simpl. exists d. eexists. split; [reflexivity|].
  simpl in Hc. destruct (Ascii.eqb_spec d "0") as [->|_]; [reflexivity|].
  now apply andb_true_iff in Hc as [Hc _].
Qed.

Lemma text_head t v (M : Matched t v) :
  exists d r, t = String d r /\ isDigit d = true.
Proof.
  destruct (body_head t v M) as (d & r & Hb & Hd). revert Hb.
  open_match M. intros Hb.
  pose proof (breakAt_spec "+" t) as Hp.
  rewrite Hplus, Hb in Hp.
  destruct bld; destruct Hp as [-> _]; simpl; eauto.
Qed.

Lemma body_length t v (M : Matched t v) :
  (String.length (format v) <= String.length t)%nat.
Proof.
  rewrite <- (body_text t v M).
  open_match M.
  pose proof (breakAt_spec "+" t) as Hp. rewrite Hplus in Hp.
  destruct bld; destruct Hp as [-> _];
    rewrite ?length_app; simpl; lia.
Qed.

Lemma matchPlain_format t v :
  matchPlain t = Some v -> matchPlain (format v) = Some (release v).
Proof.
  intros H. pose proof (matchPlain_inv t v H) as M.
  unfold matchPlain.
  rewrite <- (body_text t v M).
  rewrite breakAt_absent
    by (apply (forallb_impl _ _ _ body_not_plus), (body_chars t v M)).
  open_match M.
  now rewrite Hdash, Hsplit, Hma, Hmi, Hpa, Hpre.
Qed.

Lemma construct_inv s v :
  construct s = Some v ->
  (String.length s <= MAX_LENGTH)%nat /\ matchPlain (dropV (trim s)) = Some v.
Proof.
  unfold construct, matchFull.
  destruct (Nat.ltb_spec MAX_LENGTH (String.length s)); [discriminate|].
  auto.
Qed.

Lemma construct_plain t v :
  (String.length t <= MAX_LENGTH)%nat ->
  matchPlain t = Some v -> construct t = Some v.
Proof.
  intros Hl H. pose proof (matchPlain_inv t v H) as M.
  unfold construct, matchFull.
  destruct (Nat.ltb_spec MAX_LENGTH (String.length t)); [lia|].
  rewrite trim_id
    by (apply (forallb_impl _ _ _ version_notSpace), (text_chars t v M)).
  destruct (text_head t v M) as (d & r & -> & Hd).
  now rewrite dropV_digit.
Qed.

Lemma length_dropV t : (String.length (dropV t) <= String.length t)%nat.
Proof.
  destruct (dropV_spec t) as [->|E]; [lia|].
  rewrite E at 2. simpl. lia.
Qed.

(** A version prints to a text that parses back to it, build metadata
    apart. *)
Lemma construct_format s v :
  construct s = Some v -> construct (format v) = Some (release v).
Proof.
  intros H. apply construct_inv in H as [Hl H].
  pose proof (matchPlain_inv _ _ H) as M.
  apply construct_plain; [|now apply matchPlain_format with (t := dropV (trim s))].
  pose proof (body_length _ _ M). pose proof (length_dropV (trim s)).
  pose proof (length_trim s). lia.
Qed.

Lemma dropWhile_trimmed s v :
  matchPlain (dropV (trim s)) = Some v ->
  dropWhile isEqOrV (trim s) = dropV (trim s).
Proof.
  intros H. pose proof (matchPlain_inv _ _ H) as M.
  destruct (text_head _ _ M) as (d & r & E & Hd).
  destruct (dropV_spec (trim s)) as [E'|E'].
  - rewrite E' in *. rewrite E. simpl. now rewrite (digit_not_v d Hd).
  - rewrite E' at 1. rewrite E. simpl. now rewrite (digit_not_v d Hd).
Qed.

Lemma clean_construct s v :
  construct s = Some v -> clean s = Some (format v).
Proof.
  intros H. apply construct_inv in H as [Hl H].
  unfold clean, parse. rewrite (dropWhile_trimmed s v H).
  rewrite (construct_plain _ v); [reflexivity| |exact H].
  pose proof (length_dropV (trim s)). pose proof (length_trim s). lia.
Qed.


End SemverFacts.

Module DiffFacts.
Import Str Vocab StrFacts DecimalText Semver SemverFacts AnalyzerService.


Lemma format_inj s1 s2 v1 v2 :
  construct s1 = Some v1 -> construct s2 = Some v2 ->
  format v1 = format v2 -> release v1 = release v2.
Proof.
  intros H1 H2 E.
  apply construct_format in H1. apply construct_format in H2.
  rewrite E in H1. congruence.
Qed.

Lemma signOf_antisym (a b : N) :
  signOf (b ?= a)%N = (- signOf (a ?= b)%N)%Z.
Proof. rewrite (N.compare_antisym a b). now destruct (a ?= b)%N. Qed.


Lemma compareMain_antisym v o : compareMain o v = (- compareMain v o)%Z.
Proof.
  unfold compareMain, orZ.
  rewrite (signOf_antisym (major v) (major o)),
          (signOf_antisym (minor v) (minor o)),
          (signOf_antisym (patch v) (patch o)).
  destruct (major v ?= major o)%N, (minor v ?= minor o)%N,
           (patch v ?= patch o)%N; reflexivity.
Qed.

Lemma compareMain_zero v o :
  compareMain v o = 0%Z <->
  major v = major o /\ minor v = minor o /\ patch v = patch o.
Proof.
  unfold compareMain, orZ.
  destruct (N.compare_spec (major v) (major o));
    destruct (N.compare_spec (minor v) (minor o));
    destruct (N.compare_spec (patch v) (patch o)); simpl;
    split; intros; try lia; try discriminate; intuition lia.
Qed.

Lemma diffSemVer_release v1 v2 :
  diffSemVer (release v1) (release v2) = diffSemVer v1 v2.
Proof.
  unfold diffSemVer.
  change (compareSemVer (release v1) (release v2)) with (compareSemVer v1 v2).
  destruct (compareSemVer v1 v2 =? 0)%Z; [reflexivity|].
  destruct (0 <? compareSemVer v1 v2)%Z; reflexivity.
Qed.

Lemma determineUpdateType_parsed c l vc vl :
  construct c = Some vc -> construct l = Some vl ->
  determineUpdateType c l = updateOf (diffSemVer vc vl).
Proof.
  intros Hc Hl. unfold determineUpdateType.
  rewrite (clean_construct c vc Hc), (clean_construct l vl Hl).
  unfold diff, constructOrThrow.
  rewrite (construct_format c vc Hc), (construct_format l vl Hl).
  simpl.
  rewrite diffSemVer_release.
  now destruct (diffSemVer vc vl) as [[]|].
Qed.

Lemma general_update (pre : bool) v1 v2 :
  updateOf
    (Some (if negb (major v1 =? major v2)%N then withPre pre Major Premajor
           else if negb (minor v1 =? minor v2)%N then withPre pre Minor Preminor
           else if negb (patch v1 =? patch v2)%N then withPre pre Patch Prepatch
           else Prerelease))
  = Spec.classifyBump v1 v2.
Proof.
  unfold Spec.classifyBump.
  destruct (major v1 =? major v2)%N, (minor v1 =? minor v2)%N,
           (patch v1 =? patch v2)%N, pre; reflexivity.
Qed.

Lemma compare_zero_main v1 v2 :
  parsed v1 -> parsed v2 ->
  compareSemVer v1 v2 = 0%Z -> compareMain v1 v2 = 0%Z.
Proof.
  intros [s1 H1] [s2 H2]. unfold compareSemVer.
  destruct (String.eqb_spec (format v2) (format v1)) as [E|_].
  - intros _. symmetry in E.
    pose proof (format_inj _ _ _ _ H1 H2 E) as R.
    apply compareMain_zero. unfold release in R. now injection R.
  - unfold orZ. destruct (Z.eqb_spec (compareMain v1 v2) 0); [trivial|].
    intros; contradiction.
Qed.

Lemma hasPre_release_eq s1 s2 v1 v2 :
  construct s1 = Some v1 -> construct s2 = Some v2 ->
  format v1 = format v2 -> hasPre v1 = hasPre v2.
Proof.
  intros H1 H2 E. pose proof (format_inj _ _ _ _ H1 H2 E) as R.
  unfold release in R. unfold hasPre. injection R as _ _ _ ->. reflexivity.
Qed.

(** Outside the pre-release-to-release case the classification is the
    first differing component. *)
Lemma diff_first_difference v1 v2 :
  parsed v1 -> parsed v2 ->
  Spec.prereleaseToRelease v1 v2 = false ->
  updateOf (diffSemVer v1 v2) = Spec.classifyBump v1 v2.
Proof.
  intros P1 P2 Hn. unfold diffSemVer.
  destruct (Z.eqb_spec (compareSemVer v1 v2) 0) as [E|E].
  - apply (compare_zero_main _ _ P1 P2), compareMain_zero in E
      as (Ema & Emi & Epa).
    unfold Spec.classifyBump. rewrite Ema, Emi, !N.eqb_refl. reflexivity.
  - assert (Hmain : (0 < compareSemVer v1 v2 -> 0 <= compareMain v1 v2)%Z
                    /\ (compareSemVer v1 v2 < 0 -> compareMain v1 v2 <= 0)%Z).
    { unfold compareSemVer, orZ in *.
      destruct (format v2 =? format v1); [lia|].
      destruct (Z.eqb_spec (compareMain v1 v2) 0); lia. }
    destruct Hmain as [Hhi Hlo].
    unfold Spec.prereleaseToRelease in Hn.
    rewrite (compareMain_antisym v1 v2) in Hn.
    destruct (Z.ltb_spec 0 (compareSemVer v1 v2)) as [Hpos|Hneg].
    + destruct (hasPre v2), (hasPre v1); cbn [andb negb orb] in *;
        try apply general_update.
      specialize (Hhi Hpos).
      destruct (Z.leb_spec (- compareMain v1 v2) 0); [discriminate|lia].
    + destruct (hasPre v1), (hasPre v2); cbn [andb negb orb] in *;
        try apply general_update.
      assert (compareSemVer v1 v2 < 0)%Z by lia.
      specialize (Hlo H).
      destruct (Z.leb_spec (compareMain v1 v2) 0); [discriminate|lia].
Qed.

(** The result of [diff] on a pre-release followed by a release. *)
Lemma diff_prerelease v1 v2 :
  parsed v1 -> parsed v2 ->
  Spec.prereleaseToRelease v1 v2 = true ->
  let low := Spec.tagged v1 v2 in
  updateOf (diffSemVer v1 v2)
  = if (minor low =? 0)%N && (patch low =? 0)%N then UMajor
    else if (compareMain v1 v2 =? 0)%Z
         then if negb (minor low =? 0)%N && (patch low =? 0)%N
              then UMinor else UPatch
         else Spec.classifyBump v1 v2.
Proof.
  intros [s1 H1] [s2 H2] Hp low. subst low.
  unfold Spec.prereleaseToRelease, Spec.tagged in *.
  unfold diffSemVer, compareSemVer, comparePre.
  destruct (String.eqb_spec (format v2) (format v1)) as [E|_].
  { pose proof (hasPre_release_eq _ _ _ _ H2 H1 E) as Hh.
    rewrite Hh in Hp. destruct (hasPre v1); discriminate. }
  rewrite (compareMain_antisym v1 v2) in Hp.
  unfold orZ.
  destruct (hasPre v1) eqn:P1, (hasPre v2) eqn:P2;
    cbn [andb negb orb] in *; try discriminate.
  - rewrite orb_false_r in Hp. apply Z.leb_le in Hp.
    destruct (Z.eqb_spec (compareMain v1 v2) 0) as [E|E]; cbn.
    + rewrite P1, P2, E. cbn.
      destruct (minor v1 =? 0)%N, (patch v1 =? 0)%N; reflexivity.
    + destruct (Z.eqb_spec (compareMain v1 v2) 0); [contradiction|].
      destruct (Z.ltb_spec 0 (compareMain v1 v2)); [lia|].
      rewrite P1, P2. cbn.
      destruct (Z.eqb_spec (compareMain v1 v2) 0); [contradiction|].
      destruct (minor v1 =? 0)%N, (patch v1 =? 0)%N; cbn;
        try reflexivity; apply (general_update false).
  - apply Z.leb_le in Hp.
    destruct (Z.eqb_spec (compareMain v1 v2) 0) as [E|E]; cbn.
    + rewrite P1, P2. cbn. rewrite (compareMain_antisym v1 v2), E. cbn.
      destruct (minor v2 =? 0)%N, (patch v2 =? 0)%N; reflexivity.
    + destruct (Z.eqb_spec (compareMain v1 v2) 0); [contradiction|].
      destruct (Z.ltb_spec 0 (compareMain v1 v2)); [|lia].
      rewrite P1, P2. cbn. rewrite (compareMain_antisym v1 v2).
      destruct (Z.eqb_spec (- compareMain v1 v2) 0); [lia|].
      destruct (minor v2 =? 0)%N, (patch v2 =? 0)%N; cbn;
        try reflexivity; apply (general_update false).
Qed.

Lemma classifyBump_same_main v1 v2 :
  compareMain v1 v2 = 0%Z -> Spec.classifyBump v1 v2 = UPatch.
Proof.
  intros E. apply compareMain_zero in E as (Ema & Emi & _).
  unfold Spec.classifyBump. now rewrite Ema, Emi, !N.eqb_refl.
Qed.

(** The classification on every pair of parsed versions. *)
Lemma diff_classification v1 v2 :
  parsed v1 -> parsed v2 ->
  updateOf (diffSemVer v1 v2)
  = if Spec.beforeMajor v1 v2 then UMajor
    else if Spec.beforeMinor v1 v2 then UMinor
    else Spec.classifyBump v1 v2.
Proof.
  intros P1 P2. unfold Spec.beforeMajor, Spec.beforeMinor.
  destruct (Spec.prereleaseToRelease v1 v2) eqn:Hp; cbn [andb].
  - rewrite (diff_prerelease v1 v2 P1 P2 Hp). cbv zeta.
    destruct (minor (Spec.tagged v1 v2) =? 0)%N,
             (patch (Spec.tagged v1 v2) =? 0)%N; cbn [andb negb];
      try reflexivity;
      destruct (Z.eqb_spec (compareMain v1 v2) 0) as [E|E]; cbn [andb];
      try reflexivity; now rewrite classifyBump_same_main.
  - now apply diff_first_difference.
Qed.

(** The pairs on which the classification is not the first differing
    component. *)
Lemma diff_departs v1 v2 :
  parsed v1 -> parsed v2 ->
  updateOf (diffSemVer v1 v2) <> Spec.classifyBump v1 v2
  <-> (Spec.beforeMajor v1 v2 = true /\ major v1 = major v2)
      \/ Spec.beforeMinor v1 v2 = true.
Proof.
  intros P1 P2. rewrite (diff_classification v1 v2 P1 P2).
  destruct (Spec.beforeMajor v1 v2) eqn:A.
  - unfold Spec.classifyBump.
    destruct (N.eqb_spec (major v1) (major v2)) as [E|E]; cbn [negb].
    + split; [auto|]. intros _. destruct (negb _); discriminate.
    + split; [congruence|]. intros [[_ H]|H]; [contradiction|].
      unfold Spec.beforeMinor in H.
      apply andb_true_iff in H as [H _]. apply andb_true_iff in H as [H _].
      apply andb_true_iff in H as [_ H]. apply Z.eqb_eq, compareMain_zero in H.
      tauto.
  - destruct (Spec.beforeMinor v1 v2) eqn:B.
    + split; [auto|]. intros _.
      unfold Spec.beforeMinor in B.
      apply andb_true_iff in B as [B _]. apply andb_true_iff in B as [B _].
      apply andb_true_iff in B as [_ B]. apply Z.eqb_eq in B.
      rewrite (classifyBump_same_main _ _ B). discriminate.
    + split; [congruence|]. intros [[H _]|H]; discriminate.
Qed.

End DiffFacts.

(* ================================================================== *)
(** * Facts about the arithmetic of doubles *)
(* ================================================================== *)

Module NumberFacts.
Import Str Vocab StrFacts DecimalText Semver SemverFacts.

(** The parts of a number above the safe range. *)
Lemma toDouble_parts n :
  (2 ^ 53 <= n)%N ->
  let k := (N.log2 n - 52)%N in
  let q := (n / 2 ^ k)%N in
  (1 <= k)%N /\ (N.log2 n = k + 52)%N
  /\ (2 ^ 52 <= q < 2 ^ 53)%N
  /\ (q * 2 ^ k <= n < (q + 1) * 2 ^ k)%N
  /\ (q * 2 ^ k <= toDouble n <= (q + 1) * 2 ^ k)%N
  /\ (toDouble n
      = (if ((2 ^ (k - 1) <? n mod 2 ^ k) || ((n mod 2 ^ k =? 2 ^ (k - 1)) && N.odd q))%N
         then q + 1 else q) * 2 ^ k)%N.
Proof.
  intros H k q.
  assert (Hpos : (0 < n)%N) by (assert (0 < 2 ^ 53)%N by reflexivity; lia).
  pose proof (N.log2_spec n Hpos) as [Hlo Hhi].
  assert (HL : (53 <= N.log2 n)%N).
  { apply N.log2_le_pow2; assumption. }
  assert (Hk : (N.log2 n = k + 52)%N) by (unfold k; lia).
  assert (P0 : (2 ^ k <> 0)%N) by (apply N.pow_nonzero; discriminate).
  assert (Hq : (q * 2 ^ k <= n < (q + 1) * 2 ^ k)%N).
  { unfold q. pose proof (N.Div0.div_mod n (2 ^ k)) as D.
    pose proof (N.mod_upper_bound n (2 ^ k) P0) as M.
    rewrite (N.mul_comm (2 ^ k)) in D.
    rewrite N.mul_add_distr_r, N.mul_1_l.
    remember (n / 2 ^ k * 2 ^ k)%N as a. remember (n mod 2 ^ k)%N as b.
    remember (2 ^ k)%N as c. lia. }
  assert (Hq2 : (2 ^ 52 <= q < 2 ^ 53)%N).
  { rewrite Hk in Hlo, Hhi.
    replace (N.succ (k + 52)) with (53 + k)%N in Hhi by lia.
    rewrite N.add_comm, N.pow_add_r in Hlo. rewrite N.pow_add_r in Hhi.
    split.
    - unfold q. apply N.div_le_lower_bound; [lia|]. lia.
    - unfold q. apply N.Div0.div_lt_upper_bound. lia. }
  assert (E : toDouble n
      = ((if ((2 ^ (k - 1) <? n mod 2 ^ k) || ((n mod 2 ^ k =? 2 ^ (k - 1)) && N.odd q))%N
         then q + 1 else q) * 2 ^ k)%N).
  { unfold toDouble. apply N.ltb_ge in H. rewrite H. fold k.
    rewrite N.shiftr_div_pow2, N.land_ones, !N.shiftl_mul_pow2, N.mul_1_l.
    fold q. reflexivity. }
  assert (B : (q * 2 ^ k <= toDouble n <= (q + 1) * 2 ^ k)%N).
  { rewrite E. destruct (_ || _); [|lia].
    split; [|lia]. apply N.mul_le_mono_r. lia. }
  assert (K1 : (1 <= k)%N) by lia.
  exact (conj K1 (conj Hk (conj Hq2 (conj Hq (conj B E))))).
Qed.

Lemma toDouble_small n : (n < 2 ^ 53)%N -> toDouble n = n.
Proof. intros H. unfold toDouble. apply N.ltb_lt in H. now rewrite H. Qed.

Lemma toDouble_mono n m : (n <= m)%N -> (toDouble n <= toDouble m)%N.
Proof.
  intros H.
  destruct (N.lt_ge_cases m (2 ^ 53)) as [Hm|Hm].
  - rewrite !toDouble_small by lia. exact H.
  - destruct (toDouble_parts m Hm) as (Hk & HL & Hq & Hn & Hd & E).
    set (k := (N.log2 m - 52)%N) in *. set (q := (m / 2 ^ k)%N) in *.
    assert (P : (2 <= 2 ^ k)%N).
    { change 2%N with (2 ^ 1)%N at 1. apply N.pow_le_mono_r; lia. }
    destruct (N.lt_ge_cases n (2 ^ 53)) as [Hn'|Hn'].
    + rewrite (toDouble_small n Hn'). nia.
    + destruct (toDouble_parts n Hn') as (Hk' & HL' & Hq' & Hn2 & Hd' & E').
      set (k' := (N.log2 n - 52)%N) in *. set (q' := (n / 2 ^ k')%N) in *.
      assert (Hkk : (k' <= k)%N).
      { pose proof (N.log2_le_mono n m H). lia. }
      destruct (N.eq_dec k' k) as [Ek|Nk].
      * rewrite Ek in *.
        assert (Hqq : (q' <= q)%N).
        { unfold q', q. rewrite Ek. apply N.Div0.div_le_mono. exact H. }
        destruct (N.eq_dec q' q) as [Eq|Nq].
        -- rewrite E, E'. rewrite Eq.
           assert (R : (n mod 2 ^ k <= m mod 2 ^ k)%N).
           { pose proof (N.Div0.div_mod n (2 ^ k)) as D1.
             pose proof (N.Div0.div_mod m (2 ^ k)) as D2.
             fold q in D2. unfold q' in Eq. rewrite Ek in Eq.
             rewrite Eq in D1. fold q in D1. nia. }
           assert (U : ((2 ^ (k - 1) <? n mod 2 ^ k)
                        || ((n mod 2 ^ k =? 2 ^ (k - 1)) && N.odd q))%N = true ->
                       ((2 ^ (k - 1) <? m mod 2 ^ k)
                        || ((m mod 2 ^ k =? 2 ^ (k - 1)) && N.odd q))%N = true).
           { revert R. generalize (n mod 2 ^ k)%N (m mod 2 ^ k)%N (2 ^ (k - 1))%N.
             intros a b h R.
             destruct (N.ltb_spec h a), (N.ltb_spec h b),
               (N.eqb_spec a h), (N.eqb_spec b h), (N.odd q);
               cbn; try reflexivity; try discriminate; intros _; lia. }
           destruct ((2 ^ (k - 1) <? n mod 2 ^ k)
                        || ((n mod 2 ^ k =? 2 ^ (k - 1)) && N.odd q))%N.
           ++ rewrite (U eq_refl). lia.
           ++ destruct (_ || _); [|lia]. apply N.mul_le_mono_r. lia.
        -- assert ((q' + 1) * 2 ^ k <= q * 2 ^ k)%N by nia. lia.
      * assert (Hp : (2 ^ (53 + k') <= 2 ^ (k + 52))%N).
        { apply N.pow_le_mono_r; lia. }
        rewrite !N.pow_add_r in Hp.
        assert ((q' + 1) * 2 ^ k' <= 2 ^ 53 * 2 ^ k')%N by nia.
        assert (2 ^ k * 2 ^ 52 <= q * 2 ^ k)%N by nia.
        lia.
Qed.


Lemma nearest_small z : (Z.abs z < 2 ^ 53)%Z -> Number.nearest z = z.
Proof.
  intros H. destruct z as [|p|p]; cbn [Number.nearest]; [reflexivity| |].
  - rewrite toDouble_small; [reflexivity|].
    apply N2Z.inj_lt. rewrite N2Z.inj_pow. exact H.
  - rewrite toDouble_small; [reflexivity|].
    apply N2Z.inj_lt. rewrite N2Z.inj_pow. exact H.
Qed.

Lemma nearest_opp z : Number.nearest (- z) = (- Number.nearest z)%Z.
Proof. destruct z; cbn [Number.nearest Z.opp]; lia. Qed.

Lemma toDouble_pos n : (0 < n)%N -> (0 < toDouble n)%N.
Proof.
  intros H. pose proof (toDouble_mono 1 n ltac:(lia)) as M.
  change (toDouble 1) with 1%N in M. lia.
Qed.

Lemma nearest_mono a b : (a <= b)%Z -> (Number.nearest a <= Number.nearest b)%Z.
Proof.
  intros H.
  destruct a as [|p|p], b as [|q|q]; cbn [Number.nearest]; try lia.
  - pose proof (toDouble_mono (N.pos p) (N.pos q) ltac:(lia)). lia.
  - pose proof (toDouble_mono (N.pos q) (N.pos p) ltac:(lia)). lia.
Qed.

Lemma nearest_nonneg z : (0 <= z)%Z -> (0 <= Number.nearest z)%Z.
Proof. intros H. apply (nearest_mono 0 z H). Qed.

Lemma nearest_pos z : (1 <= z)%Z -> (1 <= Number.nearest z)%Z.
Proof. intros H. apply (nearest_mono 1 z H). Qed.

Lemma nearest_neg z : (z < 0)%Z -> (Number.nearest z < 0)%Z.
Proof.
  intros H. pose proof (nearest_mono z (-1) ltac:(lia)) as M.
  change (Number.nearest (-1)) with (-1)%Z in M. lia.
Qed.

Lemma nearest_zero z : Number.nearest z = 0%Z <-> z = 0%Z.
Proof.
  split; [|now intros ->].
  intros H. destruct (Z.lt_trichotomy z 0) as [L|[E|G]]; [|exact E|].
  - pose proof (nearest_neg z L). lia.
  - pose proof (nearest_pos z ltac:(lia)). lia.
Qed.

(** The components of a parsed version are safe integers. *)
Lemma parsed_safe s v :
  construct s = Some v ->
  (major v <= MAX_SAFE_INTEGER)%N /\ (minor v <= MAX_SAFE_INTEGER)%N
  /\ (patch v <= MAX_SAFE_INTEGER)%N.
Proof.
  intros H. apply construct_inv in H as [_ H].
  destruct (matchPlain_inv _ _ H) as [? ? ? ? ? ? ? _ _ _ Hma Hmi Hpa _ _].
  apply component_inv in Hma as (_ & _ & Ha).
  apply component_inv in Hmi as (_ & _ & Hb).
  apply component_inv in Hpa as (_ & _ & Hc).
  auto.
Qed.

Lemma parsed_bounds v :
  parsed v ->
  (major v <= MAX_SAFE_INTEGER)%N /\ (minor v <= MAX_SAFE_INTEGER)%N
  /\ (patch v <= MAX_SAFE_INTEGER)%N.
Proof. intros [s H]. exact (parsed_safe s v H). Qed.

(** The difference of two safe integers is exact. *)
Lemma sub_safe a b :
  (a <= MAX_SAFE_INTEGER)%N -> (b <= MAX_SAFE_INTEGER)%N ->
  Number.sub (Z.of_N a) (Z.of_N b) = (Z.of_N a - Z.of_N b)%Z.
Proof.
  intros Ha Hb. unfold Number.sub. apply nearest_small.
  change MAX_SAFE_INTEGER with 9007199254740991%N in *.
  change (2 ^ 53)%Z with 9007199254740992%Z. lia.
Qed.

End NumberFacts.

Module ScoreFacts.
Import Str Vocab StrFacts DecimalText Semver SemverFacts DiffFacts.
Import JS AnalyzerService NumberFacts ScoreVocab.

Lemma majorOf_format s v :
  construct s = Some v -> majorOf (format v) = Ok (major v).
Proof.
  intros H. unfold majorOf, constructOrThrow.
  now rewrite (construct_format s v H).
Qed.

Lemma minorOf_format s v :
  construct s = Some v -> minorOf (format v) = Ok (minor v).
Proof.
  intros H. unfold minorOf, constructOrThrow.
  now rewrite (construct_format s v H).
Qed.

Lemma patchOf_format s v :
  construct s = Some v -> patchOf (format v) = Ok (patch v).
Proof.
  intros H. unfold patchOf, constructOrThrow.
  now rewrite (construct_format s v H).
Qed.

Lemma calculateVersionDistance_parsed c l vc vl :
  construct c = Some vc -> construct l = Some vl ->
  let d := Spec.distance vc vl in
  VersionDistance.majorVersionsBehind (calculateVersionDistance c l)
  = Spec.majorBehind d
  /\ VersionDistance.minorVersionsBehind (calculateVersionDistance c l)
     = Spec.minorBehind d
  /\ VersionDistance.patchVersionsBehind (calculateVersionDistance c l)
     = Spec.patchBehind d.
Proof.
  intros Hc Hl. unfold calculateVersionDistance.
  rewrite (clean_construct c vc Hc), (clean_construct l vl Hl).
  rewrite (majorOf_format l vl Hl), (majorOf_format c vc Hc),
          (minorOf_format l vl Hl), (minorOf_format c vc Hc),
          (patchOf_format l vl Hl), (patchOf_format c vc Hc).
  destruct (parsed_safe c vc Hc) as (Ca & Cb & Cc).
  destruct (parsed_safe l vl Hl) as (La & Lb & Lc).
  cbn [bind orReturn VersionDistance.majorVersionsBehind
       VersionDistance.minorVersionsBehind
       VersionDistance.patchVersionsBehind].
  rewrite !sub_safe by assumption.
  unfold Spec.distance. cbn [Spec.majorBehind Spec.minorBehind Spec.patchBehind].
  repeat split.
  destruct (Z.of_N (major vl) - Z.of_N (major vc) =? 0)%Z; reflexivity.
Qed.

Lemma valid_parsed s : valid s <> None -> exists v, construct s = Some v.
Proof.
  unfold valid, parse. destruct (construct s) as [v|]; [eauto|].
  intros H. now destruct H.
Qed.

(** The penalty of a valid entry is the double nearest to the one of the
    specification. *)
Lemma outdatedPenalty_spec e :
  validEntry e -> outdatedPenalty e = Number.nearest (Spec.stalenessPenalty e).
Proof.
  intros [Hc Hl].
  destruct (valid_parsed _ Hc) as [vc Ec], (valid_parsed _ Hl) as [vl El].
  unfold outdatedPenalty, Spec.stalenessPenalty, parse, Number.mul.
  destruct (calculateVersionDistance_parsed _ _ _ _ Ec El) as (-> & -> & ->).
  rewrite Ec, El. destruct (OutdatedPackage.type e); f_equal; lia.
Qed.

Lemma total_app l l' : Spec.total (l ++ l') = (Spec.total l + Spec.total l')%Z.
Proof. induction l; simpl; lia. Qed.

Lemma total_nonneg {A} (f : A -> Z) l :
  Forall (fun x => 0 <= f x)%Z l -> (0 <= Spec.total (map f l))%Z.
Proof. induction 1; simpl; lia. Qed.

Lemma severity_counts l :
  Spec.total (map (fun v => Spec.severityPenalty (Vulnerability.severity v)) l)
  = (countSeverity Critical l * 15 + countSeverity High l * 10
     + countSeverity Moderate l * 5 + countSeverity Low l * 2)%Z.
Proof.
  unfold countSeverity.
  induction l as [|v l IH]; [reflexivity|].
  cbn [map Spec.total fold_right filter]. fold (Spec.total (map (fun v => Spec.severityPenalty (Vulnerability.severity v)) l)).
  rewrite IH. destruct (Vulnerability.severity v); cbn [Spec.severityPenalty List.length];
    lia.
Qed.

Lemma countSeverity_nonneg sev l : (0 <= countSeverity sev l)%Z.
Proof. unfold countSeverity. lia. Qed.

(** The score that [fillReport] stores, with the subtractions written
    out. *)
Lemma fillReport_score report vulnerabilities :
  DependencyReport.healthScore (fillReport report vulnerabilities)
  = Z.max 0 (Z.min 100
      (fold_left (fun score pkg => Number.sub score (outdatedPenalty pkg))
         (DependencyReport.outdated report)
         (afterVulnerabilities (countSeverity Critical vulnerabilities)
                               (countSeverity High vulnerabilities)
                               (countSeverity Moderate vulnerabilities)
                               (countSeverity Low vulnerabilities)))).
Proof. reflexivity. Qed.

(* ---- penalties that are not negative ---- *)

Lemma tracks_start : tracks 100 100.
Proof. left. split; [reflexivity|]. change (2 ^ 52)%Z with 4503599627370496%Z. lia. Qed.

Lemma tracks_step d x p :
  tracks d x -> (0 <= p)%Z ->
  tracks (Number.sub d (Number.nearest p)) (x - p).
Proof.
  intros T Hp. unfold tracks, Number.sub in *.
  change (2 ^ 52)%Z with 4503599627370496%Z in *.
  destruct T as [[-> Hx]|[Hd Hx]].
  - destruct (Z.lt_ge_cases p 4503599627370496) as [S|B].
    + rewrite (nearest_small p)
        by (change (2 ^ 53)%Z with 9007199254740992%Z; lia).
      rewrite (nearest_small (x - p))
        by (change (2 ^ 53)%Z with 9007199254740992%Z; lia).
      destruct (Z.lt_ge_cases (x - p) (- 4503599627370496)); [right|left]; lia.
    + right. split; [|lia]. apply nearest_neg.
      pose proof (nearest_mono _ _ B) as M.
      change (Number.nearest 4503599627370496) with 4503599627370496%Z in M.
      lia.
  - right. split; [|lia]. apply nearest_neg.
    pose proof (nearest_nonneg p Hp). lia.
Qed.

Lemma tracks_mul d x c k :
  tracks d x -> (0 <= c)%Z -> (0 <= k)%Z ->
  tracks (Number.sub d (Number.mul c k)) (x - c * k).
Proof. intros T Hc Hk. apply tracks_step; [exact T|nia]. Qed.

Lemma tracks_fold {A} (f g : A -> Z) l d x :
  tracks d x ->
  Forall (fun e => g e = Number.nearest (f e) /\ 0 <= f e)%Z l ->
  tracks (fold_left (fun score e => Number.sub score (g e)) l d)
         (x - Spec.total (map f l)).
Proof.
  intros T H. revert d x T.
  induction H as [|e l [Hg Hf] _ IH]; intros d x T; cbn [fold_left map Spec.total fold_right].
  - now rewrite Z.sub_0_r.
  - fold (Spec.total (map f l)).
    replace (x - (f e + Spec.total (map f l)))%Z
      with (x - f e - Spec.total (map f l))%Z by lia.
    apply IH. rewrite Hg. now apply tracks_step.
Qed.

Lemma tracks_clamp d x :
  tracks d x -> Z.max 0 (Z.min 100 d) = Z.max 0 (Z.min 100 x).
Proof. intros [[-> _]|[Hd Hx]]; lia. Qed.

(** Without negative penalties the score is the one of the
    specification. *)
Lemma fillReport_score_nonneg report vulnerabilities :
  Forall validEntry (DependencyReport.outdated report) ->
  Forall (fun e => 0 <= Spec.stalenessPenalty e)%Z
         (DependencyReport.outdated report) ->
  DependencyReport.healthScore (fillReport report vulnerabilities)
  = Spec.score vulnerabilities (DependencyReport.outdated report).
Proof.
  intros Hv Hn. rewrite fillReport_score. unfold Spec.score, afterVulnerabilities.
  rewrite severity_counts.
  pose proof (countSeverity_nonneg Critical vulnerabilities).
  pose proof (countSeverity_nonneg High vulnerabilities).
  pose proof (countSeverity_nonneg Moderate vulnerabilities).
  pose proof (countSeverity_nonneg Low vulnerabilities).
  erewrite tracks_clamp.
  2:{ apply (tracks_fold Spec.stalenessPenalty).
      - apply tracks_mul; [|assumption|lia].
        apply tracks_mul; [|assumption|lia].
        apply tracks_mul; [|assumption|lia].
        apply tracks_mul; [|assumption|lia].
        apply tracks_start.
      - rewrite Forall_forall in *. intros e He. split.
        + apply outdatedPenalty_spec. now apply Hv.
        + now apply Hn. }
  f_equal. f_equal. lia.
Qed.

(* ---- penalties of small magnitude ---- *)

Lemma exact_step d p b :
  (Z.abs d <= 100 + b)%Z -> (0 <= b)%Z -> (b + Z.abs p <= 2 ^ 52)%Z ->
  Number.sub d (Number.nearest p) = (d - p)%Z
  /\ (Z.abs (d - p) <= 100 + (b + Z.abs p))%Z.
Proof.
  change (2 ^ 52)%Z with 4503599627370496%Z.
  intros Hd Hb Hp. unfold Number.sub.
  rewrite (nearest_small p)
    by (change (2 ^ 53)%Z with 9007199254740992%Z; lia).
  rewrite (nearest_small (d - p))
    by (change (2 ^ 53)%Z with 9007199254740992%Z; lia).
  lia.
Qed.

Lemma exact_fold {A} (f g : A -> Z) l d b :
  (Z.abs d <= 100 + b)%Z -> (0 <= b)%Z ->
  (b + Spec.total (map (fun e => Z.abs (f e)) l) <= 2 ^ 52)%Z ->
  Forall (fun e => g e = Number.nearest (f e)) l ->
  fold_left (fun score e => Number.sub score (g e)) l d
  = (d - Spec.total (map f l))%Z.
Proof.
  intros Hd Hb Ht H. revert d b Hd Hb Ht.
  induction H as [|e l Hg _ IH]; intros d b Hd Hb Ht;
    cbn [fold_left map Spec.total fold_right] in *.
  - lia.
  - fold (Spec.total (map f l)).
    fold (Spec.total (map (fun e => Z.abs (f e)) l)) in Ht.
    assert (N : (0 <= Spec.total (map (fun e => Z.abs (f e)) l))%Z).
    { apply total_nonneg. apply Forall_forall. intros; lia. }
    destruct (exact_step d (f e) b Hd Hb ltac:(lia)) as [E B].
    rewrite Hg, E, (IH _ (b + Z.abs (f e))%Z); lia.
Qed.

(** When the penalties add up to at most 2^52 every subtraction is exact
    and the score is the one of the specification. *)
Lemma fillReport_score_small report vulnerabilities :
  Forall validEntry (DependencyReport.outdated report) ->
  (Spec.total (map (fun v => Spec.severityPenalty (Vulnerability.severity v))
                   vulnerabilities)
   + Spec.total (map (fun e => Z.abs (Spec.stalenessPenalty e))
                     (DependencyReport.outdated report)) <= 2 ^ 52)%Z ->
  DependencyReport.healthScore (fillReport report vulnerabilities)
  = Spec.score vulnerabilities (DependencyReport.outdated report).
Proof.
  intros Hv Hs. rewrite fillReport_score. unfold Spec.score, afterVulnerabilities.
  rewrite severity_counts in *.
  pose proof (countSeverity_nonneg Critical vulnerabilities) as C.
  pose proof (countSeverity_nonneg High vulnerabilities) as H.
  pose proof (countSeverity_nonneg Moderate vulnerabilities) as M.
  pose proof (countSeverity_nonneg Low vulnerabilities) as L.
  assert (N : (0 <= Spec.total (map (fun e => Z.abs (Spec.stalenessPenalty e))
                                   (DependencyReport.outdated report)))%Z).
  { apply total_nonneg. apply Forall_forall. intros; lia. }
  revert Hs C H M L N.
  generalize (countSeverity Critical vulnerabilities) as c,
             (countSeverity High vulnerabilities) as h,
             (countSeverity Moderate vulnerabilities) as m,
             (countSeverity Low vulnerabilities) as l.
  intros c h m l Hs C H M L N. unfold Number.mul.
  destruct (exact_step 100 (c * 15) 0 ltac:(lia) ltac:(lia) ltac:(lia)) as [E1 B1].
  rewrite E1.
  destruct (exact_step _ (h * 10) _ B1 ltac:(lia) ltac:(lia)) as [E2 B2].
  rewrite E2.
  destruct (exact_step _ (m * 5) _ B2 ltac:(lia) ltac:(lia)) as [E3 B3].
  rewrite E3.
  destruct (exact_step _ (l * 2) _ B3 ltac:(lia) ltac:(lia)) as [E4 B4].
  rewrite E4.
  rewrite (exact_fold Spec.stalenessPenalty outdatedPenalty _ _ _ B4);
    [f_equal; f_equal; lia|lia|lia|].
  eapply Forall_impl; [|exact Hv]. intros e He. now apply outdatedPenalty_spec.
Qed.

(* ---- the score as a function of the counters ---- *)

Lemma sub_mono a a' b b' :
  (a <= a')%Z -> (b' <= b)%Z -> (Number.sub a b <= Number.sub a' b')%Z.
Proof. intros. apply nearest_mono. lia. Qed.

Lemma mul_mono c c' k :
  (c <= c')%Z -> (0 <= k)%Z -> (Number.mul c k <= Number.mul c' k)%Z.
Proof. intros. apply nearest_mono. nia. Qed.

Lemma fold_mono {A} (g : A -> Z) l d d' :
  (d <= d')%Z ->
  (fold_left (fun score e => Number.sub score (g e)) l d
   <= fold_left (fun score e => Number.sub score (g e)) l d')%Z.
Proof.
  revert d d'. induction l as [|e l IH]; intros d d' H; cbn [fold_left];
    [exact H|].
  apply IH, sub_mono; lia.
Qed.

Lemma afterVulnerabilities_mono c h m l c' h' m' l' :
  (c <= c')%Z -> (h <= h')%Z -> (m <= m')%Z -> (l <= l')%Z ->
  (afterVulnerabilities c' h' m' l' <= afterVulnerabilities c h m l)%Z.
Proof.
  intros. unfold afterVulnerabilities.
  repeat (apply sub_mono; [|apply mul_mono; lia]). lia.
Qed.

Lemma countSeverity_app sev l l' :
  countSeverity sev (l ++ l') = (countSeverity sev l + countSeverity sev l')%Z.
Proof.
  unfold countSeverity. rewrite filter_app, List.length_app. lia.
Qed.

Lemma countSeverity_unknown sev l :
  sev <> Unknown ->
  Forall (fun v => Vulnerability.severity v = Unknown) l ->
  countSeverity sev l = 0%Z.
Proof.
  intros Hs H. unfold countSeverity.
  induction H as [|v l Hv _ IH]; [reflexivity|].
  cbn [filter]. rewrite Hv. destruct sev; try exact IH. contradiction.
Qed.

End ScoreFacts.

Module ObjFacts.
Import JS Vocab AnalyzerService.

Lemma hasKey_In {A} (o : list (string * A)) k :
  hasKey o k = true <-> In k (keys o).
Proof.
  unfold hasKey, keys. rewrite existsb_exists. split.
  - intros [[k' v] [Hin Heq]]. apply String.eqb_eq in Heq. simpl in Heq.
    subst. now apply (in_map fst) in Hin.
  - intros Hin. apply in_map_iff in Hin as [[k' v] [<- Hin]].
    exists (k', v). split; [assumption|]. apply String.eqb_refl.
Qed.

Lemma hasKey_false {A} (o : list (string * A)) k :
  hasKey o k = false <-> ~ In k (keys o).
Proof.
  rewrite <- hasKey_In. destruct (hasKey o k); split; congruence.
Qed.

Lemma keys_replaceProp {A} k (v : A) o : keys (replaceProp k v o) = keys o.
Proof.
  induction o as [|[k' v'] o IH]; simpl; [reflexivity|].
  destruct (k' =? k); simpl; [reflexivity|]. now rewrite IH.
Qed.

Lemma keys_insertProp {A} k (v : A) o :
  Permutation (k :: keys o) (keys (insertProp k v o)).
Proof.
  induction o as [|[k' v'] o IH]; simpl; [reflexivity|].
  destruct (arrayIndex k), (arrayIndex k'); try destruct (_ <? _)%N; simpl;
    try reflexivity;
    (etransitivity; [apply perm_swap|]); now apply perm_skip.
Qed.

Lemma keys_setProp {A} (o : list (string * A)) k v x :
  In x (keys (setProp o k v)) <-> x = k \/ In x (keys o).
Proof.
  unfold setProp. destruct (hasKey o k) eqn:E.
  - rewrite keys_replaceProp. apply hasKey_In in E. split; [auto|].
    intros [->|H]; assumption.
  - rewrite <- (Permutation_in' (eq_refl x) (keys_insertProp k v o)).
    simpl. intuition.
Qed.

Lemma NoDup_setProp {A} (o : list (string * A)) k v :
  NoDup (keys o) -> NoDup (keys (setProp o k v)).
Proof.
  intros H. unfold setProp. destruct (hasKey o k) eqn:E.
  - now rewrite keys_replaceProp.
  - apply hasKey_false in E.
    apply (Permutation_NoDup (keys_insertProp k v o)). now constructor.
Qed.

Lemma NoDup_copyProps target source :
  NoDup (keys target) -> NoDup (keys (copyProps target source)).
Proof.
  unfold copyProps. revert target.
  induction source as [|[k v] source IH]; intros target H; simpl; [assumption|].
  apply IH. now apply NoDup_setProp.
Qed.

Lemma NoDup_spread2 a b : NoDup (keys (spread2 a b)).
Proof.
  unfold spread2. apply NoDup_copyProps, NoDup_copyProps. constructor.
Qed.

Lemma ownGet_In o k v : ownGet o k = Some v -> In (k, v) o.
Proof.
  induction o as [|[k' v'] o IH]; simpl; [discriminate|].
  destruct (String.eqb_spec k' k) as [->|_].
  - intros [= ->]. now left.
  - intros H. right. now apply IH.
Qed.

Lemma ownGet_unique o k v v' :
  NoDup (keys o) -> ownGet o k = Some v -> In (k, v') o -> v' = v.
Proof.
  induction o as [|[k' w] o IH]; simpl; [discriminate|].
  intros Hnd. inversion Hnd as [|? ? Hnotin Hnd']; subst.
  destruct (String.eqb_spec k' k) as [->|Hne].
  - intros [= ->] [[= ->]|Hin]; [reflexivity|].
    apply (in_map fst) in Hin. contradiction.
  - intros Hget [[= -> ->]|Hin]; [contradiction|]. now apply IH.
Qed.


Lemma insertByRank_perm {A} rank (e : string * A) l :
  Permutation (e :: l) (insertByRank rank e l).
Proof.
  induction l as [|x l IH]; simpl; [reflexivity|].
  destruct (_ <=? _)%nat; [reflexivity|].
  etransitivity; [apply perm_swap|]. now apply perm_skip.
Qed.

Lemma completionOrder_perm {A} rank (l : list (string * A)) :
  Permutation l (completionOrder rank l).
Proof.
  unfold completionOrder. induction l as [|x l IH]; simpl; [reflexivity|].
  etransitivity; [|apply insertByRank_perm]. now apply perm_skip.
Qed.

Lemma assign_keys {A} (o : list (string * A)) name v x :
  In x (keys (assign o name v)) -> x = name \/ In x (keys o).
Proof.
  unfold assign. destruct (name =? "__proto__"); [auto|].
  apply keys_setProp.
Qed.

Lemma outdatedCallback_keys w acc name range x :
  In x (keys (outdatedCallback w acc (name, range))) ->
  In x (keys acc)
  \/ (x = name /\ exists cur, extractVersionFromRange range = Ok (Some cur)).
Proof.
  unfold outdatedCallback, orReturn, bind.
  destruct (fetchPackageInfo w name) as [info|]; [|auto].
  destruct (getProp info "dist-tags") as [tags|]; [|auto].
  destruct (getOpt tags "latest") as [latest|]; [|auto].
  destruct (extractVersionFromRange range) as [[cur|]|]; [|auto|auto].
  destruct (truthy latest); [|auto].
  destruct (gtLatest latest cur) as [[|]|]; [|auto|auto].
  intros H. apply assign_keys in H as [->|H]; [right|now left].
  split; [reflexivity|]. now exists cur.
Qed.

Lemma outdated_fold_keys w entries acc x :
  In x (keys (fold_left (outdatedCallback w) entries acc)) ->
  In x (keys acc)
  \/ exists range cur,
       In (x, range) entries /\ extractVersionFromRange range = Ok (Some cur).
Proof.
  revert acc. induction entries as [|[name range] entries IH]; intros acc;
    simpl; [auto|].
  intros H. apply IH in H as [H|(r & cur & Hin & He)].
  - apply outdatedCallback_keys in H as [H|[-> [cur He]]]; [now left|].
    right. exists range, cur. auto.
  - right. exists r, cur. auto.
Qed.

Lemma pushOutdated_In acc k i e :
  In e (pushOutdated acc (k, i)) -> In e acc \/ OutdatedPackage.package e = k.
Proof.
  unfold pushOutdated. cbv zeta.
  destruct (Semver.valid (NpmOutdatedInfo.current i)); [|auto].
  destruct (Semver.valid (NpmOutdatedInfo.latest i)); [|auto].
  intros H. apply in_app_or in H as [H|[<-|[]]]; auto.
Qed.

Lemma buildOutdatedList_fold npmOutdated acc e :
  In e (fold_left pushOutdated npmOutdated acc) ->
  In e acc \/ In (OutdatedPackage.package e) (keys npmOutdated).
Proof.
  revert acc. induction npmOutdated as [|[k i] l IH]; intros acc; simpl; [auto|].
  intros H. apply IH in H as [H|H]; [|auto].
  apply pushOutdated_In in H as [H|H]; auto.
Qed.

Lemma buildOutdatedList_packages npmOutdated e :
  In e (buildOutdatedList npmOutdated) ->
  In (OutdatedPackage.package e) (keys npmOutdated).
Proof.
  intros H. apply buildOutdatedList_fold in H as [[]|H]. exact H.
Qed.

(** A dependency whose effective range yields no version is absent from
    the result of [getOutdatedFast]. *)
Lemma getOutdatedFast_excludes w packageJson deps name range outdated :
  mergedDependencies packageJson = Ok deps ->
  ownGet deps name = Some range ->
  extractVersionFromRange range = Ok None ->
  getOutdatedFast w packageJson = Ok outdated ->
  ~ In name (keys outdated).
Proof.
  intros Hm Hget Hnone. unfold getOutdatedFast. rewrite Hm. simpl.
  intros [= <-] Hin.
  apply outdated_fold_keys in Hin as [[]|(r & cur & Hin & He)].
  apply (Permutation_in _ (Permutation_sym (completionOrder_perm _ deps))) in Hin.
  assert (NoDup (keys deps)) as Hnd.
  { unfold mergedDependencies, bind in Hm.
    destruct (getProp packageJson "dependencies"); [|discriminate].
    destruct (getProp packageJson "devDependencies"); [|discriminate].
    injection Hm as <-. apply NoDup_spread2. }
  rewrite (ownGet_unique deps name range r Hnd Hget Hin) in He. congruence.
Qed.

(** ** Precedence of the second operand of a spread *)

Lemma agreeOff_refl name o : agreeOff name o o.
Proof. induction o; constructor; auto. Qed.

Lemma agreeOff_keys name o o' : agreeOff name o o' -> keys o = keys o'.
Proof.
  induction 1 as [|a b o o' [Hk _] _ IH]; simpl; [reflexivity|].
  now rewrite Hk, IH.
Qed.

Lemma agreeOff_hasKey name o o' k :
  agreeOff name o o' -> hasKey o k = hasKey o' k.
Proof.
  intros H. apply agreeOff_keys in H.
  destruct (hasKey o k) eqn:E; symmetry.
  - apply hasKey_In. rewrite <- H. now apply hasKey_In.
  - apply hasKey_false. rewrite <- H. now apply hasKey_false.
Qed.

Lemma agreeOff_replaceProp name o o' k v v' :
  agreeOff name o o' -> (k <> name -> v = v') ->
  agreeOff name (replaceProp k v o) (replaceProp k v' o').
Proof.
  intros H Hv. induction H as [|[k1 v1] [k2 v2] o o' [Hk Hs] Hrest IH]; simpl;
    [constructor|].
  simpl in Hk, Hs. subst k2.
  destruct (String.eqb_spec k1 k) as [->|Hne].
  - constructor; [simpl; auto|exact Hrest].
  - constructor; [simpl; auto|exact IH].
Qed.

Lemma agreeOff_insertProp name o o' k v v' :
  agreeOff name o o' -> (k <> name -> v = v') ->
  agreeOff name (insertProp k v o) (insertProp k v' o').
Proof.
  intros H Hv. induction H as [|[k1 v1] [k2 v2] o o' [Hk Hs] Hrest IH]; simpl.
  - constructor; [|constructor]. simpl. auto.
  - simpl in Hk. subst k2.
    destruct (arrayIndex k), (arrayIndex k1); try destruct (_ <? _)%N;
      repeat (constructor; simpl; auto).
Qed.

Lemma agreeOff_setProp name o o' k v v' :
  agreeOff name o o' -> (k <> name -> v = v') ->
  agreeOff name (setProp o k v) (setProp o' k v').
Proof.
  intros H Hv. unfold setProp. rewrite <- (agreeOff_hasKey name o o' k H).
  destruct (hasKey o k).
  - now apply agreeOff_replaceProp.
  - now apply agreeOff_insertProp.
Qed.

Lemma agreeOff_copyProps name t t' s s' :
  agreeOff name t t' -> agreeOff name s s' ->
  agreeOff name (copyProps t s) (copyProps t' s').
Proof.
  intros Ht Hs. revert t t' Ht. unfold copyProps.
  induction Hs as [|[k v] [k' v'] s s' [Hk Hv] _ IH]; intros t t' Ht; simpl;
    [assumption|].
  simpl in Hk, Hv. subst k'. apply IH. now apply agreeOff_setProp.
Qed.

Lemma agreeOff_replaced name v o : agreeOff name (replaceProp name v o) o.
Proof.
  induction o as [|[k w] o IH]; simpl; [constructor|].
  destruct (String.eqb_spec k name) as [->|Hne].
  - constructor; [|apply agreeOff_refl]. simpl. split; [reflexivity|].
    intros H. now destruct H.
  - constructor; [|assumption]. simpl. auto.
Qed.

Lemma agreeOff_absent name o o' :
  agreeOff name o o' -> ~ In name (keys o) -> o = o'.
Proof.
  induction 1 as [|[k v] [k' v'] o o' [Hk Hv] _ IH]; simpl; [reflexivity|].
  simpl in Hk, Hv. subst k'. intros Hn.
  rewrite Hv, IH; auto.
Qed.

Lemma agreeOff_closed name o o' v :
  NoDup (keys o) -> agreeOff name o o' ->
  setProp o name v = setProp o' name v.
Proof.
  intros Hnd H. unfold setProp.
  rewrite <- (agreeOff_hasKey name o o' name H).
  destruct (hasKey o name) eqn:E.
  - clear E. induction H as [|[k w] [k' w'] o o' [Hk Hv] Hrest IH]; simpl;
      [reflexivity|].
    simpl in Hk, Hv. subst k'.
    inversion Hnd as [|? ? Hnotin Hnd']; subst.
    destruct (String.eqb_spec k name) as [->|Hne].
    + f_equal. now apply (agreeOff_absent name).
    + rewrite (Hv Hne). f_equal. now apply IH.
  - apply hasKey_false in E. now rewrite (agreeOff_absent name o o' H E).
Qed.

Lemma copyProps_closed name t t' s :
  NoDup (keys t) -> agreeOff name t t' -> In name (keys s) ->
  copyProps t s = copyProps t' s.
Proof.
  unfold copyProps. revert t t'.
  induction s as [|[k v] s IH]; intros t t' Hnd H Hin; simpl; [destruct Hin|].
  destruct (String.eqb_spec k name) as [->|Hne].
  - now rewrite (agreeOff_closed name t t' v Hnd H).
  - simpl in Hin. destruct Hin as [Hin|Hin]; [contradiction|].
    apply IH; [now apply NoDup_setProp| |assumption].
    now apply agreeOff_setProp.
Qed.

(** Replacing, in the first operand, the value of a name that the second
    operand defines does not change the spread. *)
Lemma spread2_second_wins name v deps devDeps :
  In name (keys devDeps) ->
  spread2 (JObj (replaceProp name v deps)) (JObj devDeps)
  = spread2 (JObj deps) (JObj devDeps).
Proof.
  intros Hin. unfold spread2. cbn [ownEntries].
  apply (copyProps_closed name); [apply NoDup_copyProps; constructor| |exact Hin].
  apply agreeOff_copyProps; [constructor|apply agreeOff_replaced].
Qed.

Lemma ownGet_replaceProp o k v k' :
  ownGet (replaceProp k v o) k'
  = if (k' =? k) && hasKey o k then Some v else ownGet o k'.
Proof.
  induction o as [|[k1 v1] o IH]; simpl; [now rewrite andb_false_r|].
  unfold hasKey in *. simpl.
  destruct (String.eqb_spec k1 k) as [->|Hne]; simpl.
  - rewrite andb_true_r. rewrite (String.eqb_sym k k').
    now destruct (k' =? k).
  - rewrite IH. destruct (String.eqb_spec k' k) as [E|Hne']; simpl.
    + rewrite E. destruct (String.eqb_spec k1 k); [contradiction|reflexivity].
    + reflexivity.
Qed.

Lemma ownGet_insertProp o k v k' :
  hasKey o k = false ->
  ownGet (insertProp k v o) k' = if k' =? k then Some v else ownGet o k'.
Proof.
  rewrite (String.eqb_sym k' k).
  induction o as [|[k1 v1] o IH]; simpl; [reflexivity|].
  unfold hasKey in *. simpl. intros H. apply orb_false_iff in H as [H1 H2].
  specialize (IH H2).
  destruct (arrayIndex k), (arrayIndex k1); try destruct (_ <? _)%N; simpl;
    rewrite ?IH; try reflexivity;
    destruct (String.eqb_spec k k') as [->|Hne]; try reflexivity;
    now rewrite H1.
Qed.

Lemma ownGet_setProp o k v k' :
  ownGet (setProp o k v) k' = if k' =? k then Some v else ownGet o k'.
Proof.
  unfold setProp. destruct (hasKey o k) eqn:E.
  - rewrite ownGet_replaceProp, E, andb_true_r. reflexivity.
  - now apply ownGet_insertProp.
Qed.

Lemma ownGet_copyProps_absent t s k :
  ~ In k (keys s) -> ownGet (copyProps t s) k = ownGet t k.
Proof.
  unfold copyProps. revert t.
  induction s as [|[k1 v1] s IH]; intros t Hn; simpl; [reflexivity|].
  simpl in Hn. rewrite IH by tauto. rewrite ownGet_setProp.
  destruct (String.eqb_spec k k1) as [->|_]; [tauto|reflexivity].
Qed.

Lemma ownGet_copyProps t s k v :
  NoDup (keys s) -> ownGet s k = Some v -> ownGet (copyProps t s) k = Some v.
Proof.
  unfold copyProps. revert t.
  induction s as [|[k1 v1] s IH]; intros t Hnd; simpl; [discriminate|].
  inversion Hnd as [|? ? Hnotin Hnd']; subst.
  destruct (String.eqb_spec k1 k) as [->|Hne].
  - intros [= ->]. fold (copyProps (setProp t k v) s).
    rewrite ownGet_copyProps_absent by assumption.
    now rewrite ownGet_setProp, String.eqb_refl.
  - now apply IH.
Qed.

End ObjFacts.

Module AuditFacts.
Import JS Vocab AuditVocab AnalyzerService ObjFacts.

Lemma triple_ret {S A} (P : S -> Prop) (a : A) (Q : A -> S -> Prop) E :
  (forall s, P s -> Q a s) -> triple P (retS a) Q E.
Proof. intros H s Hs. now apply H. Qed.

Lemma triple_bind {S A B} (P : S -> Prop) (c : St S A) (k : A -> St S B)
  (Q : A -> S -> Prop) (R : B -> S -> Prop) E :
  triple P c Q E -> (forall a, triple (Q a) (k a) R E) ->
  triple P (bindS c k) R E.
Proof.
  intros Hc Hk s Hs. unfold bindS. specialize (Hc s Hs).
  destruct (c s) as [[a|e] s']; [now apply Hk|assumption].
Qed.

Lemma triple_lift {S A} (P : S -> Prop) (r : result A) (Q : A -> S -> Prop)
  (E : S -> Prop) :
  (forall a s, r = Ok a -> P s -> Q a s) -> (forall s, P s -> E s) ->
  triple P (liftS r) Q E.
Proof.
  intros HQ HE s Hs. unfold liftS. destruct r; [now apply HQ|now apply HE].
Qed.

Lemma triple_weaken {S A} (P P' : S -> Prop) (c : St S A)
  (Q Q' : A -> S -> Prop) (E E' : S -> Prop) :
  triple P c Q E ->
  (forall s, P' s -> P s) -> (forall a s, Q a s -> Q' a s) ->
  (forall s, E s -> E' s) ->
  triple P' c Q' E'.
Proof.
  intros H HP HQ HE s Hs. specialize (H s (HP s Hs)).
  destruct (c s) as [[a|e] s']; auto.
Qed.

Lemma triple_swallow {S} (P : S -> Prop) (c : St S unit) (Q : S -> Prop) :
  triple P c (fun _ => Q) Q -> triple P (swallowS c) (fun _ => Q) Q.
Proof.
  intros H s Hs. unfold swallowS. specialize (H s Hs).
  destruct (c s) as [[a|e] s']; simpl; assumption.
Qed.

Lemma Stage_mono name before allowed allowed' acc :
  incl allowed allowed' ->
  Stage name before allowed acc -> Stage name before allowed' acc.
Proof.
  intros Hi [Hn He Hk]. constructor; [assumption| |assumption].
  intros k e Hin. destruct (He k e Hin) as (H1 & H2 & H3).
  repeat split; [assumption..|].
  intros Heq. eapply incl_tran; [now apply H3|assumption].
Qed.

Lemma In_replaceProp {A} k (v : A) o k' v' :
  In (k', v') (replaceProp k v o) ->
  (k' = k /\ v' = v) \/ In (k', v') o.
Proof.
  induction o as [|[k1 v1] o IH]; simpl; [tauto|].
  destruct (String.eqb_spec k1 k) as [->|Hne]; simpl.
  - intros [[= <- <-]|H]; auto.
  - intros [H|H]; [auto|]. apply IH in H. tauto.
Qed.

Lemma In_insertProp {A} k (v : A) o k' v' :
  In (k', v') (insertProp k v o) ->
  (k' = k /\ v' = v) \/ In (k', v') o.
Proof.
  induction o as [|[k1 v1] o IH]; simpl.
  - intros [[= <- <-]|[]]. auto.
  - destruct (arrayIndex k), (arrayIndex k1); try destruct (_ <? _)%N; simpl;
      intros [H|H]; try (injection H as <- <-); auto;
      try (destruct H as [H|H]; auto);
      try (apply IH in H; tauto).
Qed.

Lemma In_setProp {A} (o : list (string * A)) k v k' v' :
  NoDup (keys o) ->
  In (k', v') (setProp o k v) ->
  (k' = k /\ v' = v) \/ (k' <> k /\ In (k', v') o).
Proof.
  intros Hnd H.
  destruct (String.eqb_spec k' k) as [->|Hne].
  - left. split; [reflexivity|].
    pose proof (NoDup_setProp o k v Hnd) as Hnd'.
    unfold setProp in *. destruct (hasKey o k) eqn:E.
    + clear E. induction o as [|[k1 v1] o IH]; simpl in *; [destruct H|].
      inversion Hnd as [|? ? Hnotin Hnd1]; subst.
      destruct (String.eqb_spec k1 k) as [->|Hne].
      * destruct H as [[= <-]|H]; [reflexivity|].
        apply (in_map fst) in H. contradiction.
      * destruct H as [[= -> _]|H]; [contradiction|].
        inversion Hnd' as [|? ? _ Hnd1']; subst. now apply IH.
    + apply hasKey_false in E. apply In_insertProp in H as [[_ ->]|H];
        [reflexivity|]. apply (in_map fst) in H. contradiction.
  - right. split; [assumption|].
    unfold setProp in H. destruct (hasKey o k).
    + apply In_replaceProp in H as [[-> _]|H]; [contradiction|assumption].
    + apply In_insertProp in H as [[-> _]|H]; [contradiction|assumption].
Qed.

Lemma lookup_own acc name entry :
  lookup acc name = OwnEntry entry -> ownGet (own acc) name = Some entry.
Proof.
  unfold lookup. destruct (name =? "__proto__"); [discriminate|].
  destruct (ownGet (own acc) name); [now intros [= ->]|].
  destruct (_ && _); [discriminate|]. destruct (inList _ _); discriminate.
Qed.


Lemma pushItem_entry entry item :
  isEntry entry -> isFinding item ->
  exists entry',
    pushItem entry item = Ok entry' /\ isEntry entry'
    /\ entrySources entry' = (entrySources entry ++ [itemSource item])%list.
Proof.
  intros (items & fv & -> & Hitems) Hitem.
  eexists. cbn. split; [reflexivity|]. split.
  - exists (items ++ [item])%list, fv. split; [reflexivity|].
    apply Forall_app. split; [assumption|]. now constructor.
  - unfold entrySources. cbn. now rewrite map_app.
Qed.

Lemma isEntry_fresh : isEntry freshEntry.
Proof. exists [], (JStr "latest"). split; [reflexivity|constructor]. Qed.

Lemma assignEntry_stage name before allowed allowed' entry :
  isEntry entry -> NoDup (entrySources entry) ->
  incl (entrySources entry) allowed' -> incl allowed allowed' ->
  triple (Stage name before allowed) (assignEntry name entry)
         (fun _ => Stage name before allowed') (Stage name before allowed').
Proof.
  intros He Hnd Hi Hm acc Hst. unfold assignEntry.
  destruct (name =? "__proto__").
  - destruct Hst as [Hn Hes Hk]. constructor; cbn [own]; try assumption.
    intros k e Hin. destruct (Hes k e Hin) as (H1 & H2 & H3).
    repeat split; [assumption..|].
    intros Heq. eapply incl_tran; [now apply H3|assumption].
  - destruct Hst as [Hn Hes Hk]. constructor; cbn [own].
    + now apply NoDup_setProp.
    + intros k e Hin. apply In_setProp in Hin as [[-> ->]|[Hne Hin]];
        [auto| |assumption].
      destruct (Hes k e Hin) as (H1 & H2 & _).
      repeat split; [assumption..|]. intros Heq. contradiction.
    + intros k Hin. apply keys_setProp in Hin as [->|Hin]; auto.
Qed.

Lemma pushFinding_stage name before allowed item :
  isFinding item -> ~ In (itemSource item) allowed ->
  triple (Stage name before allowed) (pushFinding name item)
         (fun _ => Stage name before (allowed ++ [itemSource item])%list)
         (Stage name before (allowed ++ [itemSource item])%list).
Proof.
  intros Hitem Hnew acc Hst.
  assert (Hmono : Stage name before (allowed ++ [itemSource item])%list acc)
    by (revert Hst; apply Stage_mono, incl_appl, incl_refl).
  unfold pushFinding, bindS, getS.
  destruct (lookup acc name) as [entry| | |] eqn:L.
  - apply lookup_own, ownGet_In in L.
    destruct (stage_entries _ _ _ _ Hst name entry L) as (He & Hnd & Hi).
    destruct (pushItem_entry entry item He Hitem) as (entry' & -> & He' & Hs).
    unfold liftS.
    apply (assignEntry_stage name before allowed); try assumption.
    + rewrite Hs. apply NoDup_app; [assumption|repeat constructor; intros []|].
      intros x Hx [<-|[]]. apply Hnew. now apply (Hi eq_refl).
    + rewrite Hs. apply incl_app; [|apply incl_appr, incl_refl].
      apply incl_appl. now apply Hi.
    + apply incl_appl, incl_refl.
  - destruct (protoReplaced acc); cbn; assumption.
  - cbn. assumption.
  - destruct (pushItem_entry freshEntry item isEntry_fresh Hitem)
      as (entry' & -> & He' & Hs).
    unfold liftS.
    apply (assignEntry_stage name before allowed); try assumption.
    + rewrite Hs. cbn. repeat constructor. intros [].
    + rewrite Hs. cbn. apply incl_appr, incl_refl.
    + apply incl_appl, incl_refl.
Qed.

Section WithRuntime.
Context {RT : Runtime}.

Lemma isFinding_finding source title severity version sev :
  source <> "" -> normalizeSeverity (JStr severity) = Ok sev ->
  isFinding (finding source title severity version).
Proof.
  intros Hs Hn. exists source, (JStr title), severity, (JStr version), sev.
  auto.
Qed.

(** A state-preserving step followed by a continuation. *)
Lemma triple_lift_bind {S A B} (P : S -> Prop) (r : result A)
  (k : A -> St S B) (R : B -> S -> Prop) (E : S -> Prop) :
  (forall s, P s -> E s) ->
  (forall a, triple P (k a) R E) ->
  triple P (bindS (liftS r) k) R E.
Proof.
  intros HE Hk. apply (triple_bind P _ _ (fun _ => P)); [|exact Hk].
  apply triple_lift; auto.
Qed.

Lemma checkNpmsIoSecurity_stage w name version before allowed :
  ~ In qualitySource allowed -> ~ In flagSource allowed ->
  triple (Stage name before allowed)
         (checkNpmsIoSecurity w name version)
         (fun _ => Stage name before (allowed ++ [qualitySource; flagSource])%list)
         (Stage name before (allowed ++ [qualitySource; flagSource])%list).
Proof.
  intros Hq Hf.
  set (Final := Stage name before (allowed ++ [qualitySource; flagSource])%list).
  assert (M0 : forall s, Stage name before allowed s -> Final s).
  { intros s. apply Stage_mono, incl_appl, incl_refl. }
  assert (M1 : forall s, Stage name before (allowed ++ [qualitySource])%list s
                         -> Final s).
  { intros s. apply Stage_mono. apply incl_app.
    - apply incl_appl, incl_refl.
    - apply incl_appr. intros x [<-|[]]. now left. }
  unfold checkNpmsIoSecurity. apply triple_swallow.
  apply triple_lift_bind; [exact M0|intros npmsData].
  apply triple_lift_bind; [exact M0|intros low].
  apply (triple_bind _ _ _
           (fun _ => Stage name before (allowed ++ [qualitySource])%list)).
  - destruct low.
    + apply triple_lift_bind; [exact M0|intros score].
      apply triple_lift_bind; [exact M0|intros detail].
      apply triple_lift_bind; [exact M0|intros quality].
      apply triple_lift_bind; [exact M0|intros veryLow].
      eapply triple_weaken;
        [apply pushFinding_stage with (before := before) (allowed := allowed)
        | | |].
      * destruct veryLow;
          (eapply isFinding_finding; [discriminate|reflexivity]).
      * exact Hq.
      * auto.
      * intros a s Hs. exact Hs.
      * exact M1.
    + apply triple_ret. intros s. apply Stage_mono, incl_appl, incl_refl.
  - intros _.
    apply triple_lift_bind; [exact M1|intros collected].
    apply triple_lift_bind; [exact M1|intros metadata].
    apply triple_lift_bind; [exact M1|intros flag].
    destruct (truthy flag).
    + eapply triple_weaken;
        [apply pushFinding_stage
           with (before := before) (allowed := (allowed ++ [qualitySource])%list)
        | | |].
      * eapply isFinding_finding; [discriminate|reflexivity].
      * intros H. apply in_app_or in H as [H|[H|[]]]; [now apply Hf|].
        discriminate.
      * auto.
      * intros a s. unfold Final. now rewrite <- List.app_assoc.
      * intros s. unfold Final. now rewrite <- List.app_assoc.
    + apply triple_ret. exact M1.
Qed.

Lemma deprecatedSource_fresh name :
  deprecatedSource name <> "" /\ deprecatedSource name <> qualitySource
  /\ deprecatedSource name <> flagSource.
Proof. repeat split; discriminate. Qed.

Lemma auditCallback_stage w name version before :
  triple (Stage name before [])
         (auditCallback w (name, version))
         (fun _ => Stage name before
                     [deprecatedSource name; qualitySource; flagSource])
         (Stage name before [deprecatedSource name; qualitySource; flagSource]).
Proof.
  set (Final := Stage name before
                  [deprecatedSource name; qualitySource; flagSource]).
  assert (M0 : forall s, Stage name before [] s -> Final s).
  { intros s. apply Stage_mono. intros x []. }
  destruct (deprecatedSource_fresh name) as (D0 & D1 & D2).
  unfold auditCallback. apply triple_swallow.
  apply triple_lift_bind; [exact M0|intros pkgInfo].
  apply triple_lift_bind; [exact M0|intros current].
  destruct current as [currentVersion|]; [|apply triple_ret; exact M0].
  apply triple_lift_bind; [exact M0|intros versions].
  apply triple_lift_bind; [exact M0|intros versionData].
  apply (triple_bind _ _ _
           (fun _ => Stage name before [deprecatedSource name])).
  - assert (M1 : forall s, Stage name before [deprecatedSource name] s -> Final s).
    { intros s. apply Stage_mono. intros x [<-|[]]. now left. }
    assert (R0 : triple (Stage name before []) (retS tt)
                   (fun _ => Stage name before [deprecatedSource name]) Final).
    { apply triple_ret. intros s. apply Stage_mono. intros x []. }
    destruct (truthy versions && truthy versionData); [|exact R0].
    apply triple_lift_bind; [exact M0|intros deprecated].
    destruct (truthy deprecated); [|exact R0].
    apply triple_lift_bind; [exact M0|intros tags].
    apply triple_lift_bind; [exact M0|intros latest].
    eapply triple_weaken;
      [apply assignEntry_stage
         with (before := before) (allowed := [])
              (allowed' := [deprecatedSource name])| | |].
    + eexists _, _. split; [reflexivity|]. constructor; [|constructor].
      exists (deprecatedSource name), deprecated, "moderate", version, Moderate.
      auto.
    + cbn. repeat constructor. intros [].
    + cbn. apply incl_refl.
    + intros x [].
    + auto.
    + intros a s Hs. exact Hs.
    + exact M1.
  - intros _.
    apply (checkNpmsIoSecurity_stage w name currentVersion before
             [deprecatedSource name]).
    + intros [H|[]]. now apply D1.
    + intros [H|[]]. now apply D2.
Qed.

Lemma Settled_Stage name before acc :
  ~ In name before -> Settled before acc -> Stage name before [] acc.
Proof.
  intros Hn (Hnd & He & Hk). constructor; [assumption| |auto].
  intros k e Hin. destruct (He k e Hin) as [H1 H2].
  repeat split; [assumption..|].
  intros ->. apply (in_map fst) in Hin. destruct Hn. now apply Hk.
Qed.

Lemma Stage_Settled name before allowed acc :
  Stage name before allowed acc -> Settled (name :: before) acc.
Proof.
  intros [Hnd He Hk]. repeat split; [assumption|..].
  - now destruct (He k e H).
  - now destruct (He k e H) as (_ & ? & _).
  - intros k Hin. simpl. destruct (Hk k Hin); auto.
Qed.

Lemma auditCallback_settled w name version before acc :
  ~ In name before -> Settled before acc ->
  fst (auditCallback w (name, version) acc) = Ok tt
  /\ Settled (name :: before) (snd (auditCallback w (name, version) acc)).
Proof.
  intros Hn Hs.
  pose proof (auditCallback_stage w name version before acc
                (Settled_Stage name before acc Hn Hs)) as H.
  split; [reflexivity|].
  destruct (auditCallback w (name, version) acc) as [[[]|e] s'];
    now apply Stage_Settled in H.
Qed.

Lemma forEach_settled w entries :
  NoDup (keys entries) ->
  forall before acc,
    (forall k, In k (keys entries) -> ~ In k before) ->
    Settled before acc ->
    exists after,
      Settled after (snd (forEachS (auditCallback w) entries acc)).
Proof.
  induction entries as [|[name version] entries IH]; intros Hnd before acc Hd Hs.
  - now exists before.
  - inversion Hnd as [|? ? Hnotin Hnd']; subst.
    destruct (auditCallback_settled w name version before acc) as [Hok Hs'];
      [apply Hd; now left|assumption|].
    cbn [forEachS]. unfold bindS.
    destruct (auditCallback w (name, version) acc) as [r s'] eqn:E.
    cbn [fst snd] in *. subst r.
    apply (IH Hnd' (name :: before)); [|assumption].
    intros k Hk [<-|Hb]; [contradiction|].
    apply (Hd k); [now right|assumption].
Qed.

Lemma viaCallback_finding now pkg entry item acc n :
  isEntry entry -> isFinding item ->
  exists v,
    viaCallback now pkg entry item (acc, n) = (Ok tt, ((acc ++ [v])%list, n))
    /\ pairOf v = (pkg, itemSource item).
Proof.
  intros (items & fv & -> & _)
         (source & title & severity & range & sev & -> & Hne & Hsev).
  apply String.eqb_neq in Hne.
  unfold viaCallback, vulnerabilityId, bindS, liftS, getS, putS, retS.
  cbn. rewrite Hne. cbn. rewrite Hne. cbn.
  unfold normalizeSeverity in Hsev. cbn in Hsev.
  unfold normalizeSeverity. cbn. rewrite Hsev. cbn.
  eexists. split; reflexivity.
Qed.

Lemma forEach_via now pkg entry items acc n :
  isEntry entry -> Forall isFinding items ->
  exists vs,
    forEachS (viaCallback now pkg entry) items (acc, n)
    = (Ok tt, ((acc ++ vs)%list, n))
    /\ map pairOf vs = map (pair pkg) (map itemSource items).
Proof.
  intros He Hitems. revert acc.
  induction Hitems as [|item items Hitem _ IH]; intros acc.
  - exists []. cbn. now rewrite List.app_nil_r.
  - destruct (viaCallback_finding now pkg entry item acc n He Hitem)
      as (v & Hv & Hp).
    destruct (IH (acc ++ [v])%list) as (vs & Hvs & Hps).
    exists (v :: vs). cbn [forEachS]. unfold bindS. rewrite Hv, Hvs.
    split.
    + now rewrite <- List.app_assoc.
    + cbn. now rewrite Hp, Hps.
Qed.

Lemma packageLoopBody_entry now k e acc n :
  isEntry e ->
  exists vs,
    packageLoopBody now (k, e) (acc, n) = (Ok tt, ((acc ++ vs)%list, n))
    /\ map pairOf vs = entryPairs (k, e).
Proof.
  intros He. pose proof He as (items & fv & -> & Hitems).
  unfold packageLoopBody, bindS, liftS. cbn.
  apply forEach_via; assumption.
Qed.

Lemma forEach_packages now entries acc n :
  (forall k e, In (k, e) entries -> isEntry e) ->
  exists vs,
    forEachS (packageLoopBody now) entries (acc, n)
    = (Ok tt, ((acc ++ vs)%list, n))
    /\ map pairOf vs = flat_map entryPairs entries.
Proof.
  revert acc. induction entries as [|[k e] entries IH]; intros acc He.
  - exists []. cbn. now rewrite List.app_nil_r.
  - destruct (packageLoopBody_entry now k e acc n) as (v1 & H1 & P1);
      [apply (He k); now left|].
    destruct (IH (acc ++ v1)%list) as (v2 & H2 & P2);
      [intros k' e' Hin; apply (He k'); now right|].
    exists (v1 ++ v2)%list. cbn [forEachS]. unfold bindS. rewrite H1, H2.
    split.
    + now rewrite <- List.app_assoc.
    + cbn [flat_map]. now rewrite map_app, P1, P2.
Qed.

Lemma processVulnerabilities_entries now entries :
  (forall k e, In (k, e) entries -> isEntry e) ->
  map pairOf
      (processVulnerabilities now (JObj [("vulnerabilities", JObj entries)]))
  = flat_map entryPairs entries.
Proof.
  intros He. unfold processVulnerabilities, swallowS, processVulnerabilitiesBody,
    bindS, liftS. cbn.
  destruct (forEach_packages now entries [] 0%nat He) as (vs & -> & Hp).
  exact Hp.
Qed.

Lemma NoDup_map_pair {A B} (k : A) (l : list B) :
  NoDup l -> NoDup (map (pair k) l).
Proof.
  induction 1 as [|x l Hx _ IH]; cbn; constructor; [|assumption].
  intros H. apply in_map_iff in H as (y & [= ->] & Hy). contradiction.
Qed.

Lemma NoDup_entryPairs entries :
  NoDup (keys entries) ->
  (forall k e, In (k, e) entries -> NoDup (entrySources e)) ->
  NoDup (flat_map entryPairs entries).
Proof.
  induction entries as [|[k e] entries IH]; intros Hnd Hs; [constructor|].
  inversion Hnd as [|? ? Hnotin Hnd']; subst.
  cbn [flat_map]. apply NoDup_app.
  - unfold entryPairs. cbn [fst snd].
    apply NoDup_map_pair, (Hs k). now left.
  - apply IH; [assumption|]. intros k' e' Hin. apply (Hs k'). now right.
  - intros [k1 s1] H1 H2. unfold entryPairs in H1. cbn [fst snd] in H1.
    apply in_map_iff in H1 as (s & [= <- <-] & _).
    apply in_flat_map in H2 as ([k2 e2] & Hin & H2).
    unfold entryPairs in H2. cbn [fst snd] in H2.
    apply in_map_iff in H2 as (s' & [= <- <-] & _).
    apply Hnotin. now apply (in_map fst) in Hin.
Qed.

Lemma processVulnerabilities_empty now :
  processVulnerabilities now emptyAudit = [].
Proof. reflexivity. Qed.

(** The list built from the registry and quality-signal data has no
    repeated (package, id) pair. *)
Lemma audit_pairs_distinct w now packageJson :
  NoDup (map pairOf (processVulnerabilities now (getNpmAuditFast w packageJson))).
Proof.
  unfold getNpmAuditFast, orReturn, bind.
  destruct (mergedDependencies packageJson) as [deps|] eqn:Hm;
    [|rewrite processVulnerabilities_empty; constructor].
  assert (Hnd : NoDup (keys deps)).
  { unfold mergedDependencies, bind in Hm.
    destruct (getProp packageJson "dependencies"); [|discriminate].
    destruct (getProp packageJson "devDependencies"); [|discriminate].
    injection Hm as <-. apply NoDup_spread2. }
  destruct (forEach_settled w (completionOrder (completion w) deps)) with
    (before := @nil string) (acc := emptyAccumulator)
    as (after & Hn & He & _).
  - unfold keys. eapply Permutation_NoDup; [|exact Hnd].
    apply Permutation_map, completionOrder_perm.
  - intros k _ [].
  - split; [cbn; constructor|split; [intros ? ? []|intros ? []]].
  - rewrite processVulnerabilities_entries.
    + apply NoDup_entryPairs; [assumption|]. intros k e Hin.
      now destruct (He k e Hin).
    + intros k e Hin. now destruct (He k e Hin).
Qed.

End WithRuntime.

End AuditFacts.

Module SortFacts.
Import JS Vocab SortVocab Semver SemverFacts DiffFacts ScoreFacts AnalyzerService.

Lemma orZ_opp a b : orZ (- a) (- b) = (- orZ a b)%Z.
Proof.
  unfold orZ. destruct (Z.eqb_spec a 0) as [->|Hne]; [reflexivity|].
  destruct (Z.eqb_spec (- a) 0); [lia|reflexivity].
Qed.

Lemma ltb_antisym a b : a <> b -> String.ltb b a = negb (String.ltb a b).
Proof.
  intros Hne. unfold String.ltb. rewrite (String.compare_antisym b a).
  destruct (String.compare a b) eqn:E; try reflexivity.
  apply String.compare_eq_iff in E. contradiction.
Qed.

Lemma compareIdentifiers_antisym a b :
  compareIdentifiers b a = (- compareIdentifiers a b)%Z.
Proof.
  unfold compareIdentifiers.
  destruct (isNumeric a) eqn:Ea, (isNumeric b) eqn:Eb; cbn [andb negb].
  - apply signOf_antisym.
  - rewrite (String.eqb_sym b a). now destruct (a =? b).
  - rewrite (String.eqb_sym b a). now destruct (a =? b).
  - rewrite (String.eqb_sym b a).
    destruct (String.eqb_spec a b) as [->|Hne]; [reflexivity|].
    rewrite (ltb_antisym a b Hne). now destruct (String.ltb a b).
Qed.

Lemma comparePreLoop_antisym a b :
  comparePreLoop b a = (- comparePreLoop a b)%Z.
Proof.
  revert b. induction a as [|x a IH]; intros [|y b]; cbn; try reflexivity.
  rewrite (String.eqb_sym y x). destruct (x =? y); [apply IH|].
  apply compareIdentifiers_antisym.
Qed.

Lemma comparePre_antisym v o : comparePre o v = (- comparePre v o)%Z.
Proof.
  unfold comparePre.
  destruct (hasPre v), (hasPre o); cbn; try reflexivity.
  apply comparePreLoop_antisym.
Qed.

Lemma compareSemVer_antisym v o :
  compareSemVer o v = (- compareSemVer v o)%Z.
Proof.
  unfold compareSemVer. rewrite (String.eqb_sym (format v) (format o)).
  destruct (format o =? format v); [reflexivity|].
  rewrite (compareMain_antisym v o), (comparePre_antisym v o).
  apply orZ_opp.
Qed.

Lemma validCurrent_parsed e :
  validCurrent e -> exists v, construct (OutdatedPackage.current e) = Some v.
Proof. apply valid_parsed. Qed.

Lemma byCurrent_valid a b :
  validCurrent a -> validCurrent b ->
  exists va vb,
    construct (OutdatedPackage.current a) = Some va
    /\ construct (OutdatedPackage.current b) = Some vb
    /\ byCurrent a b = Ok (compareSemVer va vb).
Proof.
  intros Ha Hb. destruct (validCurrent_parsed a Ha) as [va Ea].
  destruct (validCurrent_parsed b Hb) as [vb Eb].
  exists va, vb. repeat split; try assumption.
  unfold byCurrent, compare, constructOrThrow. now rewrite Ea, Eb.
Qed.

Lemma notAfter_flip a b c :
  validCurrent a -> validCurrent b ->
  byCurrent a b = Ok c -> (0 < c)%Z -> notAfter b a.
Proof.
  intros Ha Hb Hc Hpos.
  destruct (byCurrent_valid a b Ha Hb) as (va & vb & Ea & Eb & Hab).
  destruct (byCurrent_valid b a Hb Ha) as (vb' & va' & Eb' & Ea' & Hba).
  rewrite Ea in Ea'. rewrite Eb in Eb'. injection Ea' as <-. injection Eb' as <-.
  rewrite Hab in Hc. injection Hc as <-.
  exists (compareSemVer vb va). split; [assumption|].
  rewrite (compareSemVer_antisym va vb). lia.
Qed.

Lemma insertSorted_spec x l :
  validCurrent x -> Forall validCurrent l ->
  exists l',
    insertSorted x l = Ok l' /\ Permutation (x :: l) l'
    /\ (forall y, notAfter y x -> HdRel notAfter y l -> HdRel notAfter y l')
    /\ (Sorted notAfter l -> Sorted notAfter l').
Proof.
  intros Hx Hl. induction Hl as [|y r Hy Hr IH].
  - exists [x]. cbn. repeat split; auto.
  - destruct IH as (r' & Hins & Hperm & Hhd & Hsorted).
    destruct (byCurrent_valid y x Hy Hx) as (vy & vx & Ey & Ex & Hc).
    cbn [insertSorted]. rewrite Hc. cbn [bind].
    destruct (Z.ltb_spec 0 (compareSemVer vy vx)) as [Hpos|Hle].
    + exists (x :: y :: r). repeat split; auto.
      intros Hs. constructor; [assumption|]. constructor.
      now apply (notAfter_flip y x (compareSemVer vy vx)).
    + rewrite Hins. cbn [bind]. exists (y :: r'). repeat split.
      * etransitivity; [apply perm_swap|]. now apply perm_skip.
      * intros z Hzx Hz. constructor. now inversion Hz.
      * intros Hs. inversion Hs as [|? ? Hs' Hh]; subst.
        constructor; [now apply Hsorted|].
        apply Hhd; [|assumption].
        exists (compareSemVer vy vx). split; [assumption|lia].
Qed.

Lemma sorted_fold l :
  forall acc,
    Forall validCurrent acc -> Forall validCurrent l -> Sorted notAfter acc ->
    exists l',
      fold_left (fun acc x => l' <- acc ;; insertSorted x l') l (Ok acc) = Ok l'
      /\ Permutation (acc ++ l)%list l' /\ Sorted notAfter l'.
Proof.
  induction l as [|x l IH]; intros acc Hacc Hl Hs.
  - exists acc. cbn. rewrite List.app_nil_r. auto.
  - inversion Hl as [|? ? Hx Hl']; subst.
    destruct (insertSorted_spec x acc Hx Hacc) as (a' & Hins & Hperm & _ & Hsorted).
    cbn [fold_left bind]. rewrite Hins.
    destruct (IH a') as (l' & Hfold & Hp & Hs').
    + eapply Permutation_Forall; [exact Hperm|]. now constructor.
    + assumption.
    + now apply Hsorted.
    + exists l'. repeat split; [assumption| |assumption].
      etransitivity; [|exact Hp].
      etransitivity; [symmetry; apply Permutation_middle|].
      apply (Permutation_app_tail l Hperm).
Qed.

Lemma sorted_spec l :
  Forall validCurrent l ->
  exists l', sorted l = Ok l' /\ Permutation l l' /\ Sorted notAfter l'.
Proof.
  intros Hl. destruct (sorted_fold l [] (Forall_nil _) Hl (Sorted_nil _))
    as (l' & H & Hp & Hs).
  exists l'. auto.
Qed.

End SortFacts.

Module ClockFacts.
Import JS Vocab ClockVocab AnalyzerService.

Section Simulation.
Variable L : nat -> list Vulnerability.t -> list Vulnerability.t -> Prop.

Lemma related_thrown s1 s2 : related L s1 s2 -> thrown L s1 s2.
Proof. intros (E & H & Z). repeat split; eauto. Qed.

Lemma simulates_ret {A} (a : A) : simulates L (retS a) (retS a).
Proof. intros s1 s2 H. cbn. auto. Qed.

Lemma simulates_bind {A B} (c1 c2 : St _ A) (k1 k2 : A -> St _ B) :
  simulates L c1 c2 -> (forall a, simulates L (k1 a) (k2 a)) ->
  simulates L (bindS c1 k1) (bindS c2 k2).
Proof.
  intros Hc Hk s1 s2 H. unfold bindS. specialize (Hc s1 s2 H).
  destruct (c1 s1) as [[a1|e1] s1'], (c2 s2) as [[a2|e2] s2'];
    try contradiction.
  - destruct Hc as [<- Hc]. now apply Hk.
  - exact Hc.
Qed.

Lemma simulates_lift_eq {A B} (r : result A) (k1 k2 : A -> St _ B) :
  (forall a, r = Ok a -> simulates L (k1 a) (k2 a)) ->
  simulates L (bindS (liftS r) k1) (bindS (liftS r) k2).
Proof.
  intros Hk s1 s2 H. unfold bindS, liftS.
  destruct r as [a|e]; [now apply Hk|now apply related_thrown].
Qed.

Lemma simulates_forEach {A} (f1 f2 : A -> St _ unit) l :
  (forall x, In x l -> simulates L (f1 x) (f2 x)) ->
  simulates L (forEachS f1 l) (forEachS f2 l).
Proof.
  induction l as [|x l IH]; intros Hf; cbn [forEachS].
  - apply simulates_ret.
  - apply simulates_bind; [apply Hf; now left|intros _].
    apply IH. intros y Hy. apply Hf. now right.
Qed.

End Simulation.

Section WithRuntime.
Context {RT : Runtime}.

(** The entries that the callback pushes for one item in two runs are
    made from the source of that item, and a synthesized id takes the
    next reading of each clock. *)
Lemma viaCallback_simulates L now1 now2 pkg vulnInfo via :
  (forall k l1 l2 a b source text,
      getProp via "source" = Ok source -> sourceText source = Ok text ->
      text <> "" -> L k l1 l2 ->
      sameButId a b -> Vulnerability.package a = pkg ->
      Vulnerability.id a = text -> Vulnerability.id b = text ->
      L k (l1 ++ [a])%list (l2 ++ [b])%list) ->
  (forall k l1 l2 a b source,
      getProp via "source" = Ok source -> sourceText source = Ok "" ->
      L k l1 l2 ->
      sameButId a b -> Vulnerability.package a = pkg ->
      Vulnerability.id a = synthesizedId now1 pkg k ->
      Vulnerability.id b = synthesizedId now2 pkg k ->
      L (S k) (l1 ++ [a])%list (l2 ++ [b])%list) ->
  simulates L (viaCallback now1 pkg vulnInfo via)
              (viaCallback now2 pkg vulnInfo via).
Proof.
  intros Hsourced Hsynth [acc1 k1] [acc2 k2] (Hk & Hacc & Heq).
  cbn [fst snd] in *. subst k2.
  assert (Hbase : related L (acc1, k1) (acc2, k1)) by (repeat split; auto).
  assert (Hstop : thrown L (acc1, k1) (acc2, k1))
    by now apply related_thrown.
  unfold viaCallback, vulnerabilityId, bindS, liftS, getS, putS, retS.
  destruct (typeofObject via); [|cbn; auto].
  destruct (getProp via "source") as [source|] eqn:Hsource; [|exact Hstop].
  destruct (if truthy source then Ok source else getProp via "title")
    as [sourceOrTitle|]; [|exact Hstop].
  destruct (truthy sourceOrTitle); [|cbn; auto].
  fold (sourceText source).
  destruct (sourceText source) as [text|] eqn:Htext; [|exact Hstop].
  destruct (String.eqb_spec text "") as [Hempty|Hfull]; cbn [negb fst snd].
  - assert (Hread : thrown L (acc1, S k1) (acc2, S k1)).
    { repeat split; [eauto|discriminate]. }
    subst text.
    destruct (getProp via "range") as [range|]; [|exact Hread].
    destruct (getProp via "severity") as [sev|]; [|exact Hread].
    destruct (normalizeSeverity sev) as [severity|]; [|exact Hread].
    destruct (getProp via "title") as [description|]; [|exact Hread].
    destruct (getProp vulnInfo "fixAvailable") as [fixAvailable|];
      [|exact Hread].
    destruct (getOpt fixAvailable "version") as [fixVersion|]; [|exact Hread].
    cbn. split; [reflexivity|]. repeat split; [|discriminate].
    apply (Hsynth _ _ _ _ _ source eq_refl Htext Hacc);
      try reflexivity. repeat split.
  - destruct (getProp via "range") as [range|]; [|exact Hstop].
    destruct (getProp via "severity") as [sev|]; [|exact Hstop].
    destruct (normalizeSeverity sev) as [severity|]; [|exact Hstop].
    destruct (getProp via "title") as [description|]; [|exact Hstop].
    destruct (getProp vulnInfo "fixAvailable") as [fixAvailable|];
      [|exact Hstop].
    destruct (getOpt fixAvailable "version") as [fixVersion|]; [|exact Hstop].
    cbn. split; [reflexivity|]. repeat split.
    + apply (Hsourced _ _ _ _ _ source text eq_refl Htext Hfull Hacc);
        try reflexivity. repeat split.
    + intros H0. now rewrite (Heq H0).
Qed.

Lemma packageLoopBody_simulates npmAudit now1 now2 vulns pkg vulnInfo :
  getProp npmAudit "vulnerabilities" = Ok vulns ->
  In (pkg, vulnInfo) (ownEntries vulns) ->
  simulates (paired npmAudit now1 now2)
            (packageLoopBody now1 (pkg, vulnInfo))
            (packageLoopBody now2 (pkg, vulnInfo)).
Proof.
  intros Hvulns Hin. unfold packageLoopBody.
  apply simulates_lift_eq. intros via Hvia.
  destruct via; try apply simulates_ret.
  apply simulates_forEach. intros x Hx. apply viaCallback_simulates.
  - intros k l1 l2 a b source text Hsource Htext Hfull HL Hsame Hpkg Ha Hb.
    apply (paired_sourced _ _ _ k l1 l2 a b text); try assumption.
    rewrite Hpkg.
    exact (ex_intro _ vulns (ex_intro _ vulnInfo (ex_intro _ _ (ex_intro _ x
             (ex_intro _ source
                (conj Hvulns (conj Hin (conj Hvia (conj Hx
                   (conj Hsource Htext)))))))))).
  - intros k l1 l2 a b source Hsource Htext HL Hsame Hpkg Ha Hb.
    apply paired_synthesized; try assumption; try (now rewrite Hpkg).
    rewrite Hpkg.
    exact (ex_intro _ vulns (ex_intro _ vulnInfo (ex_intro _ _ (ex_intro _ x
             (ex_intro _ source
                (conj Hvulns (conj Hin (conj Hvia (conj Hx
                   (conj Hsource Htext)))))))))).
Qed.

Lemma processVulnerabilitiesBody_simulates now1 now2 npmAudit :
  simulates (paired npmAudit now1 now2)
            (processVulnerabilitiesBody now1 npmAudit)
            (processVulnerabilitiesBody now2 npmAudit).
Proof.
  unfold processVulnerabilitiesBody.
  apply simulates_lift_eq. intros vulns Hvulns.
  destruct (truthy vulns); [|apply simulates_ret].
  apply simulates_forEach. intros [pkg vulnInfo] Hin.
  now apply (packageLoopBody_simulates npmAudit now1 now2 vulns).
Qed.

(** What the two runs of [processVulnerabilities] leave behind. *)
Lemma processVulnerabilities_runs now1 now2 npmAudit :
  thrown (paired npmAudit now1 now2)
         (snd (processVulnerabilitiesBody now1 npmAudit ([], 0%nat)))
         (snd (processVulnerabilitiesBody now2 npmAudit ([], 0%nat))).
Proof.
  assert (S0 : related (paired npmAudit now1 now2) ([], 0%nat) ([], 0%nat)).
  { repeat split. constructor. }
  pose proof (processVulnerabilitiesBody_simulates now1 now2 npmAudit
                _ _ S0) as H.
  destruct (processVulnerabilitiesBody now1 npmAudit ([], 0%nat))
    as [[a1|e1] s1'],
           (processVulnerabilitiesBody now2 npmAudit ([], 0%nat))
    as [[a2|e2] s2']; try contradiction; cbn [snd].
  - now apply related_thrown.
  - exact H.
Qed.

Lemma processVulnerabilities_up_to_ids now1 now2 npmAudit :
  exists k,
    paired npmAudit now1 now2 k
           (processVulnerabilities now1 npmAudit)
           (processVulnerabilities now2 npmAudit).
Proof.
  unfold processVulnerabilities, swallowS. cbn [snd].
  now destruct (processVulnerabilities_runs now1 now2 npmAudit)
    as (_ & H & _).
Qed.

Lemma processVulnerabilities_no_reading now1 now2 npmAudit :
  clockReadings now1 npmAudit = 0%nat ->
  processVulnerabilities now1 npmAudit = processVulnerabilities now2 npmAudit.
Proof.
  unfold clockReadings, processVulnerabilities, swallowS. cbn [snd].
  intros H0.
  destruct (processVulnerabilities_runs now1 now2 npmAudit) as (_ & _ & H).
  now apply H.
Qed.

Lemma paired_sameButId npmAudit now1 now2 k l1 l2 :
  paired npmAudit now1 now2 k l1 l2 -> Forall2 sameButId l1 l2.
Proof.
  induction 1; [constructor| |];
    (apply Forall2_app; [assumption|now constructor]).
Qed.

Lemma countSeverity_up_to_ids sev l1 l2 :
  Forall2 sameButId l1 l2 -> countSeverity sev l1 = countSeverity sev l2.
Proof.
  unfold countSeverity. intros H. f_equal.
  induction H as [|a b l1 l2 (_ & _ & Hs & _) _ IH]; [reflexivity|].
  cbn [filter]. rewrite Hs.
  destruct (match Vulnerability.severity b, sev with
            | Critical, Critical | High, High | Moderate, Moderate
            | Low, Low | Unknown, Unknown => true
            | _, _ => false
            end); cbn [List.length]; now rewrite IH.
Qed.

Lemma fillReport_up_to_ids npmAudit now1 now2 report l1 l2 :
  (exists k, paired npmAudit now1 now2 k l1 l2) ->
  sameButIds npmAudit now1 now2 (fillReport report l1) (fillReport report l2).
Proof.
  intros [k H]. unfold sameButIds, fillReport, calculateHealthScore.
  cbn [DependencyReport.dependencies DependencyReport.devDependencies
       DependencyReport.healthScore DependencyReport.outdated
       DependencyReport.summary DependencyReport.totalDependencies
       DependencyReport.vulnerabilities
       Summary.critical Summary.high Summary.moderate Summary.low
       Summary.totalDeps Summary.totalDevDeps].
  pose proof (paired_sameButId _ _ _ _ _ _ H) as H'.
  rewrite !(countSeverity_up_to_ids _ l1 l2 H').
  repeat split; try reflexivity. now exists k.
Qed.

End WithRuntime.

End ClockFacts.
(* ================================================================== *)
(** * Facts about the utility methods *)
(* ================================================================== *)

Module UtilityFacts.
Import Str Vocab StrFacts DecimalText Semver SemverFacts DiffFacts ScoreFacts.
Import JS AnalyzerService SemverFunctions AnalyzerUtilities UtilVocab.

Lemma clean_cleaned s : clean s = option_map format (cleaned s).
Proof. reflexivity. Qed.

Lemma cleaned_parsed s v : cleaned s = Some v -> parsed v.
Proof. intros H. now exists (dropWhile isEqOrV (trim s)). Qed.

Lemma parsed_format v : parsed v -> construct (format v) = Some (release v).
Proof. intros [s H]. exact (construct_format s v H). Qed.

Lemma majorOf_parsed v : parsed v -> majorOf (format v) = Ok (major v).
Proof. intros [s H]. exact (majorOf_format s v H). Qed.

Lemma minorOf_parsed v : parsed v -> minorOf (format v) = Ok (minor v).
Proof. intros [s H]. exact (minorOf_format s v H). Qed.

Lemma patchOf_parsed v : parsed v -> patchOf (format v) = Ok (patch v).
Proof. intros [s H]. exact (patchOf_format s v H). Qed.

Lemma hasBreakingChanges_cleaned c l :
  hasBreakingChanges c l
  = match cleaned c, cleaned l with
    | Some vc, Some vl => (major vc <? major vl)%N
    | _, _ => false
    end.
Proof.
  unfold hasBreakingChanges. rewrite !clean_cleaned.
  destruct (cleaned c) as [vc|] eqn:Hc; [|reflexivity].
  destruct (cleaned l) as [vl|] eqn:Hl; [|reflexivity].
  cbn [option_map].
  rewrite (majorOf_parsed vc (cleaned_parsed c vc Hc)),
          (majorOf_parsed vl (cleaned_parsed l vl Hl)).
  reflexivity.
Qed.

Lemma areVersionsCompatible_cleaned a b :
  areVersionsCompatible a b
  = match cleaned a, cleaned b with
    | Some va, Some vb => (major va =? major vb)%N
    | _, _ => false
    end.
Proof.
  unfold areVersionsCompatible. rewrite !clean_cleaned.
  destruct (cleaned a) as [va|] eqn:Ha; [|reflexivity].
  destruct (cleaned b) as [vb|] eqn:Hb; [|reflexivity].
  cbn [option_map].
  rewrite (majorOf_parsed va (cleaned_parsed a va Ha)),
          (majorOf_parsed vb (cleaned_parsed b vb Hb)).
  reflexivity.
Qed.

Lemma majorVersionsBehind_cleaned c l :
  VersionDistance.majorVersionsBehind (calculateVersionDistance c l)
  = match cleaned c, cleaned l with
    | Some vc, Some vl => (Z.of_N (major vl) - Z.of_N (major vc))%Z
    | _, _ => 0%Z
    end.
Proof.
  unfold calculateVersionDistance. rewrite !clean_cleaned.
  destruct (cleaned c) as [vc|] eqn:Hc; [|reflexivity].
  destruct (cleaned l) as [vl|] eqn:Hl; [|reflexivity].
  cbn [option_map].
  pose proof (cleaned_parsed c vc Hc) as Pc.
  pose proof (cleaned_parsed l vl Hl) as Pl.
  rewrite (majorOf_parsed vl Pl), (majorOf_parsed vc Pc),
          (minorOf_parsed vl Pl), (minorOf_parsed vc Pc),
          (patchOf_parsed vl Pl), (patchOf_parsed vc Pc).
  destruct (NumberFacts.parsed_bounds vc Pc) as (Ca & _).
  destruct (NumberFacts.parsed_bounds vl Pl) as (La & _).
  cbn [bind orReturn VersionDistance.majorVersionsBehind].
  now apply NumberFacts.sub_safe.
Qed.

Lemma determineUpdateType_cleaned c l :
  determineUpdateType c l
  = match cleaned c, cleaned l with
    | Some vc, Some vl => updateOf (diffSemVer vc vl)
    | _, _ => UPatch
    end.
Proof.
  unfold determineUpdateType. rewrite !clean_cleaned.
  destruct (cleaned c) as [vc|] eqn:Hc; [|reflexivity].
  destruct (cleaned l) as [vl|] eqn:Hl; [|reflexivity].
  cbn [option_map].
  unfold diff, constructOrThrow.
  rewrite (parsed_format vc (cleaned_parsed c vc Hc)),
          (parsed_format vl (cleaned_parsed l vl Hl)).
  simpl. rewrite diffSemVer_release.
  now destruct (diffSemVer vc vl) as [[]|].
Qed.

Lemma compareSemVer_major_lt v o :
  parsed v -> parsed o -> (major v < major o)%N -> compareSemVer v o = (-1)%Z.
Proof.
  intros [sv Hv] [so Ho] Hlt. unfold compareSemVer.
  destruct (format o =? format v) eqn:E.
  - apply String.eqb_eq in E.
    pose proof (format_inj so sv o v Ho Hv E) as R.
    apply (f_equal major) in R. simpl in R. lia.
  - unfold compareMain, orZ.
    apply N.compare_lt_iff in Hlt. now rewrite Hlt.
Qed.

Lemma major_lt_update v o :
  parsed v -> parsed o -> (major v < major o)%N ->
  updateOf (diffSemVer v o) = UMajor.
Proof.
  intros Pv Po Hlt. unfold diffSemVer.
  rewrite (compareSemVer_major_lt v o Pv Po Hlt). cbn [Z.eqb Z.ltb Z.compare].
  cbv iota.
  assert (Hne : (major v =? major o)%N = false) by (apply N.eqb_neq; lia).
  rewrite Hne. cbn [negb].
  assert (Hm : (compareMain v o =? 0)%Z = false).
  { apply Z.eqb_neq. intros E. apply compareMain_zero in E. lia. }
  rewrite Hm.
  destruct (hasPre v), (hasPre o), (patch v =? 0)%N, (minor v =? 0)%N;
    reflexivity.
Qed.

Lemma toDouble_safe n :
  (toDouble n <? MAX_SAFE_INTEGER)%N = true -> toDouble n = n.
Proof.
  unfold toDouble. destruct (n <? 2 ^ 53)%N eqn:E; [reflexivity|].
  intros H. exfalso. apply N.ltb_lt in H. apply N.ltb_ge in E.
  revert H.
  set (k := (N.log2 n - 52)%N).
  set (q := N.shiftr n k).
  intros H.
  assert (Hn : (0 < n)%N) by (change (2^53)%N with 9007199254740992%N in E; lia).
  pose proof (N.log2_spec n Hn) as [Hlo Hhi].
  assert (Hlog : (53 <= N.log2 n)%N).
  { apply N.log2_le_pow2; [exact Hn|exact E]. }
  assert (Hq : (2 ^ 52 <= q)%N).
  { unfold q. rewrite N.shiftr_div_pow2.
    apply N.div_le_lower_bound; [apply N.pow_nonzero; discriminate|].
    rewrite <- N.pow_add_r.
    replace (k + 52)%N with (N.log2 n) by (unfold k; lia). exact Hlo. }
  assert (Hk : (1 <= k)%N) by (unfold k; lia).
  assert (Hshift : forall x, (q <= x)%N -> (2 ^ 53 <= N.shiftl x k)%N).
  { intros x Hx. rewrite N.shiftl_mul_pow2.
    change (2 ^ 53)%N with (2 ^ 52 * 2 ^ 1)%N.
    apply N.mul_le_mono; [lia|].
    apply N.pow_le_mono_r; [discriminate|exact Hk]. }
  destruct ((N.shiftl 1 (k - 1) <? N.land n (N.ones k))%N
            || (N.land n (N.ones k) =? N.shiftl 1 (k - 1))%N && N.odd q).
  - specialize (Hshift (q + 1)%N ltac:(lia)).
    change MAX_SAFE_INTEGER with 9007199254740991%N in H.
    change (2^53)%N with 9007199254740992%N in Hshift. lia.
  - specialize (Hshift q ltac:(lia)).
    change MAX_SAFE_INTEGER with 9007199254740991%N in H.
    change (2^53)%N with 9007199254740992%N in Hshift. lia.
Qed.

Lemma isNumeric_prerelease id :
  prereleaseIdentifier id = true -> isNumeric id = true ->
  canonicalNumeric id = true.
Proof.
  unfold prereleaseIdentifier, numericIdentifier, nonNumericIdentifier, isNumeric.
  intros H N.
  destruct (canonicalNumeric id); [reflexivity|]. simpl in H.
  apply andb_true_iff in H as [_ H]. apply andb_true_iff in N as [_ N].
  exfalso. clear -H N.
  induction id as [|c r IH]; simpl in *; [discriminate|].
  apply andb_true_iff in N as [Nc Nr].
  rewrite Nc in H. simpl in H. auto.
Qed.

Lemma identifierText_of id :
  prereleaseIdentifier id = true -> identifierText (identifierOf id) = id.
Proof.
  intros H. unfold identifierOf.
  destruct (isNumeric id) eqn:N; [|reflexivity].
  destruct (toDouble (decimalValue id) <? MAX_SAFE_INTEGER)%N eqn:S; [|reflexivity].
  simpl. rewrite (toDouble_safe _ S).
  apply canonical_roundtrip. now apply isNumeric_prerelease.
Qed.

Lemma map_identifierText ids :
  List.forallb prereleaseIdentifier ids = true ->
  map identifierText (map identifierOf ids) = ids.
Proof.
  induction ids as [|id r IH]; simpl; [reflexivity|].
  intros H. apply andb_true_iff in H as [H1 H2].
  now rewrite (identifierText_of id H1), (IH H2).
Qed.

Lemma parsed_prerelease v :
  parsed v -> List.forallb prereleaseIdentifier (prerelease v) = true.
Proof.
  intros [s H]. apply construct_inv in H as [_ H].
  apply matchPlain_inv in H. open_match H.
  apply identifiers_inv in Hpre. destruct pre as [text|].
  - destruct Hpre as [E F]. exact F.
  - now rewrite Hpre.
Qed.

Lemma analyzeVersion_cleaned s :
  analyzeVersion s = option_map analysisOf (cleaned s).
Proof.
  unfold analyzeVersion. rewrite clean_cleaned.
  destruct (cleaned s) as [v|] eqn:Hv; [|reflexivity].
  cbn [option_map].
  pose proof (cleaned_parsed s v Hv) as P.
  rewrite (majorOf_parsed v P), (minorOf_parsed v P), (patchOf_parsed v P).
  cbn [bind orReturn]. unfold prereleaseOf, parse.
  rewrite (parsed_format v P). reflexivity.
Qed.

Lemma format_release v : format (release v) = format v.
Proof. reflexivity. Qed.

Lemma cleaned_construct s v : construct s = Some v -> cleaned s = Some v.
Proof.
  intros H. apply construct_inv in H as [Hl H].
  unfold cleaned, parse. rewrite (dropWhile_trimmed s v H).
  apply construct_plain; [|exact H].
  pose proof (length_dropV (trim s)). pose proof (length_trim s). lia.
Qed.

Lemma cleaned_format v : parsed v -> cleaned (format v) = Some (release v).
Proof. intros P. apply cleaned_construct, parsed_format, P. Qed.

Lemma analyzeVersion_fixed s a :
  analyzeVersion s = Some a ->
  analyzeVersion (VersionAnalysis.version a) = Some a.
Proof.
  rewrite analyzeVersion_cleaned.
  destruct (cleaned s) as [v|] eqn:Hv; [|discriminate].
  intros E. injection E as <-. cbn [analysisOf VersionAnalysis.version].
  rewrite analyzeVersion_cleaned, (cleaned_format v (cleaned_parsed s v Hv)).
  reflexivity.
Qed.

Lemma analyzeVersion_text s a :
  analyzeVersion s = Some a ->
  VersionAnalysis.version a
  = ofN (VersionAnalysis.major a) ++ "." ++ ofN (VersionAnalysis.minor a)
    ++ "." ++ ofN (VersionAnalysis.patch a)
    ++ match VersionAnalysis.prerelease a with
       | None => ""
       | Some ids => "-" ++ join "." (map identifierText ids)
       end.
Proof.
  rewrite analyzeVersion_cleaned.
  destruct (cleaned s) as [v|] eqn:Hv; [|discriminate].
  intros E. injection E as <-.
  cbn [analysisOf VersionAnalysis.version VersionAnalysis.major
       VersionAnalysis.minor VersionAnalysis.patch VersionAnalysis.prerelease].
  unfold format.
  pose proof (parsed_prerelease v (cleaned_parsed s v Hv)) as F.
  destruct (prerelease v) as [|id ids] eqn:E; [reflexivity|].
  now rewrite (map_identifierText _ F).
Qed.

(* ---- compatibility ---- *)

Lemma areVersionsCompatible_sym a b :
  areVersionsCompatible a b = areVersionsCompatible b a.
Proof.
  rewrite !areVersionsCompatible_cleaned.
  destruct (cleaned a), (cleaned b); try reflexivity. apply N.eqb_sym.
Qed.

Lemma areVersionsCompatible_trans a b c :
  areVersionsCompatible a b = true -> areVersionsCompatible b c = true ->
  areVersionsCompatible a c = true.
Proof.
  rewrite !areVersionsCompatible_cleaned.
  destruct (cleaned a), (cleaned b), (cleaned c); try discriminate.
  rewrite !N.eqb_eq. congruence.
Qed.

Lemma areVersionsCompatible_refl a :
  areVersionsCompatible a a = true <-> clean a <> None.
Proof.
  rewrite areVersionsCompatible_cleaned, clean_cleaned.
  destruct (cleaned a); simpl.
  - rewrite N.eqb_refl. split; [discriminate|reflexivity].
  - split; [discriminate|congruence].
Qed.

Lemma trim_head c r :
  isWhiteSpace c = false -> exists r', trim (String c r) = String c r'.
Proof.
  intros H. unfold trim. simpl. rewrite H. simpl. rewrite H.
  destruct (trimEnd r); eauto.
Qed.

Lemma construct_head s v :
  construct s = Some v ->
  exists c r, trim s = String c r /\ (isDigit c = true \/ c = "v"%char).
Proof.
  intros H. apply construct_inv in H as [_ H].
  pose proof (matchPlain_inv _ _ H) as M.
  destruct (text_head _ _ M) as (d & r & E & Hd).
  destruct (dropV_spec (trim s)) as [E'|E'].
  - rewrite E' in E. eauto.
  - rewrite E'. eauto.
Qed.

Lemma operator_chars c :
  isRangeOperator c = true -> c <> "="%char ->
  isWhiteSpace c = false /\ isDigit c = false /\ isEqOrV c = false
  /\ c <> "v"%char.
Proof.
  intros H N.
  assert (E : Ascii.eqb c "=" = false) by now apply Ascii.eqb_neq.
  clear N. revert H E.
  destruct c as [[|] [|] [|] [|] [|] [|] [|] [|]]; vm_compute;
    intros; try discriminate; repeat split; try reflexivity; discriminate.
Qed.

Lemma cleaned_operator range c rest :
  trim range = String c rest ->
  isRangeOperator c = true -> c <> "="%char ->
  cleaned range = None.
Proof.
  intros E Hop Hne.
  destruct (operator_chars c Hop Hne) as (Hws & Hd & Hev & Hv).
  unfold cleaned. rewrite E. simpl. rewrite Hev.
  unfold parse. destruct (construct (String c rest)) as [v|] eqn:C; [|reflexivity].
  exfalso. apply construct_head in C as (c' & r' & E' & H').
  destruct (trim_head c rest Hws) as [r'' T]. rewrite T in E'.
  injection E' as <- _. destruct H' as [H'|H']; congruence.
Qed.

(* ---- extractVersionFromRange ---- *)

Lemma remove_prefix p t :
  forallb isRangeOperator p = true ->
  remove isRangeOperator (p ++ t) = remove isRangeOperator t.
Proof.
  induction p as [|c p IH]; simpl; [reflexivity|].
  intros H. apply andb_true_iff in H as [Hc Hp]. rewrite Hc. auto.
Qed.

Lemma remove_none (p : ascii -> bool) t :
  forallb (fun c => negb (p c)) t = true -> remove p t = t.
Proof.
  induction t as [|c t IH]; simpl; [reflexivity|].
  intros H. apply andb_true_iff in H as [Hc Ht].
  apply negb_true_iff in Hc. rewrite Hc. now rewrite IH.
Qed.

Lemma forallb_trimStart (q : ascii -> bool) s :
  (forall c, isWhiteSpace c = true -> q c = true) ->
  forallb q (trimStart s) = true -> forallb q s = true.
Proof.
  intros W. induction s as [|c s IH]; simpl; [reflexivity|].
  destruct (isWhiteSpace c) eqn:E.
  - intros H. rewrite (W c E). simpl. auto.
  - simpl. auto.
Qed.

Lemma forallb_trimEnd (q : ascii -> bool) s :
  (forall c, isWhiteSpace c = true -> q c = true) ->
  forallb q (trimEnd s) = true -> forallb q s = true.
Proof.
  intros W. induction s as [|c s IH]; simpl; [reflexivity|].
  destruct (trimEnd s) as [|c' r'] eqn:E.
  - destruct (isWhiteSpace c) eqn:Ec.
    + intros _. rewrite (W c Ec). simpl. apply IH. reflexivity.
    + simpl. intros H. apply andb_true_iff in H as [Hc _]. rewrite Hc. simpl.
      apply IH. reflexivity.
  - simpl. intros H. apply andb_true_iff in H as [Hc Hr]. rewrite Hc. simpl.
    apply IH. exact Hr.
Qed.

Lemma forallb_trim (q : ascii -> bool) s :
  (forall c, isWhiteSpace c = true -> q c = true) ->
  forallb q (trim s) = true -> forallb q s = true.
Proof.
  intros W H. apply (forallb_trimStart q s W), (forallb_trimEnd q _ W), H.
Qed.

Lemma version_plain c : versionChar c = true -> plainChar c = true.
Proof. by_cases c. Qed.
Lemma space_plain c : isWhiteSpace c = true -> plainChar c = true.
Proof. by_cases c. Qed.

Lemma construct_plainChars t v :
  construct t = Some v -> forallb plainChar t = true.
Proof.
  intros H. apply construct_inv in H as [_ H].
  pose proof (matchPlain_inv _ _ H) as M.
  pose proof (text_chars _ _ M) as C.
  apply forallb_trim; [exact space_plain|].
  destruct (dropV_spec (trim t)) as [E|E].
  - rewrite E in C. apply (forallb_impl _ _ _ version_plain), C.
  - rewrite E. simpl. apply (forallb_impl _ _ _ version_plain), C.
Qed.

Lemma trim_trim_construct t v :
  construct t = Some v -> construct (trim t) = Some v.
Proof.
  intros H. apply construct_inv in H as [Hl H].
  pose proof (matchPlain_inv _ _ H) as M.
  pose proof (text_chars _ _ M) as C.
  assert (N : forallb notSpace (trim t) = true).
  { destruct (dropV_spec (trim t)) as [E|E].
    - rewrite E in C. apply (forallb_impl _ _ _ version_notSpace), C.
    - rewrite E. simpl.
      apply (forallb_impl _ _ _ version_notSpace), C. }
  unfold construct, matchFull.
  pose proof (length_trim t).
  destruct (Nat.ltb_spec MAX_LENGTH (String.length (trim t))); [lia|].
  now rewrite (trim_id _ N).
Qed.

Lemma extractVersionFromRange_prefixed p t v :
  forallb isRangeOperator p = true ->
  construct t = Some v ->
  extractVersionFromRange (JStr (p ++ t)) = Ok (Some (format v)).
Proof.
  intros Hp Ht. unfold extractVersionFromRange.
  rewrite (remove_prefix p t Hp).
  rewrite (remove_none _ t (construct_plainChars t v Ht)).
  unfold valid, parse. now rewrite (trim_trim_construct t v Ht).
Qed.

End UtilityFacts.

Module ArrayFacts.
Import JSArray ArrayVocab.

Section Sorting.
Context {A : Type}.
Variable compareFn : A -> A -> result Z.
Variable D : A -> Prop.
Variable key : A -> A -> Z.
Hypothesis compare_defined :
  forall a b, D a -> D b -> compareFn a b = Ok (key a b).
Hypothesis key_anti : forall a b, key b a = (- key a b)%Z.

Lemma insertBy_spec x l :
  D x -> Forall D l ->
  exists l',
    insertBy compareFn x l = Ok l' /\ Permutation (x :: l) l'
    /\ (forall y, inOrder D key y x ->
                  HdRel (inOrder D key) y l -> HdRel (inOrder D key) y l')
    /\ (Sorted (inOrder D key) l -> Sorted (inOrder D key) l').
Proof.
  intros Hx Hl. induction Hl as [|y r Hy Hr IH].
  - exists [x]. cbn. repeat split; auto.
  - destruct IH as (r' & Hins & Hperm & Hhd & Hsorted).
    cbn [insertBy]. rewrite (compare_defined y x Hy Hx). cbn [bind].
    destruct (Z.ltb_spec 0 (key y x)) as [Hpos|Hle].
    + exists (x :: y :: r). repeat split; auto.
      intros Hs. constructor; [assumption|]. constructor.
      repeat split; auto. rewrite (key_anti y x). lia.
    + rewrite Hins. cbn [bind]. exists (y :: r'). repeat split.
      * etransitivity; [apply perm_swap|]. now apply perm_skip.
      * intros z Hzx Hz. constructor. now inversion Hz.
      * intros Hs. inversion Hs as [|? ? Hs' Hh]; subst.
        constructor; [now apply Hsorted|].
        apply Hhd; [|assumption]. repeat split; auto.
Qed.

Lemma sortBy_fold l :
  forall acc,
    Forall D acc -> Forall D l -> Sorted (inOrder D key) acc ->
    exists l',
      fold_left (fun acc x => l' <- acc ;; insertBy compareFn x l') l (Ok acc)
      = Ok l'
      /\ Permutation (acc ++ l)%list l' /\ Sorted (inOrder D key) l'.
Proof.
  induction l as [|x l IH]; intros acc Hacc Hl Hs.
  - exists acc. cbn. rewrite List.app_nil_r. auto.
  - inversion Hl as [|? ? Hx Hl']; subst.
    destruct (insertBy_spec x acc Hx Hacc) as (a' & Hins & Hperm & _ & Hsorted).
    cbn [fold_left bind]. rewrite Hins.
    destruct (IH a') as (l' & Hfold & Hp & Hs').
    + eapply Permutation_Forall; [exact Hperm|]. now constructor.
    + assumption.
    + now apply Hsorted.
    + exists l'. repeat split; [assumption| |assumption].
      etransitivity; [|exact Hp].
      etransitivity; [symmetry; apply Permutation_middle|].
      apply (Permutation_app_tail l Hperm).
Qed.

Lemma sortBy_spec l :
  Forall D l ->
  exists l',
    sortBy compareFn l = Ok l' /\ Permutation l l'
    /\ Sorted (inOrder D key) l'.
Proof.
  intros Hl. destruct (sortBy_fold l [] (Forall_nil _) Hl (Sorted_nil _))
    as (l' & H & Hp & Hs).
  exists l'. auto.
Qed.

(** With a transitive order on a part of the domain, a sorted array of
    such elements is sorted throughout. *)
Lemma Sorted_strong (E : A -> Prop) l :
  (forall x y z, E x -> E y -> E z ->
     (key x y <= 0)%Z -> (key y z <= 0)%Z -> (key x z <= 0)%Z) ->
  Forall E l -> Sorted (inOrder D key) l -> StronglySorted (inOrder D key) l.
Proof.
  intros T HE Hs. induction Hs as [|a l Hs IH Hh]; [constructor|].
  inversion HE as [|? ? Ea El]; subst.
  specialize (IH El). constructor; [assumption|].
  destruct Hh as [|b l' Hab]; [constructor|].
  constructor; [assumption|].
  inversion IH as [|? ? _ Hall]; subst.
  inversion El as [|? ? Eb El']; subst.
  rewrite Forall_forall in *.
  intros x Hx. destruct Hab as (Da & Db & Kab).
  destruct (Hall x Hx) as (_ & Dx & Kbx).
  repeat split; auto. apply (T a b x); auto.
Qed.

(** The comparator is called on every element of an array of two or
    more: when it throws outside [D], sorting such an array succeeds
    only if all its elements are in [D]. *)
Hypothesis compare_throws :
  forall a b c, compareFn a b = Ok c -> D a /\ D b.

Lemma fold_thrown l e :
  fold_left (fun acc x => l' <- acc ;; insertBy compareFn x l') l (Throw e)
  = Throw e.
Proof. induction l; simpl; auto. Qed.

Lemma insertBy_domain x y r l' :
  insertBy compareFn x (y :: r) = Ok l' -> D x /\ l' <> [].
Proof.
  cbn [insertBy]. destruct (compareFn y x) as [c|] eqn:E; [|discriminate].
  destruct (compare_throws y x c E) as [_ Dx]. cbn [bind].
  destruct (0 <? c)%Z.
  - intros H. injection H as <-. split; [assumption|discriminate].
  - destruct (insertBy compareFn x r); [|discriminate].
    cbn [bind]. intros H. injection H as <-. split; [assumption|discriminate].
Qed.

Lemma fold_domain l :
  forall acc l',
    acc <> [] ->
    fold_left (fun acc x => l' <- acc ;; insertBy compareFn x l') l (Ok acc)
    = Ok l' ->
    Forall D l.
Proof.
  induction l as [|x l IH]; intros acc l' Hne H; [constructor|].
  cbn [fold_left bind] in H.
  destruct acc as [|y r]; [contradiction|].
  destruct (insertBy compareFn x (y :: r)) as [a'|e] eqn:E.
  - destruct (insertBy_domain x y r a' E) as [Dx Hne'].
    constructor; [assumption|]. exact (IH a' l' Hne' H).
  - rewrite fold_thrown in H. discriminate.
Qed.

Lemma sortBy_domain x y l l' :
  sortBy compareFn (x :: y :: l) = Ok l' -> Forall D (x :: y :: l).
Proof.
  unfold sortBy. cbn [fold_left bind insertBy].
  destruct (compareFn x y) as [c|] eqn:E;
    [|cbn [bind]; rewrite fold_thrown; intros H; discriminate H].
  destruct (compare_throws x y c E) as [Dx Dy]. cbn [bind].
  intros H. constructor; [assumption|]. constructor; [assumption|].
  destruct (0 <? c)%Z; cbn [bind] in H;
    (eapply fold_domain; [|exact H]; discriminate).
Qed.

End Sorting.

End ArrayFacts.

Module OrderFacts.
Import Str Vocab StrFacts DecimalText Semver SemverFacts DiffFacts SortFacts.
Import SemverFunctions OrderVocab.

Lemma lex_trans {A} (D : A -> Prop) (c1 c2 : A -> A -> Z) :
  anti c1 -> transOn D c1 -> transOn D c2 ->
  transOn D (fun a b => orZ (c1 a b) (c2 a b)).
Proof.
  intros A1 T1 T2 x y z Dx Dy Dz. unfold orZ.
  pose proof (T1 x y z Dx Dy Dz) as Hxyz.
  pose proof (T1 z x y Dz Dx Dy) as Hzxy.
  pose proof (T1 y z x Dy Dz Dx) as Hyzx.
  pose proof (T2 x y z Dx Dy Dz) as H2.
  rewrite (A1 x z) in Hzxy, Hyzx.
  rewrite (A1 y z) in Hzxy. rewrite (A1 x y) in Hyzx.
  destruct (Z.eqb_spec (c1 x y) 0), (Z.eqb_spec (c1 y z) 0),
           (Z.eqb_spec (c1 x z) 0); lia.
Qed.

Lemma anti_trans_zero {A} (c : A -> A -> Z) x : anti c -> c x x = 0%Z.
Proof. intros H. specialize (H x x). lia. Qed.

(* ---- code units and strings ---- *)

Lemma ascii_compare_lt_trans a b c :
  Ascii.compare a b = Lt -> Ascii.compare b c = Lt -> Ascii.compare a c = Lt.
Proof.
  unfold Ascii.compare. rewrite !N.compare_lt_iff. lia.
Qed.

Lemma string_compare_lt_trans a :
  forall b c, String.compare a b = Lt -> String.compare b c = Lt ->
              String.compare a c = Lt.
Proof.
  induction a as [|x a IH]; intros [|y b] [|z c]; simpl; try discriminate; auto.
  destruct (Ascii.compare x y) eqn:Exy; try discriminate.
  - apply Ascii.compare_eq_iff in Exy. subst y.
    destruct (Ascii.compare x z) eqn:Exz; try discriminate; auto.
    apply IH.
  - destruct (Ascii.compare y z) eqn:Eyz; try discriminate.
    + apply Ascii.compare_eq_iff in Eyz. subst z. now rewrite Exy.
    + now rewrite (ascii_compare_lt_trans x y z Exy Eyz).
Qed.

Lemma ltb_trans a b c :
  String.ltb a b = true -> String.ltb b c = true -> String.ltb a c = true.
Proof.
  unfold String.ltb.
  destruct (String.compare a b) eqn:E1; try discriminate.
  destruct (String.compare b c) eqn:E2; try discriminate.
  now rewrite (string_compare_lt_trans a b c E1 E2).
Qed.

Lemma string_compare_refl a : String.compare a a = Eq.
Proof.
  induction a as [|x a IH]; simpl; [reflexivity|].
  unfold Ascii.compare. now rewrite N.compare_refl.
Qed.

Lemma ltb_irrefl a : String.ltb a a = false.
Proof. unfold String.ltb. now rewrite string_compare_refl. Qed.

(* ---- identifiers ---- *)

Lemma exact_numeric id :
  exactIdentifier id = true -> isNumeric id = true ->
  canonicalNumeric id = true /\ toDouble (decimalValue id) = decimalValue id.
Proof.
  unfold exactIdentifier. intros H Hnum. rewrite Hnum in H. simpl in H.
  apply andb_true_iff in H as [C L]. split; [exact C|].
  unfold toDouble.
  assert (K : forall n m k : N, m = k -> (n <? m)%N = true -> (n <? k)%N = true)
    by (intros; subst; assumption).
  now rewrite (K _ _ (2 ^ 53)%N eq_refl L).
Qed.

Lemma canonical_inj a b :
  canonicalNumeric a = true -> canonicalNumeric b = true ->
  decimalValue a = decimalValue b -> a = b.
Proof.
  intros Ha Hb E.
  rewrite <- (canonical_roundtrip a Ha), <- (canonical_roundtrip b Hb).
  now rewrite E.
Qed.

Lemma compareIdentifiers_zero a b :
  exactIdentifier a = true -> exactIdentifier b = true ->
  compareIdentifiers a b = 0%Z -> a = b.
Proof.
  intros Ea Eb. unfold compareIdentifiers.
  destruct (isNumeric a) eqn:Na, (isNumeric b) eqn:Nb; cbn [andb negb].
  - destruct (exact_numeric a Ea Na) as [Ca Ta].
    destruct (exact_numeric b Eb Nb) as [Cb Tb].
    rewrite Ta, Tb.
    destruct (N.compare_spec (decimalValue a) (decimalValue b)); simpl;
      try discriminate.
    intros _. now apply canonical_inj.
  - destruct (String.eqb_spec a b); [auto|discriminate].
  - destruct (String.eqb_spec a b); [auto|discriminate].
  - destruct (String.eqb_spec a b); [auto|].
    destruct (String.ltb a b); discriminate.
Qed.

Lemma compareIdentifiers_refl a : compareIdentifiers a a = 0%Z.
Proof. pose proof (compareIdentifiers_antisym a a). lia. Qed.

Lemma compareIdentifiers_trans :
  transOn (fun id => exactIdentifier id = true) compareIdentifiers.
Proof.
  intros a b c Ea Eb Ec. unfold compareIdentifiers.
  destruct (isNumeric a) eqn:Na, (isNumeric b) eqn:Nb, (isNumeric c) eqn:Nc;
    cbn [andb negb].
  - destruct (exact_numeric a Ea Na) as [_ ->].
    destruct (exact_numeric b Eb Nb) as [_ ->].
    destruct (exact_numeric c Ec Nc) as [_ ->].
    destruct (N.compare_spec (decimalValue a) (decimalValue b)),
             (N.compare_spec (decimalValue b) (decimalValue c)),
             (N.compare_spec (decimalValue a) (decimalValue c));
      simpl; lia.
  - intros _ _. destruct (a =? c); lia.
  - destruct (String.eqb_spec b c) as [->|]; [congruence|lia].
  - intros _ _. destruct (a =? c); lia.
  - destruct (String.eqb_spec a b) as [->|]; [congruence|lia].
  - destruct (String.eqb_spec a b) as [->|]; [congruence|lia].
  - intros _. destruct (String.eqb_spec b c) as [->|]; [congruence|lia].
  - destruct (String.eqb_spec a b) as [->|Hab].
    + auto.
    + destruct (String.eqb_spec b c) as [->|Hbc].
      * intros H _. destruct (String.eqb_spec a c); [contradiction|exact H].
      * destruct (String.ltb a b) eqn:Lab; [|lia].
        destruct (String.ltb b c) eqn:Lbc; [|lia].
        intros _ _. rewrite (ltb_trans a b c Lab Lbc).
        destruct (a =? c); lia.
Qed.

(* ---- lists of identifiers ---- *)

Lemma comparePreLoop_refl a : comparePreLoop a a = 0%Z.
Proof. pose proof (comparePreLoop_antisym a a). lia. Qed.

Lemma comparePreLoop_trans : transOn exactList comparePreLoop.
Proof.
  intros a. induction a as [|x a IH]; intros [|y b] [|z c] Da Db Dc;
    cbn [comparePreLoop]; try lia.
  unfold exactList in *. simpl in Da, Db, Dc.
  apply andb_true_iff in Da as [Ex Da].
  apply andb_true_iff in Db as [Ey Db].
  apply andb_true_iff in Dc as [Ez Dc].
  destruct (String.eqb_spec x y) as [->|Hxy].
  - destruct (String.eqb_spec y z) as [->|Hyz].
    + apply IH; assumption.
    + auto.
  - destruct (String.eqb_spec y z) as [->|Hyz].
    + destruct (String.eqb_spec x z); [contradiction|auto].
    + intros H1 H2.
      destruct (String.eqb_spec x z) as [->|Hxz].
      * exfalso. rewrite (compareIdentifiers_antisym z y) in H2.
        assert (E : compareIdentifiers z y = 0%Z) by lia.
        apply compareIdentifiers_zero in E; auto.
      * exact (compareIdentifiers_trans x y z Ex Ey Ez H1 H2).
Qed.

(* ---- versions ---- *)

Lemma exactParsed_pre v : exactParsed v -> exactList (prerelease v).
Proof. intros [_ H]. now apply andb_true_iff in H as [H _]. Qed.

Lemma exactParsed_build v : exactParsed v -> exactList (build v).
Proof. intros [_ H]. now apply andb_true_iff in H as [_ H]. Qed.

Lemma field_trans (f : SemVer -> N) (D : SemVer -> Prop) :
  transOn D (fun v o => signOf (f v ?= f o)%N).
Proof.
  intros x y z _ _ _.
  destruct (N.compare_spec (f x) (f y)), (N.compare_spec (f y) (f z)),
           (N.compare_spec (f x) (f z)); simpl; lia.
Qed.

Lemma field_anti (f : SemVer -> N) : anti (fun v o => signOf (f v ?= f o)%N).
Proof. intros x y. apply signOf_antisym. Qed.

Lemma compareMain_trans (D : SemVer -> Prop) : transOn D compareMain.
Proof.
  unfold compareMain.
  apply (lex_trans D (fun v o => signOf (major v ?= major o)%N));
    [apply field_anti|apply field_trans|].
  apply (lex_trans D (fun v o => signOf (minor v ?= minor o)%N));
    [apply field_anti|apply field_trans|apply field_trans].
Qed.

Lemma comparePre_trans : transOn exactParsed comparePre.
Proof.
  intros x y z Dx Dy Dz. unfold comparePre, hasPre.
  pose proof (comparePreLoop_trans (prerelease x) (prerelease y) (prerelease z)
                (exactParsed_pre x Dx) (exactParsed_pre y Dy)
                (exactParsed_pre z Dz)) as T.
  destruct (prerelease x), (prerelease y), (prerelease z);
    cbn [andb negb]; try lia; exact T.
Qed.

Lemma comparePre_same v o :
  prerelease v = prerelease o -> comparePre v o = 0%Z.
Proof.
  unfold comparePre, hasPre. intros ->.
  destruct (prerelease o); cbn [andb negb]; [reflexivity|].
  apply comparePreLoop_refl.
Qed.

Lemma compareSemVer_lex v o :
  parsed v -> parsed o ->
  compareSemVer v o = orZ (compareMain v o) (comparePre v o).
Proof.
  intros [sv Hv] [so Ho]. unfold compareSemVer.
  destruct (String.eqb_spec (format o) (format v)) as [E|]; [|reflexivity].
  pose proof (format_inj so sv o v Ho Hv E) as R.
  assert (M : compareMain v o = 0%Z).
  { apply compareMain_zero.
    pose proof (f_equal major R). pose proof (f_equal minor R).
    pose proof (f_equal patch R). simpl in *. auto. }
  rewrite M. unfold orZ. simpl. symmetry. apply comparePre_same.
  pose proof (f_equal prerelease R). simpl in *. auto.
Qed.

Lemma compareSemVer_trans : transOn exactParsed compareSemVer.
Proof.
  intros x y z Dx Dy Dz.
  rewrite (compareSemVer_lex x y (proj1 Dx) (proj1 Dy)),
          (compareSemVer_lex y z (proj1 Dy) (proj1 Dz)),
          (compareSemVer_lex x z (proj1 Dx) (proj1 Dz)).
  apply (lex_trans exactParsed compareMain comparePre); auto.
  - intros a b. apply compareMain_antisym.
  - apply compareMain_trans.
  - apply comparePre_trans.
Qed.

Lemma compareBuildSemVer_trans : transOn exactParsed compareBuildSemVer.
Proof.
  intros x y z Dx Dy Dz. unfold compareBuildSemVer.
  apply comparePreLoop_trans; now apply exactParsed_build.
Qed.

Lemma buildOrder_anti : anti buildOrder.
Proof.
  intros x y. unfold buildOrder, compareBuildSemVer.
  rewrite (compareSemVer_antisym x y), (comparePreLoop_antisym (build x) (build y)).
  apply orZ_opp.
Qed.

Lemma buildOrder_trans : transOn exactParsed buildOrder.
Proof.
  apply (lex_trans exactParsed compareSemVer compareBuildSemVer).
  - intros a b. apply compareSemVer_antisym.
  - apply compareSemVer_trans.
  - apply compareBuildSemVer_trans.
Qed.

End OrderFacts.

Module NewestFacts.
Import Str Vocab StrFacts Semver SemverFacts SortFacts.
Import SemverFunctions AnalyzerUtilities UtilVocab UtilityFacts.
Import JSArray ArrayVocab ArrayFacts OrderVocab OrderFacts NewestVocab.

Lemma rsort_defined a b :
  accepted a -> accepted b -> compareBuild b a = Ok (rsortKey a b).
Proof.
  intros [va Ha] [vb Hb]. unfold compareBuild, constructOrThrow, rsortKey.
  now rewrite Ha, Hb.
Qed.

Lemma rsortKey_anti a b : rsortKey b a = (- rsortKey a b)%Z.
Proof.
  unfold rsortKey. destruct (construct a), (construct b); try reflexivity.
  apply buildOrder_anti.
Qed.

Lemma rsort_throws a b c :
  compareBuild b a = Ok c -> accepted a /\ accepted b.
Proof.
  unfold compareBuild, constructOrThrow, accepted.
  destruct (construct b); [|discriminate].
  destruct (construct a); [|discriminate]. eauto.
Qed.

Lemma rsortKey_trans x y z :
  comparable x -> comparable y -> comparable z ->
  (rsortKey x y <= 0)%Z -> (rsortKey y z <= 0)%Z -> (rsortKey x z <= 0)%Z.
Proof.
  intros (vx & Hx & Ex) (vy & Hy & Ey) (vz & Hz & Ez).
  unfold rsortKey. rewrite Hx, Hy, Hz. intros H1 H2.
  apply (buildOrder_trans vz vy vx); try (split; [eexists; eassumption|assumption]);
    assumption.
Qed.

Lemma comparable_accepted s : comparable s -> accepted s.
Proof. intros (v & H & _). now exists v. Qed.

Lemma inOrder_notOlder a b : inOrder accepted rsortKey a b -> notOlder a b.
Proof.
  intros (Da & Db & K). exists (rsortKey b a). split.
  - apply rsort_defined; assumption.
  - rewrite rsortKey_anti. lia.
Qed.

Lemma StronglySorted_impl {A} (R R' : A -> A -> Prop) l :
  (forall a b, R a b -> R' a b) -> StronglySorted R l -> StronglySorted R' l.
Proof.
  intros H S. induction S; constructor; auto.
  eapply Forall_impl; [|eassumption]. auto.
Qed.

Lemma accepted_nonempty s : accepted s -> s <> "".
Proof.
  intros [v H] ->. apply construct_head in H as (c & r & E & _).
  discriminate E.
Qed.

Lemma notOlder_refl s : accepted s -> notOlder s s.
Proof.
  intros D. exists (rsortKey s s). split; [now apply rsort_defined|].
  pose proof (rsortKey_anti s s). lia.
Qed.

Lemma rsort_spec versions :
  Forall comparable versions ->
  exists sorted,
    rsort versions = Ok sorted /\ Permutation versions sorted
    /\ StronglySorted notOlder sorted.
Proof.
  intros Hc.
  assert (Ha : Forall accepted versions)
    by (eapply Forall_impl; [|exact Hc]; apply comparable_accepted).
  destruct (sortBy_spec (fun a b => compareBuild b a) accepted rsortKey
              rsort_defined rsortKey_anti versions Ha)
    as (sorted & Hs & Hp & Hsorted).
  exists sorted. repeat split; try assumption.
  apply (StronglySorted_impl (inOrder accepted rsortKey));
    [apply inOrder_notOlder|].
  apply (Sorted_strong accepted rsortKey comparable); try assumption.
  - apply rsortKey_trans.
  - eapply Permutation_Forall; eassumption.
Qed.

Lemma findNewestVersion_spec versions :
  versions <> [] -> Forall comparable versions ->
  exists newest sorted,
    findNewestVersion versions = (sorted, Some newest)
    /\ Permutation versions sorted /\ StronglySorted notOlder sorted
    /\ In newest versions
    /\ (forall x, In x versions -> notOlder newest x).
Proof.
  intros Hne Hc. destruct (rsort_spec versions Hc) as (sorted & Hs & Hp & Hss).
  destruct sorted as [|newest rest].
  - apply Permutation_sym, Permutation_nil in Hp. contradiction.
  - assert (Hin : In newest versions)
      by (eapply Permutation_in; [apply Permutation_sym, Hp|now left]).
    assert (Hacc : accepted newest).
    { apply comparable_accepted. rewrite Forall_forall in Hc. auto. }
    exists newest, (newest :: rest). unfold findNewestVersion. rewrite Hs.
    cbn [firstOrNull].
    destruct (String.eqb_spec newest "") as [E|_];
      [now apply accepted_nonempty in Hacc|].
    repeat split; try assumption.
    intros x Hx. apply (Permutation_in _ Hp) in Hx as [<-|Hx].
    + now apply notOlder_refl.
    + inversion Hss as [|? ? _ Hall]; subst.
      rewrite Forall_forall in Hall. auto.
Qed.

Lemma findNewestVersion_invalid versions x :
  (2 <= List.length versions)%nat -> In x versions -> parse x = None ->
  findNewestVersion versions = (versions, None).
Proof.
  intros Hlen Hin Hx. unfold findNewestVersion.
  destruct (rsort versions) as [sorted|e] eqn:E; [|reflexivity].
  exfalso. destruct versions as [|a [|b l]]; simpl in Hlen; try lia.
  apply (sortBy_domain (fun a b => compareBuild b a) accepted rsort_throws)
    in E.
  rewrite Forall_forall in E. destruct (E x Hin) as [v Hv].
  unfold parse in Hx. congruence.
Qed.

End NewestFacts.

Module EngineFacts.
Import JS Vocab AnalyzerService ObjFacts AuditFacts EngineVocab.
Import Semver SemverFacts DiffFacts ScoreFacts SortFacts.

Lemma In_assign {A} (o : list (string * A)) name v k x :
  In (k, x) (assign o name v) ->
  In (k, x) o \/ (k = name /\ x = v /\ name <> "__proto__").
Proof.
  unfold assign. destruct (String.eqb_spec name "__proto__") as [->|Hne];
    [auto|].
  unfold setProp. destruct (hasKey o name).
  - intros H. apply In_replaceProp in H as [[-> ->]|H]; auto.
  - intros H. apply In_insertProp in H as [[-> ->]|H]; auto.
Qed.

Lemma gtLatest_inv latest cur :
  gtLatest latest cur = Ok true ->
  exists l, latest = JStr l /\ gt l cur = Ok true.
Proof. destruct latest; simpl; try discriminate. eauto. Qed.

Lemma outdatedCallback_In w deps acc name range k i :
  In (name, range) deps ->
  In (k, i) (outdatedCallback w acc (name, range)) ->
  In (k, i) acc \/ recorded w deps k i.
Proof.
  intros Hin. unfold outdatedCallback, orReturn, bind, fetchPackageInfo.
  destruct (registry w name) as [info|] eqn:Hr; [|auto].
  destruct (getProp info "dist-tags") as [tags|] eqn:Ht; [|auto].
  destruct (getOpt tags "latest") as [latest|] eqn:Hl; [|auto].
  destruct (extractVersionFromRange range) as [[cur|]|] eqn:He; [|auto|auto].
  destruct (truthy latest); [|auto].
  destruct (gtLatest latest cur) as [[|]|] eqn:Hg; [|auto|auto].
  apply gtLatest_inv in Hg as (l & -> & Hg).
  intros H. apply In_assign in H as [H|(-> & -> & Hne)]; [now left|right].
  split; [assumption|]. exists range, info, tags. cbn. auto 10.
Qed.

Lemma outdated_fold_In w deps entries :
  incl entries deps ->
  forall acc k i,
    In (k, i) (fold_left (outdatedCallback w) entries acc) ->
    In (k, i) acc \/ recorded w deps k i.
Proof.
  induction entries as [|[name range] entries IH]; intros Hi acc k i; simpl;
    [auto|].
  intros H. apply IH in H as [H|H]; [|auto|].
  - eapply outdatedCallback_In; [|exact H]. apply Hi. now left.
  - intros x Hx. apply Hi. now right.
Qed.

Lemma outdatedCallback_nodup w acc entry :
  NoDup (keys acc) -> NoDup (keys (outdatedCallback w acc entry)).
Proof.
  destruct entry as [name range].
  unfold outdatedCallback, orReturn, bind. intros H.
  destruct (fetchPackageInfo w name) as [info|]; [|auto].
  destruct (getProp info "dist-tags") as [tags|]; [|auto].
  destruct (getOpt tags "latest") as [latest|]; [|auto].
  destruct (extractVersionFromRange range) as [[cur|]|]; [|auto|auto].
  destruct (truthy latest); [|auto].
  destruct (gtLatest latest cur) as [[|]|]; [|auto|auto].
  unfold assign. destruct (name =? "__proto__"); [auto|].
  now apply NoDup_setProp.
Qed.

Lemma outdated_fold_nodup w entries acc :
  NoDup (keys acc) -> NoDup (keys (fold_left (outdatedCallback w) entries acc)).
Proof.
  revert acc. induction entries as [|e entries IH]; intros acc H; simpl; auto.
  apply IH, outdatedCallback_nodup, H.
Qed.

Lemma In_ownGet (o : list (string * jsval)) k v :
  NoDup (keys o) -> In (k, v) o -> ownGet o k = Some v.
Proof.
  induction o as [|[k' v'] o IH]; simpl; [intros _ []|].
  intros Hnd. inversion Hnd as [|? ? Hnotin Hnd']; subst.
  intros [[= -> ->]|H].
  - now rewrite String.eqb_refl.
  - destruct (String.eqb_spec k' k) as [->|Hne]; [|auto].
    apply (in_map fst) in H. contradiction.
Qed.

Lemma mergedDependencies_nodup packageJson deps :
  mergedDependencies packageJson = Ok deps -> NoDup (keys deps).
Proof.
  unfold mergedDependencies, bind.
  destruct (getProp packageJson "dependencies"); [|discriminate].
  destruct (getProp packageJson "devDependencies"); [|discriminate].
  intros [= <-]. apply NoDup_spread2.
Qed.

(* ---- buildOutdatedList as a concatenation ---- *)

Lemma pushOutdated_app acc e :
  pushOutdated acc e = (acc ++ pushOutdated [] e)%list.
Proof.
  destruct e as [k i]. unfold pushOutdated. cbv zeta.
  destruct (Semver.valid (NpmOutdatedInfo.current i));
    [|now rewrite List.app_nil_r].
  destruct (Semver.valid (NpmOutdatedInfo.latest i));
    [|now rewrite List.app_nil_r].
  reflexivity.
Qed.

Lemma buildOutdatedList_flat npmOutdated acc :
  fold_left pushOutdated npmOutdated acc
  = (acc ++ flat_map (pushOutdated []) npmOutdated)%list.
Proof.
  revert acc. induction npmOutdated as [|e l IH]; intros acc; simpl.
  - now rewrite List.app_nil_r.
  - rewrite IH, (pushOutdated_app acc e). now rewrite <- List.app_assoc.
Qed.

Lemma pushOutdated_entry k i e :
  In e (pushOutdated [] (k, i)) ->
  OutdatedPackage.package e = k
  /\ OutdatedPackage.current e = NpmOutdatedInfo.current i
  /\ OutdatedPackage.latest e = NpmOutdatedInfo.latest i
  /\ OutdatedPackage.type e
     = determineUpdateType (NpmOutdatedInfo.current i) (NpmOutdatedInfo.latest i).
Proof.
  unfold pushOutdated. cbv zeta.
  destruct (Semver.valid (NpmOutdatedInfo.current i)); [|intros []].
  destruct (Semver.valid (NpmOutdatedInfo.latest i)); [|intros []].
  intros [<-|[]]. auto.
Qed.

Lemma buildOutdatedList_In npmOutdated e :
  In e (buildOutdatedList npmOutdated) ->
  exists i,
    In (OutdatedPackage.package e, i) npmOutdated
    /\ OutdatedPackage.current e = NpmOutdatedInfo.current i
    /\ OutdatedPackage.latest e = NpmOutdatedInfo.latest i
    /\ OutdatedPackage.type e
       = determineUpdateType (OutdatedPackage.current e)
                             (OutdatedPackage.latest e).
Proof.
  unfold buildOutdatedList. rewrite buildOutdatedList_flat. simpl.
  intros H. apply in_flat_map in H as ([k i] & Hin & H).
  apply pushOutdated_entry in H as (<- & Hc & Hl & Ht).
  exists i. rewrite Hc, Hl. auto.
Qed.

Lemma buildOutdatedList_nodup npmOutdated :
  NoDup (keys npmOutdated) ->
  NoDup (map OutdatedPackage.package (buildOutdatedList npmOutdated)).
Proof.
  unfold buildOutdatedList. rewrite buildOutdatedList_flat. simpl.
  induction npmOutdated as [|[k i] l IH]; simpl; [constructor|].
  intros Hnd. inversion Hnd as [|? ? Hnotin Hnd']; subst.
  rewrite map_app. apply NoDup_app; [| now apply IH |].
  - unfold pushOutdated. cbv zeta.
    destruct (Semver.valid (NpmOutdatedInfo.current i)); [|constructor].
    destruct (Semver.valid (NpmOutdatedInfo.latest i)); [|constructor].
    simpl. repeat constructor. intros [].
  - intros x Hx Hx'.
    apply in_map_iff in Hx as (e & <- & He).
    apply pushOutdated_entry in He as (Hk & _).
    apply in_map_iff in Hx' as (e' & Heq & He').
    apply in_flat_map in He' as ([k' i'] & Hin & He').
    apply pushOutdated_entry in He' as (Hk' & _).
    apply Hnotin. apply (in_map fst) in Hin. simpl in Hin.
    assert (E : k = k') by congruence. now rewrite E.
Qed.

Section WithRuntime.
Context {RT : Runtime}.

Lemma generateDependencyReport_inv w now packageJson report :
  generateDependencyReport w now packageJson = Ok report ->
  exists deps,
    mergedDependencies packageJson = Ok deps
    /\ DependencyReport.outdated report
       = buildOutdatedList
           (fold_left (outdatedCallback w)
                      (completionOrder (completion w) deps) [])
    /\ DependencyReport.vulnerabilities report
       = processVulnerabilities now (getNpmAudit w).
Proof.
  unfold generateDependencyReport, tryCatch, getOutdatedFast, bind.
  destruct (mergedDependencies packageJson) as [deps|]; [|discriminate].
  destruct (getProp packageJson "dependencies"); [|discriminate].
  destruct (getProp packageJson "devDependencies"); [|discriminate].
  intros [= <-]. exists deps. auto.
Qed.

Lemma outdated_recorded w now packageJson report e :
  generateDependencyReport w now packageJson = Ok report ->
  In e (DependencyReport.outdated report) ->
  exists deps info,
    mergedDependencies packageJson = Ok deps
    /\ recorded w deps (OutdatedPackage.package e) info
    /\ OutdatedPackage.current e = NpmOutdatedInfo.current info
    /\ OutdatedPackage.latest e = NpmOutdatedInfo.latest info
    /\ OutdatedPackage.type e
       = determineUpdateType (OutdatedPackage.current e)
                             (OutdatedPackage.latest e).
Proof.
  intros H Hin. apply generateDependencyReport_inv in H as (deps & Hm & Ho & _).
  rewrite Ho in Hin. apply buildOutdatedList_In in Hin as (i & Hi & Hc & Hl & Ht).
  apply (outdated_fold_In w deps) in Hi as [[]|Hi].
  - exists deps, i. auto.
  - intros x Hx. eapply Permutation_in; [|exact Hx].
    apply Permutation_sym, completionOrder_perm.
Qed.

Lemma outdated_packages_distinct w now packageJson report :
  generateDependencyReport w now packageJson = Ok report ->
  NoDup (map OutdatedPackage.package (DependencyReport.outdated report)).
Proof.
  intros H. apply generateDependencyReport_inv in H as (deps & Hm & -> & _).
  apply buildOutdatedList_nodup, outdated_fold_nodup. constructor.
Qed.

End WithRuntime.

(* ---- the penalty of an entry whose latest version is greater ---- *)

Lemma gt_inv l c :
  gt l c = Ok true ->
  exists vl vc, construct l = Some vl /\ construct c = Some vc
                /\ (0 < compareSemVer vl vc)%Z.
Proof.
  unfold gt, compare, constructOrThrow, bind.
  destruct (construct l) as [vl|]; [|discriminate].
  destruct (construct c) as [vc|]; [|discriminate].
  intros [= H]. apply Z.ltb_lt in H. eauto.
Qed.

Lemma compareMain_lex v o :
  let M := (Z.of_N (major v) - Z.of_N (major o))%Z in
  let m := (Z.of_N (minor v) - Z.of_N (minor o))%Z in
  let p := (Z.of_N (patch v) - Z.of_N (patch o))%Z in
  ((0 <= compareMain v o)%Z <->
   (0 < M \/ (M = 0 /\ (0 < m \/ (m = 0 /\ 0 <= p))))%Z)
  /\ ((0 < compareMain v o)%Z <->
      (0 < M \/ (M = 0 /\ (0 < m \/ (m = 0 /\ 0 < p))))%Z).
Proof.
  unfold compareMain, orZ.
  destruct (N.compare_spec (major v) (major o)),
           (N.compare_spec (minor v) (minor o)),
           (N.compare_spec (patch v) (patch o)); simpl; lia.
Qed.

Lemma newer_main vl vc :
  parsed vl -> parsed vc -> (0 < compareSemVer vl vc)%Z ->
  (0 <= compareMain vl vc)%Z
  /\ (hasPre vc = false -> hasPre vl = false -> (0 < compareMain vl vc)%Z).
Proof.
  intros Pl Pc. rewrite (OrderFacts.compareSemVer_lex vl vc Pl Pc).
  unfold orZ. destruct (Z.eqb_spec (compareMain vl vc) 0) as [E|E].
  - rewrite E. intros H. split; [lia|]. intros Hc Hl. exfalso.
    unfold comparePre in H. rewrite Hc, Hl in H. simpl in H. lia.
  - intros H. split; [lia|]. intros _ _. exact H.
Qed.

Lemma classifyBump_staleness e vc vl :
  construct (OutdatedPackage.current e) = Some vc ->
  construct (OutdatedPackage.latest e) = Some vl ->
  OutdatedPackage.type e = Spec.classifyBump vc vl ->
  (0 <= compareMain vl vc)%Z ->
  (0 <= Spec.stalenessPenalty e)%Z
  /\ ((0 < compareMain vl vc)%Z -> (1 <= Spec.stalenessPenalty e)%Z).
Proof.
  intros Hc Hl Ht Hm. unfold Spec.stalenessPenalty, parse.
  rewrite Hc, Hl, Ht. unfold Spec.classifyBump, Spec.distance.
  cbn [Spec.majorBehind Spec.minorBehind Spec.patchBehind].
  destruct (compareMain_lex vl vc) as [L0 L1]. cbv zeta in L0, L1.
  apply L0 in Hm. rewrite L1.
  destruct (N.eqb_spec (major vc) (major vl));
    destruct (N.eqb_spec (minor vc) (minor vl)); cbn [negb];
    destruct (Z.eqb_spec (Z.of_N (major vl) - Z.of_N (major vc)) 0);
    try destruct (Z.eqb_spec (Z.of_N (minor vl) - Z.of_N (minor vc)) 0);
    cbn [andb]; lia.
Qed.

(** The exact penalty of an entry whose latest version is the greater
    one. *)
Lemma newer_staleness e vc vl :
  construct (OutdatedPackage.current e) = Some vc ->
  construct (OutdatedPackage.latest e) = Some vl ->
  (0 < compareSemVer vl vc)%Z ->
  OutdatedPackage.type e
  = determineUpdateType (OutdatedPackage.current e) (OutdatedPackage.latest e) ->
  (0 <= Spec.stalenessPenalty e)%Z
  /\ (hasPre vc = false -> hasPre vl = false ->
      (1 <= Spec.stalenessPenalty e)%Z).
Proof.
  intros Hc Hl Hgt Ht.
  assert (Pc : parsed vc) by (eexists; eassumption).
  assert (Pl : parsed vl) by (eexists; eassumption).
  destruct (newer_main vl vc Pl Pc Hgt) as [Hm Hm'].
  rewrite (determineUpdateType_parsed _ _ vc vl Hc Hl) in Ht.
  assert (Hneg : (compareSemVer vc vl < 0)%Z)
    by (rewrite (compareSemVer_antisym vl vc); lia).
  assert (General :
            OutdatedPackage.type e = Spec.classifyBump vc vl ->
            (0 <= Spec.stalenessPenalty e)%Z
            /\ (hasPre vc = false -> hasPre vl = false ->
                (1 <= Spec.stalenessPenalty e)%Z)).
  { intros Hg. destruct (classifyBump_staleness e vc vl Hc Hl Hg Hm) as [H0 H1].
    split; [assumption|]. intros A B. apply H1, Hm'; assumption. }
  revert Ht. unfold diffSemVer.
  destruct (Z.eqb_spec (compareSemVer vc vl) 0) as [E|_]; [lia|].
  destruct (Z.ltb_spec 0 (compareSemVer vc vl)) as [E|_]; [lia|].
  destruct (hasPre vc && negb (hasPre vl)) eqn:Hpre.
  - apply andb_true_iff in Hpre as [Hpc _].
    assert (Zero :
              OutdatedPackage.type e = UMajor \/ compareMain vl vc = 0%Z ->
              (0 <= Spec.stalenessPenalty e)%Z
              /\ (hasPre vc = false -> hasPre vl = false ->
                  (1 <= Spec.stalenessPenalty e)%Z)).
    { intros Hz. split; [|congruence]. unfold Spec.stalenessPenalty, parse.
      rewrite Hc, Hl. unfold Spec.distance.
      cbn [Spec.majorBehind Spec.minorBehind Spec.patchBehind].
      destruct (compareMain_lex vl vc) as [L0 _]. cbv zeta in L0.
      apply L0 in Hm.
      destruct Hz as [->|Hz].
      - lia.
      - apply compareMain_zero in Hz as (E1 & E2 & E3).
        rewrite E1, E2, E3, !Z.sub_diag. simpl.
        destruct (OutdatedPackage.type e); lia. }
    destruct ((patch vc =? 0)%N && (minor vc =? 0)%N).
    + intros Ht. apply Zero. now left.
    + destruct (Z.eqb_spec (compareMain vc vl) 0) as [E|_].
      * intros _. apply Zero. right.
        rewrite (compareMain_antisym vc vl). lia.
      * rewrite general_update. exact General.
  - rewrite general_update. exact General.
Qed.

Lemma construct_validEntry e vc vl :
  construct (OutdatedPackage.current e) = Some vc ->
  construct (OutdatedPackage.latest e) = Some vl ->
  validEntry e.
Proof.
  intros Hc Hl. unfold validEntry, valid, parse. rewrite Hc, Hl.
  split; discriminate.
Qed.

Lemma newer_penalty e vc vl :
  construct (OutdatedPackage.current e) = Some vc ->
  construct (OutdatedPackage.latest e) = Some vl ->
  (0 < compareSemVer vl vc)%Z ->
  OutdatedPackage.type e
  = determineUpdateType (OutdatedPackage.current e) (OutdatedPackage.latest e) ->
  (0 <= outdatedPenalty e)%Z
  /\ (hasPre vc = false -> hasPre vl = false -> (1 <= outdatedPenalty e)%Z).
Proof.
  intros Hc Hl Hgt Ht.
  destruct (newer_staleness e vc vl Hc Hl Hgt Ht) as [H0 H1].
  rewrite (outdatedPenalty_spec e (construct_validEntry e vc vl Hc Hl)).
  split.
  - now apply NumberFacts.nearest_nonneg.
  - intros A B. apply NumberFacts.nearest_pos. now apply H1.
Qed.

Section WithRuntime.
Context {RT : Runtime}.

(** The outdated entries of a report of the engine are valid and none of
    their penalties is negative. *)
Lemma engine_entries w now packageJson report :
  generateDependencyReport w now packageJson = Ok report ->
  Forall validEntry (DependencyReport.outdated report)
  /\ Forall (fun e => 0 <= Spec.stalenessPenalty e)%Z
            (DependencyReport.outdated report).
Proof.
  intros H.
  assert (G : forall e, In e (DependencyReport.outdated report) ->
                        validEntry e /\ (0 <= Spec.stalenessPenalty e)%Z).
  { intros e He.
    destruct (outdated_recorded w now packageJson report e H He)
      as (deps & info & _ & (_ & _ & _ & _ & _ & _ & _ & _ & _ & Hg)
          & Hc & Hl & Hty).
    rewrite <- Hc, <- Hl in Hg.
    apply gt_inv in Hg as (vl & vc & El & Ec & Hgt).
    split; [exact (construct_validEntry e vc vl Ec El)|].
    exact (proj1 (newer_staleness e vc vl Ec El Hgt Hty)). }
  split; apply Forall_forall; intros e He; now apply G.
Qed.

(** The score of a report of the engine is the one of the
    specification. *)
Lemma engine_score w now packageJson report :
  generateDependencyReport w now packageJson = Ok report ->
  DependencyReport.healthScore report
  = Spec.score (DependencyReport.vulnerabilities report)
               (DependencyReport.outdated report).
Proof.
  intros H. destruct (engine_entries w now packageJson report H) as [Hv Hn].
  revert H Hv Hn. unfold generateDependencyReport, tryCatch, bind.
  destruct (getOutdatedFast w packageJson) as [npmOutdated|e]; [|discriminate].
  destruct (getProp packageJson "dependencies") as [deps|e]; [|discriminate].
  destruct (getProp packageJson "devDependencies") as [devDeps|e];
    [|discriminate].
  intros [= <-] Hv Hn. exact (fillReport_score_nonneg _ _ Hv Hn).
Qed.

End WithRuntime.

End EngineFacts.

Module ReorderFacts.
Import JS Vocab AnalyzerService ObjFacts AuditFacts EngineVocab EngineFacts.
Import Semver SemverFacts DiffFacts ScoreFacts SortFacts.

Lemma insertProp_perm {A} k (v : A) o :
  Permutation ((k, v) :: o) (insertProp k v o).
Proof.
  induction o as [|[k' v'] o IH]; simpl; [reflexivity|].
  destruct (arrayIndex k), (arrayIndex k'); try destruct (_ <? _)%N; simpl;
    try reflexivity;
    (etransitivity; [apply perm_swap|]); now apply perm_skip.
Qed.

Lemma outdatedCallback_alone w name range :
  outdatedCallback w [] (name, range) = []
  \/ (name <> "__proto__"
      /\ exists v, outdatedCallback w [] (name, range) = [(name, v)]).
Proof.
  unfold outdatedCallback, orReturn, bind.
  destruct (fetchPackageInfo w name) as [info|]; [|auto].
  destruct (getProp info "dist-tags") as [tags|]; [|auto].
  destruct (getOpt tags "latest") as [latest|]; [|auto].
  destruct (extractVersionFromRange range) as [[cur|]|]; [|auto|auto].
  destruct (truthy latest); [|auto].
  destruct (gtLatest latest cur) as [[|]|]; [|auto|auto].
  unfold assign. destruct (String.eqb_spec name "__proto__"); [auto|].
  right. split; [assumption|]. eexists. reflexivity.
Qed.

Lemma outdatedCallback_acc w acc name range :
  outdatedCallback w acc (name, range)
  = match outdatedCallback w [] (name, range) with
    | [] => acc
    | (k, v) :: _ => setProp acc k v
    end.
Proof.
  unfold outdatedCallback, orReturn, bind.
  destruct (fetchPackageInfo w name) as [info|]; [|auto].
  destruct (getProp info "dist-tags") as [tags|]; [|auto].
  destruct (getOpt tags "latest") as [latest|]; [|auto].
  destruct (extractVersionFromRange range) as [[cur|]|]; [|auto|auto].
  destruct (truthy latest); [|auto].
  destruct (gtLatest latest cur) as [[|]|]; [|auto|auto].
  unfold assign. destruct (name =? "__proto__"); reflexivity.
Qed.

Lemma outdatedCallback_perm w acc name range :
  ~ In name (keys acc) ->
  Permutation (outdatedCallback w acc (name, range))
              (acc ++ outdatedCallback w [] (name, range)).
Proof.
  intros Hn. rewrite outdatedCallback_acc.
  destruct (outdatedCallback_alone w name range) as [->|(_ & v & ->)].
  - now rewrite List.app_nil_r.
  - unfold setProp. apply hasKey_false in Hn. rewrite Hn.
    etransitivity; [apply Permutation_sym, insertProp_perm|].
    apply Permutation_cons_append.
Qed.

Lemma outdated_fold_perm w entries :
  NoDup (keys entries) ->
  forall acc,
    (forall k, In k (keys entries) -> ~ In k (keys acc)) ->
    Permutation (fold_left (outdatedCallback w) entries acc)
                (acc ++ flat_map (outdatedCallback w []) entries).
Proof.
  induction entries as [|[name range] entries IH]; intros Hnd acc Hd; simpl.
  - now rewrite List.app_nil_r.
  - inversion Hnd as [|? ? Hnotin Hnd']; subst.
    etransitivity; [apply (IH Hnd')|].
    + intros k Hk Hin. apply outdatedCallback_keys in Hin as [Hin|[-> _]].
      * apply (Hd k); [now right|assumption].
      * contradiction.
    + rewrite List.app_assoc. apply Permutation_app_tail.
      apply outdatedCallback_perm. apply Hd. now left.
Qed.

Lemma getOutdatedFast_reordered w completion' packageJson :
  match getOutdatedFast w packageJson,
        getOutdatedFast (reordered w completion') packageJson with
  | Ok o, Ok o' => Permutation o o'
  | Throw e, Throw e' => e = e'
  | _, _ => False
  end.
Proof.
  unfold getOutdatedFast, bind.
  destruct (mergedDependencies packageJson) as [deps|] eqn:Hm; [|reflexivity].
  pose proof (mergedDependencies_nodup _ _ Hm) as Hnd.
  assert (P : forall rank,
             Permutation
               (fold_left (outdatedCallback w) (completionOrder rank deps) [])
               (flat_map (outdatedCallback w []) deps)).
  { intros rank.
    etransitivity; [apply outdated_fold_perm|].
    - unfold keys. eapply Permutation_NoDup; [|exact Hnd].
      apply Permutation_map, completionOrder_perm.
    - intros k _ [].
    - simpl. apply Permutation_flat_map, Permutation_sym, completionOrder_perm. }
  etransitivity; [apply P|].
  apply Permutation_sym. cbn [completion reordered].
  change (outdatedCallback (reordered w completion'))
    with (outdatedCallback w).
  apply P.
Qed.

Lemma total_perm {A} (f : A -> Z) l l' :
  Permutation l l' -> Spec.total (map f l) = Spec.total (map f l').
Proof.
  induction 1; simpl; lia.
Qed.

Lemma buildOutdatedList_perm o o' :
  Permutation o o' ->
  Permutation (buildOutdatedList o) (buildOutdatedList o').
Proof.
  intros H. unfold buildOutdatedList. rewrite !buildOutdatedList_flat. simpl.
  now apply Permutation_flat_map.
Qed.

Section WithRuntime.
Context {RT : Runtime}.

Lemma report_reordered w completion' now packageJson :
  match generateDependencyReport w now packageJson,
        generateDependencyReport (reordered w completion') now packageJson with
  | Ok r, Ok r' =>
      Permutation (DependencyReport.outdated r) (DependencyReport.outdated r')
      /\ DependencyReport.healthScore r = DependencyReport.healthScore r'
      /\ DependencyReport.summary r = DependencyReport.summary r'
      /\ DependencyReport.totalDependencies r
         = DependencyReport.totalDependencies r'
      /\ DependencyReport.vulnerabilities r = DependencyReport.vulnerabilities r'
      /\ DependencyReport.dependencies r = DependencyReport.dependencies r'
      /\ DependencyReport.devDependencies r = DependencyReport.devDependencies r'
  | Throw e, Throw e' => e = e'
  | _, _ => False
  end.
Proof.
  pose proof (getOutdatedFast_reordered w completion' packageJson) as H.
  pose proof (engine_score w now packageJson) as S.
  pose proof (engine_score (reordered w completion') now packageJson) as S'.
  revert S S'.
  unfold generateDependencyReport, tryCatch, bind.
  destruct (getOutdatedFast w packageJson) as [o|e];
    destruct (getOutdatedFast (reordered w completion') packageJson) as [o'|e'];
    try contradiction; [|now subst].
  destruct (getProp packageJson "dependencies") as [d|]; [|reflexivity].
  destruct (getProp packageJson "devDependencies") as [dd|]; [|reflexivity].
  change (getNpmAudit (reordered w completion')) with (getNpmAudit w).
  pose proof (buildOutdatedList_perm o o' H) as P.
  intros S S'. split; [exact P|]. split.
  - rewrite (S _ eq_refl), (S' _ eq_refl). unfold Spec.score.
    cbn [fillReport DependencyReport.vulnerabilities DependencyReport.outdated].
    now rewrite (total_perm Spec.stalenessPenalty _ _ P).
  - unfold fillReport.
    cbn [DependencyReport.summary DependencyReport.totalDependencies
         DependencyReport.vulnerabilities DependencyReport.dependencies
         DependencyReport.devDependencies DependencyReport.outdated
         Summary.totalDeps Summary.totalDevDeps].
    rewrite (Permutation_length P). auto.
Qed.

End WithRuntime.

End ReorderFacts.

Module FindingFacts.
Import JS Vocab AuditVocab AnalyzerService ObjFacts AuditFacts FindingVocab.

Lemma triple_forEach {S A} (I : S -> Prop) (f : A -> St S unit) l :
  (forall x, In x l -> triple I (f x) (fun _ => I) I) ->
  triple I (forEachS f l) (fun _ => I) I.
Proof.
  induction l as [|x l IH]; intros H; cbn [forEachS].
  - apply triple_ret. auto.
  - apply (triple_bind I _ _ (fun _ => I)).
    + apply H. now left.
    + intros _. apply IH. intros y Hy. apply H. now right.
Qed.

Lemma triple_lift_eq {S A B} (P : S -> Prop) (r : result A)
  (k : A -> St S B) (R : B -> S -> Prop) (E : S -> Prop) :
  (forall s, P s -> E s) ->
  (forall a, r = Ok a -> triple P (k a) R E) ->
  triple P (bindS (liftS r) k) R E.
Proof.
  intros HE Hk s Hs. unfold bindS, liftS.
  destruct r as [a|e]; [now apply Hk|now apply HE].
Qed.

Lemma truthy_orElse a s : s <> "" -> truthy (orElse a (JStr s)) = true.
Proof.
  intros H. unfold orElse. destruct (truthy a) eqn:E; [exact E|].
  simpl. apply negb_true_iff, String.eqb_neq, H.
Qed.

Section WithRuntime.
Context {RT : Runtime}.

Lemma vulnerabilityId_pushed P now pkg source :
  triple (pushed P) (vulnerabilityId now pkg source)
         (fun id st => pushed P st /\ id <> "") (pushed P).
Proof.
  unfold vulnerabilityId.
  apply triple_lift_eq; [auto|intros text _].
  destruct (String.eqb_spec text "") as [->|Hne]; cbn [negb].
  - intros [l n] H. cbn. split; [exact H|discriminate].
  - apply triple_ret. auto.
Qed.

Lemma viaCallback_pushed (P : Vulnerability.t -> Prop) now pkg vulnInfo via :
  (forall v, Vulnerability.package v = pkg -> filled v -> P v) ->
  triple (pushed P) (viaCallback now pkg vulnInfo via)
         (fun _ => pushed P) (pushed P).
Proof.
  intros HP. unfold viaCallback.
  destruct (typeofObject via); [|apply triple_ret; auto].
  apply triple_lift_bind; [auto|intros source].
  apply triple_lift_bind; [auto|intros sourceOrTitle].
  destruct (truthy sourceOrTitle); [|apply triple_ret; auto].
  apply (triple_bind _ _ _ (fun id st => pushed P st /\ id <> ""));
    [apply vulnerabilityId_pushed|intros id].
  assert (W : forall s, pushed P s /\ id <> "" -> pushed P s) by tauto.
  apply triple_lift_bind; [exact W|intros range].
  apply triple_lift_bind; [exact W|intros sev].
  apply triple_lift_bind; [exact W|intros severity].
  apply triple_lift_bind; [exact W|intros description].
  apply triple_lift_bind; [exact W|intros fixAvailable].
  apply triple_lift_bind; [exact W|intros fixVersion].
  intros [l n] [H Hid]. cbn. unfold pushed in *. cbn in *.
  apply Forall_app. split; [exact H|]. constructor; [|constructor].
  apply HP; [reflexivity|].
  repeat split; cbn; try assumption; apply truthy_orElse; discriminate.
Qed.

Lemma packageLoopBody_pushed (P : Vulnerability.t -> Prop) now pkg vulnInfo :
  (forall v, Vulnerability.package v = pkg -> filled v -> P v) ->
  triple (pushed P) (packageLoopBody now (pkg, vulnInfo))
         (fun _ => pushed P) (pushed P).
Proof.
  intros HP. unfold packageLoopBody.
  apply triple_lift_bind; [auto|intros via].
  destruct via; try (apply triple_ret; auto).
  apply triple_forEach. intros x _. now apply viaCallback_pushed.
Qed.

Lemma processVulnerabilities_filled now npmAudit v :
  In v (processVulnerabilities now npmAudit) ->
  filled v
  /\ exists vulnerabilities,
       getProp npmAudit "vulnerabilities" = Ok vulnerabilities
       /\ In (Vulnerability.package v) (keys (ownEntries vulnerabilities)).
Proof.
  set (P := fun v : Vulnerability.t =>
         filled v
         /\ exists vulnerabilities,
              getProp npmAudit "vulnerabilities" = Ok vulnerabilities
              /\ In (Vulnerability.package v)
                    (keys (ownEntries vulnerabilities))).
  assert (T : triple (pushed P) (processVulnerabilitiesBody now npmAudit)
                     (fun _ => pushed P) (pushed P)).
  { unfold processVulnerabilitiesBody.
    apply triple_lift_eq; [auto|intros vulns Hv].
    destruct (truthy vulns); [|apply triple_ret; auto].
    apply triple_forEach. intros [pkg vulnInfo] Hin.
    apply packageLoopBody_pushed. intros u Hu Hf. split; [exact Hf|].
    exists vulns. split; [exact Hv|]. rewrite Hu.
    now apply (in_map fst) in Hin. }
  unfold processVulnerabilities, swallowS. cbn [snd fst].
  specialize (T ([], 0%nat) (Forall_nil _)).
  destruct (processVulnerabilitiesBody now npmAudit ([], 0%nat)) as [[[]|e] s'];
    cbn [snd]; unfold pushed in T; rewrite Forall_forall in T; apply T.
Qed.

End WithRuntime.

End FindingFacts.

Module RegistryFacts.
Import JS Vocab AuditVocab AnalyzerService ObjFacts AuditFacts.
Import FindingVocab FindingFacts RegistryVocab.

Lemma In_setProp_weak {A} (o : list (string * A)) k v k' v' :
  In (k', v') (setProp o k v) -> (k' = k /\ v' = v) \/ In (k', v') o.
Proof.
  unfold setProp. destruct (hasKey o k).
  - apply In_replaceProp.
  - apply In_insertProp.
Qed.

Lemma assignEntry_known w deps name items fixVersion :
  checked w deps name -> Forall (knownItem name) items ->
  triple (Known w deps)
         (assignEntry name
            (JObj [("via", JArr items);
                   ("fixAvailable", JObj [("version", fixVersion)])]))
         (fun _ => Known w deps) (Known w deps).
Proof.
  intros Hc Hi acc HK. unfold assignEntry.
  destruct (name =? "__proto__"); [exact HK|].
  intros k e Hin. cbn [own] in Hin.
  apply In_setProp_weak in Hin as [[-> ->]|Hin]; [|now apply HK].
  split; [assumption|]. eauto.
Qed.

Lemma pushFinding_known w deps name item :
  checked w deps name -> knownItem name item ->
  triple (Known w deps) (pushFinding name item)
         (fun _ => Known w deps) (Known w deps).
Proof.
  intros Hc Hi acc HK. unfold pushFinding, bindS, getS.
  destruct (lookup acc name) as [entry| | |] eqn:L.
  - apply lookup_own, ownGet_In in L.
    destruct (HK name entry L) as (_ & items & fv & -> & Hitems).
    cbn. apply (assignEntry_known w deps name); try assumption.
    apply Forall_app. split; [assumption|]. now constructor.
  - destruct (protoReplaced acc); cbn; assumption.
  - cbn. assumption.
  - cbn. apply (assignEntry_known w deps name); try assumption.
    now constructor.
Qed.

Section WithRuntime.
Context {RT : Runtime}.

Lemma checkNpmsIoSecurity_known w deps name version :
  checked w deps name ->
  triple (Known w deps) (checkNpmsIoSecurity w name version)
         (fun _ => Known w deps) (Known w deps).
Proof.
  intros Hc. unfold checkNpmsIoSecurity. apply triple_swallow.
  apply triple_lift_bind; [auto|intros npmsData].
  apply triple_lift_bind; [auto|intros low].
  apply (triple_bind _ _ _ (fun _ => Known w deps)).
  - destruct low; [|apply triple_ret; auto].
    apply triple_lift_bind; [auto|intros score].
    apply triple_lift_bind; [auto|intros detail].
    apply triple_lift_bind; [auto|intros quality].
    apply triple_lift_bind; [auto|intros veryLow].
    apply pushFinding_known; [assumption|].
    eexists _, _, _, _. split; [reflexivity|].
    right. left. split; [reflexivity|]. destruct veryLow; auto.
  - intros _.
    apply triple_lift_bind; [auto|intros collected].
    apply triple_lift_bind; [auto|intros metadata].
    apply triple_lift_bind; [auto|intros flag].
    destruct (truthy flag); [|apply triple_ret; auto].
    apply pushFinding_known; [assumption|].
    eexists _, _, _, _. split; [reflexivity|]. right. right. auto.
Qed.

Lemma auditCallback_known w deps name version :
  In (name, version) deps ->
  triple (Known w deps) (auditCallback w (name, version))
         (fun _ => Known w deps) (Known w deps).
Proof.
  intros Hin. unfold auditCallback. apply triple_swallow.
  apply triple_lift_eq; [auto|intros pkgInfo Hf].
  apply triple_lift_eq; [auto|intros current He].
  destruct current as [currentVersion|]; [|apply triple_ret; auto].
  assert (Hc : checked w deps name).
  { exists version, currentVersion, pkgInfo. repeat split; try assumption.
    unfold fetchPackageInfo in Hf. destruct (registry w name); congruence. }
  apply triple_lift_bind; [auto|intros versions].
  apply triple_lift_bind; [auto|intros versionData].
  apply (triple_bind _ _ _ (fun _ => Known w deps)).
  - destruct (truthy versions && truthy versionData); [|apply triple_ret; auto].
    apply triple_lift_bind; [auto|intros deprecated].
    destruct (truthy deprecated); [|apply triple_ret; auto].
    apply triple_lift_bind; [auto|intros tags].
    apply triple_lift_bind; [auto|intros latest].
    apply assignEntry_known; [assumption|].
    constructor; [|constructor].
    eexists _, _, _, _. split; [reflexivity|]. left. auto.
  - intros _. now apply checkNpmsIoSecurity_known.
Qed.

Lemma forEach_known w deps entries :
  incl entries deps ->
  triple (Known w deps) (forEachS (auditCallback w) entries)
         (fun _ => Known w deps) (Known w deps).
Proof.
  intros Hi. apply triple_forEach. intros [name version] Hin.
  apply auditCallback_known. now apply Hi.
Qed.

(* ---- from the object to the list ---- *)

Lemma viaCallback_known now pkg items0 fixVersion item acc n :
  knownItem pkg item ->
  exists v,
    viaCallback now pkg
      (JObj [("via", JArr items0);
             ("fixAvailable", JObj [("version", fixVersion)])])
      item (acc, n)
    = (Ok tt, ((acc ++ [v])%list, n))
    /\ Vulnerability.package v = pkg /\ registryFinding v.
Proof.
  intros (source & title & severity & range & -> & H).
  assert (Hne : (source =? "") = false).
  { apply String.eqb_neq.
    destruct H as [[-> _]|[[-> _]|[-> _]]]; discriminate. }
  assert (Hsev : exists sev,
             normalizeSeverity (JStr severity) = Ok sev
             /\ ((source = deprecatedSource pkg /\ sev = Moderate)
                 \/ (source = qualitySource /\ (sev = High \/ sev = Moderate))
                 \/ (source = flagSource /\ sev = High))).
  { destruct H as [[-> ->] | [[-> [ -> | -> ]] | [-> ->]]];
      eexists; (split; [reflexivity|]); auto 6. }
  destruct Hsev as (sev & Hn & Hk).
  unfold viaCallback, vulnerabilityId, bindS, liftS, getS, putS, retS.
  cbn. rewrite Hne. cbn. rewrite Hne. cbn.
  unfold normalizeSeverity in Hn. cbn in Hn.
  unfold normalizeSeverity. cbn. rewrite Hn. cbn.
  eexists. split; [reflexivity|]. split; [reflexivity|].
  unfold registryFinding. cbn. exact Hk.
Qed.

Lemma forEach_via_known now pkg items0 fixVersion items acc n :
  Forall (knownItem pkg) items ->
  exists vs,
    forEachS (viaCallback now pkg
                (JObj [("via", JArr items0);
                       ("fixAvailable", JObj [("version", fixVersion)])]))
             items (acc, n)
    = (Ok tt, ((acc ++ vs)%list, n))
    /\ Forall (fun v => Vulnerability.package v = pkg /\ registryFinding v) vs.
Proof.
  intros Hitems. revert acc.
  induction Hitems as [|item items Hitem _ IH]; intros acc.
  - exists []. cbn. now rewrite List.app_nil_r.
  - destruct (viaCallback_known now pkg items0 fixVersion item acc n Hitem)
      as (v & Hv & Hp).
    destruct (IH (acc ++ [v])%list) as (vs & Hvs & Hps).
    exists (v :: vs). cbn [forEachS]. unfold bindS. rewrite Hv, Hvs.
    split; [now rewrite <- List.app_assoc|]. now constructor.
Qed.

Lemma forEach_packages_known w deps now entries acc n :
  (forall k e, In (k, e) entries ->
     checked w deps k
     /\ exists items fixVersion,
          e = JObj [("via", JArr items);
                    ("fixAvailable", JObj [("version", fixVersion)])]
          /\ Forall (knownItem k) items) ->
  exists vs,
    forEachS (packageLoopBody now) entries (acc, n)
    = (Ok tt, ((acc ++ vs)%list, n))
    /\ Forall (fun v => checked w deps (Vulnerability.package v)
                        /\ registryFinding v) vs.
Proof.
  revert acc. induction entries as [|[k e] entries IH]; intros acc He.
  - exists []. cbn. now rewrite List.app_nil_r.
  - destruct (He k e (or_introl eq_refl)) as (Hc & items & fv & -> & Hitems).
    destruct (forEach_via_known now k items fv items acc n Hitems)
      as (v1 & H1 & P1).
    destruct (IH (acc ++ v1)%list) as (v2 & H2 & P2);
      [intros k' e' Hin; apply (He k'); now right|].
    exists (v1 ++ v2)%list. cbn [forEachS]. unfold bindS.
    unfold packageLoopBody at 1. unfold bindS, liftS. cbn.
    rewrite H1, H2. split; [now rewrite <- List.app_assoc|].
    apply Forall_app. split; [|assumption].
    eapply Forall_impl; [|exact P1]. intros v [-> Hf]. auto.
Qed.

Lemma getNpmAuditFast_findings w now packageJson v :
  In v (processVulnerabilities now (getNpmAuditFast w packageJson)) ->
  registryFinding v
  /\ exists deps, mergedDependencies packageJson = Ok deps
                  /\ checked w deps (Vulnerability.package v).
Proof.
  unfold getNpmAuditFast, orReturn, bind.
  destruct (mergedDependencies packageJson) as [deps|] eqn:Hm;
    [|rewrite processVulnerabilities_empty; intros []].
  pose proof (forEach_known w deps (completionOrder (completion w) deps)) as T.
  specialize (T ltac:(intros x Hx; eapply Permutation_in;
                      [apply Permutation_sym, completionOrder_perm|exact Hx])
                emptyAccumulator ltac:(intros k e [])).
  destruct (forEachS (auditCallback w) (completionOrder (completion w) deps)
                     emptyAccumulator) as [[[]|e] acc]; cbn [snd];
    (destruct (forEach_packages_known w deps now (own acc) [] 0%nat T)
       as (vs & Hvs & Hall);
     unfold processVulnerabilities, swallowS, processVulnerabilitiesBody,
       bindS, liftS; cbn; rewrite Hvs; cbn;
     intros Hin; rewrite Forall_forall in Hall;
     destruct (Hall v Hin) as [Hc Hf]; split; [exact Hf|]; eauto).
Qed.

End WithRuntime.

End RegistryFacts.

Module CountFacts.
Import JS Vocab AuditVocab AnalyzerService ObjFacts AuditFacts.
Import FindingVocab FindingFacts RegistryVocab RegistryFacts CountVocab.
Import UtilVocab UtilityFacts EngineVocab EngineFacts.
Import Semver SemverFacts DiffFacts ScoreFacts SortFacts.

(* ---- symmetry of the classification ---- *)

Lemma diffSemVer_sym v1 v2 : diffSemVer v1 v2 = diffSemVer v2 v1.
Proof.
  unfold diffSemVer. rewrite (compareSemVer_antisym v1 v2).
  rewrite (N.eqb_sym (major v2) (major v1)), (N.eqb_sym (minor v2) (minor v1)),
          (N.eqb_sym (patch v2) (patch v1)).
  destruct (Z.eqb_spec (compareSemVer v1 v2) 0) as [E|E].
  - rewrite E. reflexivity.
  - destruct (Z.eqb_spec (- compareSemVer v1 v2) 0); [lia|].
    destruct (Z.ltb_spec 0 (compareSemVer v1 v2)),
             (Z.ltb_spec 0 (- compareSemVer v1 v2)); try lia; reflexivity.
Qed.

Lemma determineUpdateType_sym c l :
  determineUpdateType c l = determineUpdateType l c.
Proof.
  rewrite !determineUpdateType_cleaned.
  destruct (cleaned c), (cleaned l); try reflexivity.
  now rewrite diffSemVer_sym.
Qed.

(* ---- the distance ---- *)

Lemma calculateVersionDistance_cleaned c l :
  calculateVersionDistance c l
  = match cleaned c, cleaned l with
    | Some vc, Some vl =>
        let majorDiff := (Z.of_N (major vl) - Z.of_N (major vc))%Z in
        let minorDiff := (Z.of_N (minor vl) - Z.of_N (minor vc))%Z in
        let patchDiff := (Z.of_N (patch vl) - Z.of_N (patch vc))%Z in
        VersionDistance.mk
          majorDiff
          (if (majorDiff =? 0)%Z then minorDiff else 0%Z)
          (if (majorDiff =? 0)%Z && (minorDiff =? 0)%Z then patchDiff else 0%Z)
          (Number.add
             (Number.add (Number.mul majorDiff 10000)
                         (Number.mul minorDiff 100))
             patchDiff)
    | _, _ => zeroDistance
    end.
Proof.
  unfold calculateVersionDistance. rewrite !clean_cleaned.
  destruct (cleaned c) as [vc|] eqn:Hc; [|reflexivity].
  destruct (cleaned l) as [vl|] eqn:Hl; [|reflexivity].
  cbn [option_map].
  pose proof (cleaned_parsed c vc Hc) as Pc.
  pose proof (cleaned_parsed l vl Hl) as Pl.
  rewrite (majorOf_parsed vl Pl), (majorOf_parsed vc Pc),
          (minorOf_parsed vl Pl), (minorOf_parsed vc Pc),
          (patchOf_parsed vl Pl), (patchOf_parsed vc Pc).
  destruct (NumberFacts.parsed_bounds vc Pc) as (Ca & Cb & Cc).
  destruct (NumberFacts.parsed_bounds vl Pl) as (La & Lb & Lc).
  cbn [bind orReturn]. rewrite !NumberFacts.sub_safe by assumption.
  reflexivity.
Qed.

Lemma add_opp a b :
  Number.add (- a) (- b) = (- Number.add a b)%Z.
Proof.
  unfold Number.add. rewrite <- NumberFacts.nearest_opp. f_equal. lia.
Qed.

Lemma mul_opp a k : Number.mul (- a) k = (- Number.mul a k)%Z.
Proof.
  unfold Number.mul. rewrite <- NumberFacts.nearest_opp. f_equal. lia.
Qed.

Lemma calculateVersionDistance_swap c l :
  let d := calculateVersionDistance c l in
  let d' := calculateVersionDistance l c in
  VersionDistance.majorVersionsBehind d'
  = (- VersionDistance.majorVersionsBehind d)%Z
  /\ VersionDistance.minorVersionsBehind d'
     = (- VersionDistance.minorVersionsBehind d)%Z
  /\ VersionDistance.patchVersionsBehind d'
     = (- VersionDistance.patchVersionsBehind d)%Z
  /\ VersionDistance.totalDistance d' = (- VersionDistance.totalDistance d)%Z.
Proof.
  cbv zeta. rewrite !calculateVersionDistance_cleaned.
  destruct (cleaned c) as [vc|], (cleaned l) as [vl|]; cbn;
    try (repeat split; reflexivity).
  repeat split; try lia.
  3:{ rewrite <- add_opp, <- add_opp, <- !mul_opp.
      f_equal; [f_equal; f_equal|]; lia. }
  - destruct (Z.eqb_spec (Z.of_N (major vc) - Z.of_N (major vl)) 0),
             (Z.eqb_spec (Z.of_N (major vl) - Z.of_N (major vc)) 0); lia.
  - destruct (Z.eqb_spec (Z.of_N (major vc) - Z.of_N (major vl)) 0),
             (Z.eqb_spec (Z.of_N (major vl) - Z.of_N (major vc)) 0),
             (Z.eqb_spec (Z.of_N (minor vc) - Z.of_N (minor vl)) 0),
             (Z.eqb_spec (Z.of_N (minor vl) - Z.of_N (minor vc)) 0);
      cbn; lia.
Qed.

(* ---- counters of the report ---- *)

Lemma length_replaceProp {A} k (v : A) o :
  List.length (replaceProp k v o) = List.length o.
Proof.
  induction o as [|[k' v'] o IH]; simpl; [reflexivity|].
  destruct (k' =? k); simpl; congruence.
Qed.

Lemma length_insertProp {A} k (v : A) o :
  List.length (insertProp k v o) = S (List.length o).
Proof.
  induction o as [|[k' v'] o IH]; simpl; [reflexivity|].
  destruct (arrayIndex k), (arrayIndex k'); try destruct (_ <? _)%N; simpl;
    congruence.
Qed.

Lemma length_setProp {A} (o : list (string * A)) k v :
  (List.length (setProp o k v) <= S (List.length o))%nat.
Proof.
  unfold setProp. destruct (hasKey o k).
  - rewrite length_replaceProp. lia.
  - rewrite length_insertProp. lia.
Qed.

Lemma length_copyProps target source :
  (List.length (copyProps target source)
   <= List.length target + List.length source)%nat.
Proof.
  unfold copyProps. revert target.
  induction source as [|[k v] source IH]; intros target; simpl; [lia|].
  etransitivity; [apply IH|].
  pose proof (length_setProp target k v). lia.
Qed.

Lemma length_spread2 a b :
  (List.length (spread2 a b)
   <= List.length (ownEntries a) + List.length (ownEntries b))%nat.
Proof.
  unfold spread2.
  etransitivity; [apply length_copyProps|].
  pose proof (length_copyProps [] (ownEntries a)). simpl in *. lia.
Qed.

Lemma keysLength_orElse v :
  keysLength (orElse v objectEmpty) = Z.of_nat (List.length (ownEntries v)).
Proof.
  unfold keysLength, orElse.
  destruct (truthy v) eqn:T; [reflexivity|].
  destruct v as [| | |n|s| |]; try reflexivity; try discriminate T.
  simpl in T. apply negb_false_iff, String.eqb_eq in T. now subst s.
Qed.

Section WithRuntime.
Context {RT : Runtime}.

Lemma report_counters w now packageJson report :
  generateDependencyReport w now packageJson = Ok report ->
  Summary.outdated (DependencyReport.summary report)
  = Z.of_nat (List.length (DependencyReport.outdated report))
  /\ DependencyReport.totalDependencies report
     = (Summary.totalDeps (DependencyReport.summary report)
        + Summary.totalDevDeps (DependencyReport.summary report))%Z
  /\ exists deps,
       mergedDependencies packageJson = Ok deps
       /\ (List.length (DependencyReport.outdated report)
           <= List.length deps)%nat
       /\ (Z.of_nat (List.length deps)
           <= DependencyReport.totalDependencies report)%Z.
Proof.
  intros H.
  pose proof (outdated_packages_distinct w now packageJson report H) as Hnd.
  assert (Hin : forall e, In e (DependencyReport.outdated report) ->
                  exists deps, mergedDependencies packageJson = Ok deps
                    /\ In (OutdatedPackage.package e) (keys deps)).
  { intros e He.
    destruct (outdated_recorded w now packageJson report e H He)
      as (deps & info & Hm & (_ & range & _ & _ & Hr & _) & _).
    exists deps. split; [assumption|]. now apply (in_map fst) in Hr. }
  revert H Hnd Hin.
  unfold generateDependencyReport, tryCatch, getOutdatedFast, bind.
  destruct (mergedDependencies packageJson) as [deps|] eqn:Hm; [|discriminate].
  unfold mergedDependencies, bind in Hm.
  destruct (getProp packageJson "dependencies") as [d|]; [|discriminate].
  destruct (getProp packageJson "devDependencies") as [dd|]; [|discriminate].
  injection Hm as Hm.
  intros [= <-] Hnd Hin.
  cbn [fillReport DependencyReport.summary DependencyReport.outdated
       DependencyReport.totalDependencies Summary.outdated Summary.totalDeps
       Summary.totalDevDeps] in *.
  split; [reflexivity|]. split; [reflexivity|].
  exists deps. split; [reflexivity|]. split.
  - rewrite <- (length_map OutdatedPackage.package),
            <- (length_map fst deps).
    apply NoDup_incl_length; [exact Hnd|].
    intros x Hx. apply in_map_iff in Hx as (e & <- & He).
    destruct (Hin e He) as (deps' & [= <-] & Hk). exact Hk.
  - rewrite !keysLength_orElse. subst deps.
    pose proof (length_spread2 d dd). lia.
Qed.

(* ---- one entry at most for an object element of via ---- *)

Lemma atMost_mono n m s : (n <= m)%nat -> atMost n s -> atMost m s.
Proof. unfold atMost. lia. Qed.

Lemma vulnerabilityId_atMost n now pkg source :
  triple (atMost n) (vulnerabilityId now pkg source)
         (fun _ => atMost n) (atMost n).
Proof.
  unfold vulnerabilityId.
  apply triple_lift_bind; [auto|intros text].
  destruct (negb (text =? "")); [apply triple_ret; auto|].
  intros [l k] H. cbn. exact H.
Qed.

Lemma viaCallback_atMost n now pkg vulnInfo via :
  triple (atMost n) (viaCallback now pkg vulnInfo via)
         (fun _ => atMost (n + (if typeofObject via then 1 else 0)))
         (atMost (n + (if typeofObject via then 1 else 0))).
Proof.
  unfold viaCallback.
  destruct (typeofObject via);
    [|apply triple_ret; intros s; apply atMost_mono; lia].
  assert (W : forall s, atMost n s -> atMost (n + 1) s)
    by (intros s; apply atMost_mono; lia).
  apply triple_lift_bind; [exact W|intros source].
  apply triple_lift_bind; [exact W|intros sourceOrTitle].
  destruct (truthy sourceOrTitle); [|apply triple_ret; exact W].
  apply (triple_bind _ _ _ (fun _ => atMost n));
    [apply (triple_weaken (atMost n) (atMost n) _
              (fun _ => atMost n) (fun _ => atMost n)
              (atMost n) (atMost (n + 1)));
     [apply vulnerabilityId_atMost|auto|auto|exact W]
    |intros id; cbv beta].
  apply triple_lift_bind; [exact W|intros range].
  apply triple_lift_bind; [exact W|intros sev].
  apply triple_lift_bind; [exact W|intros severity].
  apply triple_lift_bind; [exact W|intros description].
  apply triple_lift_bind; [exact W|intros fixAvailable].
  apply triple_lift_bind; [exact W|intros fixVersion].
  intros [l k] H. cbn. unfold atMost in *. cbn in *.
  rewrite length_app. simpl. lia.
Qed.

Lemma forEach_via_atMost now pkg vulnInfo items :
  forall n,
    triple (atMost n) (forEachS (viaCallback now pkg vulnInfo) items)
           (fun _ => atMost (n + List.length (filter typeofObject items)))
           (atMost (n + List.length (filter typeofObject items))).
Proof.
  induction items as [|via items IH]; intros n; cbn [forEachS filter].
  - apply triple_ret. intros s. apply atMost_mono. lia.
  - set (k := if typeofObject via then 1%nat else 0%nat).
    assert (E : (n + List.length (if typeofObject via
                                  then via :: filter typeofObject items
                                  else filter typeofObject items)
                 = (n + k) + List.length (filter typeofObject items))%nat).
    { subst k. destruct (typeofObject via); simpl; lia. }
    rewrite E.
    apply (triple_bind _ _ _ (fun _ => atMost (n + k))).
    + apply (triple_weaken (atMost n) (atMost n) _
               (fun _ => atMost (n + k)) (fun _ => atMost (n + k))
               (atMost (n + k))
               (atMost (n + k + List.length (filter typeofObject items))));
        [apply viaCallback_atMost|auto|auto|].
      intros s. apply atMost_mono. lia.
    + intros _. apply IH.
Qed.

Lemma packageLoopBody_atMost now n entry :
  triple (atMost n) (packageLoopBody now entry)
         (fun _ => atMost (n + objectItems (snd entry)))
         (atMost (n + objectItems (snd entry))).
Proof.
  destruct entry as [pkg vulnInfo]. unfold packageLoopBody, objectItems.
  cbn [snd].
  destruct (getProp vulnInfo "via") as [via|e]; cbn [liftS].
  - assert (R : forall m, triple (atMost n) (retS tt)
                            (fun _ => atMost (n + m)) (atMost (n + m))).
    { intros m. apply triple_ret. intros s. apply atMost_mono. lia. }
    intros s Hs. unfold bindS, liftS.
    destruct via; try exact (R 0%nat s Hs).
    exact (forEach_via_atMost now pkg vulnInfo items n s Hs).
  - intros s Hs. unfold bindS, liftS. revert Hs. apply atMost_mono. lia.
Qed.

Lemma forEach_packages_atMost now entries :
  forall n,
    triple (atMost n) (forEachS (packageLoopBody now) entries)
           (fun _ => atMost (n + sumOf (map (fun kv => objectItems (snd kv))
                                           entries)))
           (atMost (n + sumOf (map (fun kv => objectItems (snd kv)) entries))).
Proof.
  induction entries as [|entry entries IH]; intros n; cbn [forEachS map sumOf].
  - apply triple_ret. intros s. apply atMost_mono. lia.
  - rewrite Nat.add_assoc.
    apply (triple_bind _ _ _ (fun _ => atMost (n + objectItems (snd entry)))).
    + apply (triple_weaken (atMost n) (atMost n) _
               (fun _ => atMost (n + objectItems (snd entry)))
               (fun _ => atMost (n + objectItems (snd entry)))
               (atMost (n + objectItems (snd entry)))
               (atMost (n + objectItems (snd entry)
                        + sumOf (map (fun kv => objectItems (snd kv)) entries))));
        [apply packageLoopBody_atMost|auto|auto|].
      intros s. apply atMost_mono. lia.
    + intros _. apply IH.
Qed.

Lemma processVulnerabilities_atMost now npmAudit :
  (List.length (processVulnerabilities now npmAudit)
   <= advisoryItems npmAudit)%nat.
Proof.
  unfold processVulnerabilities, swallowS, advisoryItems. cbn [snd fst].
  assert (T : triple (atMost 0) (processVulnerabilitiesBody now npmAudit)
                (fun _ => atMost (advisoryItems npmAudit))
                (atMost (advisoryItems npmAudit))).
  { unfold processVulnerabilitiesBody, advisoryItems.
    destruct (getProp npmAudit "vulnerabilities") as [vulns|e].
    - intros s Hs. unfold bindS, liftS.
      destruct (truthy vulns).
      + exact (forEach_packages_atMost now (ownEntries vulns) 0 s Hs).
      + cbn. revert Hs. apply atMost_mono. lia.
    - intros s Hs. unfold bindS, liftS. exact Hs. }
  specialize (T ([], 0%nat) (Nat.le_refl 0)).
  unfold advisoryItems in T.
  destruct (processVulnerabilitiesBody now npmAudit ([], 0%nat))
    as [[[]|e] s']; exact T.
Qed.

(* ---- at most three findings for a package ---- *)

Lemma NoDup_map_filter {A B} (f : A -> B) (p : A -> bool) l :
  NoDup (map f l) -> NoDup (map f (filter p l)).
Proof.
  induction l as [|x l IH]; simpl; [auto|].
  intros H. inversion H as [|? ? Hn Hd]; subst.
  destruct (p x); simpl; [|auto].
  constructor; [|auto].
  intros Hin. apply Hn. apply in_map_iff in Hin as (y & E & Hy).
  apply filter_In in Hy as [Hy _]. apply in_map_iff. eauto.
Qed.

Lemma findings_per_package w now packageJson package :
  (List.length
     (ofPackage package
        (processVulnerabilities now (getNpmAuditFast w packageJson)))
   <= 3)%nat.
Proof.
  set (vs := processVulnerabilities now (getNpmAuditFast w packageJson)).
  pose proof (audit_pairs_distinct w now packageJson) as Hnd.
  fold vs in Hnd.
  rewrite <- (length_map pairOf).
  change 3%nat
    with (List.length [(package, deprecatedSource package);
                       (package, qualitySource); (package, flagSource)]).
  apply NoDup_incl_length.
  - unfold ofPackage. now apply NoDup_map_filter.
  - intros x Hx. apply in_map_iff in Hx as (v & <- & Hv).
    unfold ofPackage in Hv. apply filter_In in Hv as [Hv Hp].
    apply String.eqb_eq in Hp.
    destruct (getNpmAuditFast_findings w now packageJson v Hv) as [Hf _].
    unfold pairOf. rewrite Hp in *.
    destruct Hf as [[-> _]|[[-> _]|[-> _]]]; rewrite ?Hp; cbn [In]; auto.
Qed.

End WithRuntime.

End CountFacts.

(* ================================================================== *)
(** * The claims *)
(* ================================================================== *)

Import JS Vocab AuditVocab SortVocab ClockVocab AnalyzerService Examples.
Import ObjFacts ScoreFacts DiffFacts SemverFacts AuditFacts SortFacts ClockFacts.

(** ** C1: two runs over the same frozen data *)

(** C1, counterexample. The audit data lists an advisory that has a title
    and no [source]; the registry, the audit output and the manifest are
    the same in both runs, only the time of day differs. The two Reports
    differ: the id of the vulnerability embeds the reading of the clock. *)
Lemma C1_two_runs_differ :
  @generateDependencyReport sampleRuntime (auditWorld untitledSource)
     morning emptyManifest
  <> @generateDependencyReport sampleRuntime (auditWorld untitledSource)
       evening emptyManifest.
Proof. vm_compute. intros H. discriminate H. Qed.

(** C1, amended. For fixed external responses and a fixed completion
    order of the registry fetches, two runs over the same manifest either
    fail with the same error or return Reports that agree in every field
    except the ids of vulnerabilities. The two vulnerabilities at one
    position stem from one advisory item of the audit data: when the
    source of the item prints to a text that is not empty, that text is
    the id in both runs; otherwise the id is synthesized as
    vuln-<package>-<Date.now()>, the k-th synthesized id of each run from
    the k-th reading of its clock. When the run synthesizes no id (it
    never reads the clock) the two results are equal. *)
Theorem C1_deterministic_up_to_synthesized_ids {RT : Runtime} :
  forall (w : World) (packageJson : jsval) (now1 now2 : Clock),
    match generateDependencyReport w now1 packageJson,
          generateDependencyReport w now2 packageJson with
    | Ok r1, Ok r2 => sameButIds (getNpmAudit w) now1 now2 r1 r2
    | Throw e1, Throw e2 => e1 = e2
    | _, _ => False
    end
    /\ (clockReadings now1 (getNpmAudit w) = 0%nat ->
        generateDependencyReport w now1 packageJson
        = generateDependencyReport w now2 packageJson).
Proof.
  intros w packageJson now1 now2.
  unfold generateDependencyReport, tryCatch, bind.
  destruct (getOutdatedFast w packageJson) as [npmOutdated|e]; [|auto].
  destruct (getProp packageJson "dependencies") as [deps|e]; [|auto].
  destruct (getProp packageJson "devDependencies") as [devDeps|e]; [|auto].
  split.
  - apply fillReport_up_to_ids, processVulnerabilities_up_to_ids.
  - intros H0. now rewrite (processVulnerabilities_no_reading now1 now2).
Qed.

(** C1, witness: with a sourced advisory no clock reading is taken and the
    morning and evening runs return the same Report. *)
Lemma C1_witness :
  @clockReadings sampleRuntime morning (getNpmAudit (auditWorld sourced)) = 0%nat
  /\ @generateDependencyReport sampleRuntime (auditWorld sourced)
       morning emptyManifest
     = @generateDependencyReport sampleRuntime (auditWorld sourced)
         evening emptyManifest.
Proof.
  split; [reflexivity|].
  apply (proj2 (@C1_deterministic_up_to_synthesized_ids sampleRuntime
                  (auditWorld sourced) emptyManifest morning evening)).
  reflexivity.
Defined.

(** ** C2: repeated (package, id) pairs *)

(** C2, counterexample. The audit data names the same [source] twice under
    one package; both entries reach the Report with the same package and
    the same id. *)
Lemma C2_repeated_pair_survives :
  match @generateDependencyReport sampleRuntime (auditWorld repeated)
          morning emptyManifest with
  | Ok report =>
      map pairOf (DependencyReport.vulnerabilities report)
      = [("lodash", "GHSA-p6mc-m468-83gw"); ("lodash", "GHSA-p6mc-m468-83gw")]
      /\ ~ NoDup (map pairOf (DependencyReport.vulnerabilities report))
  | Throw _ => False
  end.
Proof.
  vm_compute. split; [reflexivity|].
  intros H. inversion H as [|x l Hx _]. apply Hx. now left.
Qed.

(** C2, amended. Nothing is deduplicated; the list that
    [generateVulnerabilityReport] builds from the registry and
    quality-signal data never contains two entries with the same
    (package, id) pair, for every manifest, every response and every
    completion order, because each package contributes at most one entry
    per kind of source. *)
Theorem C2_registry_pairs_distinct {RT : Runtime} :
  forall (w : World) (now : Clock) (packageJson : jsval),
    exists vulnerabilities,
      generateVulnerabilityReport w now packageJson = Ok vulnerabilities
      /\ NoDup (map pairOf vulnerabilities).
Proof.
  intros w now packageJson. unfold generateVulnerabilityReport, tryCatch, bind.
  destruct (getProp packageJson "name") as [name|e].
  - eexists. split; [reflexivity|]. apply audit_pairs_distinct.
  - exists []. split; [reflexivity|constructor].
Qed.

(** ** C3: bump classification *)

(** C3, counterexample. [1.0.0-alpha] and [1.0.0] have identical
    major.minor.patch and differ only in the pre-release tag; the claim
    says [patch], the code answers [major]. *)
Lemma C3_prerelease_to_release_is_major :
  Semver.parse "1.0.0-alpha" = Some (Semver.mkSemVer 1 0 0 ["alpha"] [])
  /\ Semver.parse "1.0.0" = Some (Semver.mkSemVer 1 0 0 [] [])
  /\ Spec.classifyBump (Semver.mkSemVer 1 0 0 ["alpha"] [])
                       (Semver.mkSemVer 1 0 0 [] []) = UPatch
  /\ determineUpdateType "1.0.0-alpha" "1.0.0" = UMajor.
Proof. repeat split; reflexivity. Qed.

(** C3, amended. For every pair of valid semantic versions the
    classification is the tier of the first differing component, and
    [patch] when major.minor.patch are identical (build metadata plays no
    part), with two exceptions, both for a pre-release followed by a
    release: when the pre-release has minor 0 and patch 0 the
    classification is [major], and when the two have the same
    major.minor.patch with a minor that is not 0 and patch 0 it is
    [minor]. The classification differs from the first differing
    component exactly in the first case with equal majors and in the
    second case. *)
Theorem C3_first_differing_component :
  forall (current latest : string) (vc vl : Semver.SemVer),
    Semver.parse current = Some vc ->
    Semver.parse latest = Some vl ->
    determineUpdateType current latest
    = (if Spec.beforeMajor vc vl then UMajor
       else if Spec.beforeMinor vc vl then UMinor
       else Spec.classifyBump vc vl)
    /\ (determineUpdateType current latest <> Spec.classifyBump vc vl
        <-> (Spec.beforeMajor vc vl = true
             /\ Semver.major vc = Semver.major vl)
            \/ Spec.beforeMinor vc vl = true).
Proof.
  intros current latest vc vl Hc Hl.
  rewrite (determineUpdateType_parsed current latest vc vl Hc Hl).
  assert (Pc : parsed vc) by (now exists current).
  assert (Pl : parsed vl) by (now exists latest).
  split.
  - now apply diff_classification.
  - now apply diff_departs.
Qed.

(** C3, witness: [1.2.3-alpha -> 1.3.0] is a pre-release followed by a
    release and is classified by its first differing component;
    [1.0.0-alpha -> 1.1.0] is [major]; [1.2.0-alpha -> 1.2.0] is not
    classified by the first differing component. *)
Lemma C3_witness :
  determineUpdateType "1.2.3-alpha" "1.3.0+build.7" = UMinor
  /\ determineUpdateType "1.0.0-alpha" "1.1.0" = UMajor
  /\ determineUpdateType "1.2.0-alpha" "1.2.0"
     <> Spec.classifyBump (Semver.mkSemVer 1 2 0 ["alpha"] [])
                          (Semver.mkSemVer 1 2 0 [] []).
Proof.
  split; [|split].
  - exact (proj1 (C3_first_differing_component "1.2.3-alpha" "1.3.0+build.7"
                    (Semver.mkSemVer 1 2 3 ["alpha"] [])
                    (Semver.mkSemVer 1 3 0 [] ["build"; "7"])
                    eq_refl eq_refl)).
  - exact (proj1 (C3_first_differing_component "1.0.0-alpha" "1.1.0"
                    (Semver.mkSemVer 1 0 0 ["alpha"] [])
                    (Semver.mkSemVer 1 1 0 [] [])
                    eq_refl eq_refl)).
  - apply (proj2 (C3_first_differing_component "1.2.0-alpha" "1.2.0"
                    (Semver.mkSemVer 1 2 0 ["alpha"] [])
                    (Semver.mkSemVer 1 2 0 [] [])
                    eq_refl eq_refl)).
    right. reflexivity.
Defined.

(** ** C4: manifests of the wrong shape *)

(** C4, counterexample. A manifest that is a string, a number or an array
    is answered with a Report, not with a failure. *)
Lemma C4_string_manifest_gets_a_report :
  isOk (@generateDependencyReport sampleRuntime (auditWorld sourced) morning
          (JStr "not a manifest")) = true
  /\ isOk (@generateDependencyReport sampleRuntime (auditWorld sourced) morning
             (JNum (Fin 42))) = true
  /\ isOk (@generateDependencyReport sampleRuntime (auditWorld sourced) morning
             (JArr [])) = true.
Proof. repeat split; reflexivity. Qed.


Lemma report_for_defined_manifest {RT : Runtime} w now packageJson :
  isNullish packageJson = false ->
  exists report, generateDependencyReport w now packageJson = Ok report.
Proof.
  intros E. destruct packageJson; try discriminate; eexists; reflexivity.
Qed.

(** C4, amended. [generateDependencyReport] raises a failure, whose message
    is "Failed to generate dependency report: " followed by the cause,
    exactly when the manifest is [null] or [undefined], and then returns
    no Report. Every other manifest is answered with a Report; when it is
    not an object (a string, a number, a boolean, an array) the Report is
    the one of a manifest without dependencies. *)
Theorem C4_failure_iff_nullish {RT : Runtime} :
  forall (w : World) (now : Clock) (packageJson : jsval),
    if isNullish packageJson then
      generateDependencyReport w now packageJson
      = Throw (JsError ("Failed to generate dependency report: "
                        ++ "Cannot read properties of " ++ describe packageJson
                        ++ " (reading 'dependencies')"))
    else
      exists report,
        generateDependencyReport w now packageJson = Ok report
        /\ match packageJson with
           | JObj _ => True
           | _ => DependencyReport.dependencies report = objectEmpty
                  /\ DependencyReport.devDependencies report = objectEmpty
                  /\ DependencyReport.outdated report = []
                  /\ DependencyReport.totalDependencies report = 0%Z
           end.
Proof.
  intros w now packageJson.
  destruct (isNullish packageJson) eqn:E.
  - destruct packageJson; try discriminate; reflexivity.
  - destruct packageJson; try discriminate;
      (eexists; split; [reflexivity|]); cbn; auto.
Qed.

(** ** C5: the health score formula *)

(** C5, counterexample. One vulnerability of severity low and two
    outdated entries with valid versions, the first with its latest
    version behind its current one: the formula gives 100 - 2 +
    9007199254740991 - 9007199254740991 = 98, the code answers 97,
    because 98 + 9007199254740991 is no double and is rounded before the
    last subtraction. With the two entries in the other order the code
    answers 98. *)
Lemma C5_rounding_loses_a_point :
  Forall validEntry backAndForth
  /\ Spec.score [vulnerability "1" Low] backAndForth = 98%Z
  /\ DependencyReport.healthScore
       (fillReport (blankReport backAndForth) [vulnerability "1" Low])
     = 97%Z
  /\ DependencyReport.healthScore
       (fillReport (blankReport (List.rev backAndForth)) [vulnerability "1" Low])
     = 98%Z.
Proof.
  split; [|vm_compute; auto].
  repeat constructor; discriminate.
Qed.

(** C5, amended. For every list of vulnerabilities and every list of
    outdated entries with valid versions, the health score that the engine
    stores is 100, minus 15 per critical, 10 per high, 5 per moderate, 2
    per low and 0 per unknown vulnerability, minus per outdated entry
    5 x majorBehind, 2 x minorBehind or 1 x patchBehind according to its
    type (tiered distance), clamped to [0, 100], provided that no entry
    has a negative penalty, or that the penalties add up to at most 2^52
    in absolute value; every Report the engine returns carries that
    score; one critical plus one high vulnerability with no outdated
    entry give exactly 75. *)
Theorem C5_health_score_formula {RT : Runtime} :
  (forall (report : DependencyReport.t) (vulnerabilities : list Vulnerability.t),
      Forall validEntry (DependencyReport.outdated report) ->
      Forall (fun e => 0 <= Spec.stalenessPenalty e)%Z
             (DependencyReport.outdated report) ->
      DependencyReport.healthScore (fillReport report vulnerabilities)
      = Spec.score vulnerabilities (DependencyReport.outdated report))
  /\ (forall (report : DependencyReport.t)
             (vulnerabilities : list Vulnerability.t),
         Forall validEntry (DependencyReport.outdated report) ->
         (Spec.total
            (map (fun v => Spec.severityPenalty (Vulnerability.severity v))
                 vulnerabilities)
          + Spec.total
              (map (fun e => Z.abs (Spec.stalenessPenalty e))
                   (DependencyReport.outdated report)) <= 2 ^ 52)%Z ->
         DependencyReport.healthScore (fillReport report vulnerabilities)
         = Spec.score vulnerabilities (DependencyReport.outdated report))
  /\ (forall (w : World) (now : Clock) (packageJson : jsval)
             (report : DependencyReport.t),
         generateDependencyReport w now packageJson = Ok report ->
         DependencyReport.healthScore report
         = Spec.score (DependencyReport.vulnerabilities report)
                      (DependencyReport.outdated report))
  /\ (forall (report : DependencyReport.t) (critical high : Vulnerability.t),
         DependencyReport.outdated report = [] ->
         Vulnerability.severity critical = Critical ->
         Vulnerability.severity high = High ->
         DependencyReport.healthScore (fillReport report [critical; high])
         = 75%Z).
Proof.
  split; [exact fillReport_score_nonneg|].
  split; [exact fillReport_score_small|].
  split; [exact EngineFacts.engine_score|].
  intros report critical high Ho Hc Hh.
  rewrite fillReport_score_nonneg by (rewrite Ho; constructor).
  unfold Spec.score. rewrite Ho. cbn. now rewrite Hc, Hh.
Qed.

(** C5, witness: a report with one critical and one moderate vulnerability
    and two outdated entries; the entries of the counterexample with
    versions that stay small; a run of the engine; the scenario of the
    specification. *)
Lemma C5_witness :
  DependencyReport.healthScore
    (fillReport
       (blankReport [entry "react" "17.0.2" "19.1.0" UMajor;
                     entry "lodash" "4.17.20" "4.17.21" UPatch])
       [vulnerability "1" Critical; vulnerability "2" Moderate])
  = 69%Z
  /\ DependencyReport.healthScore
       (fillReport
          (blankReport [entry "a" "0.0.7" "0.0.0" UPatch;
                        entry "b" "0.0.0" "0.0.7" UPatch])
          [vulnerability "1" Low])
     = 98%Z
  /\ match @generateDependencyReport sampleRuntime reactWorld morning
             (JObj twoRanges) with
     | Ok report => DependencyReport.healthScore report = 95%Z
     | Throw _ => False
     end
  /\ DependencyReport.healthScore
       (fillReport (blankReport [])
          [vulnerability "1" Critical; vulnerability "2" High])
     = 75%Z.
Proof.
  split; [|split; [|split]].
  - rewrite (proj1 (@C5_health_score_formula sampleRuntime)); [reflexivity| |].
    + repeat constructor; discriminate.
    + repeat constructor; vm_compute; discriminate.
  - rewrite (proj1 (proj2 (@C5_health_score_formula sampleRuntime)));
      [reflexivity| |].
    + repeat constructor; discriminate.
    + vm_compute. discriminate.
  - pose proof (proj1 (proj2 (proj2 (@C5_health_score_formula sampleRuntime)))
                  reactWorld morning (JObj twoRanges)) as T.
    destruct (@generateDependencyReport sampleRuntime reactWorld morning
                (JObj twoRanges)) as [report|e] eqn:H.
    + rewrite (T report eq_refl). vm_compute in H. injection H as <-.
      reflexivity.
    + vm_compute in H. discriminate H.
  - apply (proj2 (proj2 (proj2 (@C5_health_score_formula sampleRuntime))));
      reflexivity.
Defined.

(** ** C6: bounds of the health score *)

(** C6. The health score computed from any report is an integer between 0
    and 100; so is the score of every Report the engine returns; with no
    vulnerability and no outdated entry it is exactly 100. *)
Theorem C6_health_score_bounds {RT : Runtime} :
  (forall report : DependencyReport.t,
      (0 <= calculateHealthScore report <= 100)%Z)
  /\ (forall (w : World) (now : Clock) (packageJson : jsval),
         match generateDependencyReport w now packageJson with
         | Ok report => (0 <= DependencyReport.healthScore report <= 100)%Z
         | Throw _ => True
         end)
  /\ (forall dependencies devDependencies score summary total vulnerabilities,
         DependencyReport.healthScore
           (fillReport (DependencyReport.mk dependencies devDependencies score []
                          summary total vulnerabilities) [])
         = 100%Z).
Proof.
  assert (B : forall report, (0 <= calculateHealthScore report <= 100)%Z).
  { intros report. unfold calculateHealthScore. lia. }
  split; [exact B|]. split.
  - intros w now packageJson.
    unfold generateDependencyReport, tryCatch, bind.
    destruct (getOutdatedFast w packageJson) as [npmOutdated|e]; [|exact I].
    destruct (getProp packageJson "dependencies") as [deps|e]; [|exact I].
    destruct (getProp packageJson "devDependencies") as [devDeps|e]; [|exact I].
    unfold fillReport. cbn [DependencyReport.healthScore]. apply B.
  - intros. reflexivity.
Qed.

(** ** C7: ranges that are no single version *)

(** C7, counterexample. [react] is declared with the range ["1.x"] in
    [dependencies], which yields no version, and with ["~18.2.0"] in
    [devDependencies]; the registry offers 19.0.0. The package is in the
    outdated list of the Report and costs 5 points. *)
Lemma C7_declared_open_range_is_listed :
  extractVersionFromRange (JStr "1.x") = Ok None
  /\ getProp declaredOpen "dependencies" = Ok (JObj [("react", JStr "1.x")])
  /\ match @generateDependencyReport sampleRuntime reactWorld morning
             declaredOpen with
     | Ok report =>
         DependencyReport.outdated report
         = [entry "react" "18.2.0" "19.0.0" UMajor]
         /\ DependencyReport.healthScore report = 95%Z
     | Throw _ => False
     end.
Proof. vm_compute. auto. Qed.

(** C7, amended. A dependency whose effective range, the one of
    [devDependencies] when the package is named in both mappings, yields
    no version after the range operators are stripped (as ["1.x"] and
    [">=1.0.0 <2.0.0"] do) is absent from the outdated list of the
    Report, whatever the registry answers; the Report is produced all the
    same. *)
Theorem C7_open_range_excluded {RT : Runtime} :
  extractVersionFromRange (JStr "1.x") = Ok None
  /\ extractVersionFromRange (JStr ">=1.0.0 <2.0.0") = Ok None
  /\ (forall (w : World) (now : Clock) (packageJson : jsval)
             (deps : list (string * jsval)) (name : string) (range : jsval),
         mergedDependencies packageJson = Ok deps ->
         ownGet deps name = Some range ->
         extractVersionFromRange range = Ok None ->
         exists report,
           generateDependencyReport w now packageJson = Ok report
           /\ forall e, In e (DependencyReport.outdated report) ->
                        OutdatedPackage.package e <> name).
Proof.
  split; [reflexivity|]. split; [reflexivity|].
  intros w now packageJson deps name range Hm Hget Hnone.
  assert (Hn : isNullish packageJson = false).
  { destruct packageJson; try reflexivity; discriminate Hm. }
  pose proof (report_for_defined_manifest w now packageJson Hn) as (report & Hr).
  exists report. split; [assumption|].
  revert Hr. unfold generateDependencyReport, tryCatch, bind.
  destruct (getOutdatedFast w packageJson) as [npmOutdated|e] eqn:Ho;
    [|discriminate].
  destruct (getProp packageJson "dependencies") as [d|e]; [|discriminate].
  destruct (getProp packageJson "devDependencies") as [dd|e]; [|discriminate].
  intros [= <-] e He Heq.
  cbn [fillReport DependencyReport.outdated] in He.
  apply buildOutdatedList_packages in He. rewrite Heq in He.
  now apply (getOutdatedFast_excludes w packageJson deps name range npmOutdated).
Qed.

(** C7, witness: [react] declared with [">=1.0.0 <2.0.0"] while the
    registry offers 19.0.0. *)
Lemma C7_witness :
  exists report,
    @generateDependencyReport sampleRuntime reactWorld morning openRange
    = Ok report
    /\ forall e, In e (DependencyReport.outdated report) ->
                 OutdatedPackage.package e <> "react".
Proof.
  apply (proj2 (proj2 (@C7_open_range_excluded sampleRuntime))
           reactWorld morning openRange
           [("react", JStr ">=1.0.0 <2.0.0")] "react" (JStr ">=1.0.0 <2.0.0"));
    reflexivity.
Defined.

(** ** C8: sorting an outdated list *)

(** C8, counterexample. A report's outdated list holds 18.2.0 before
    4.17.20; after [sortOutdatedByPriority] the very array that was passed
    holds them in the other order. *)
Lemma C8_sort_overwrites_its_argument :
  match sortOutdatedByPriority unsortedHeap 0%nat with
  | Ok (heap, sortedList) =>
      sortedList = 0%nat
      /\ unsortedHeap 0%nat
         = Some [entry "react" "18.2.0" "19.0.0" UMajor;
                 entry "lodash" "4.17.20" "4.17.21" UPatch]
      /\ heap 0%nat
         = Some [entry "lodash" "4.17.20" "4.17.21" UPatch;
                 entry "react" "18.2.0" "19.0.0" UMajor]
      /\ heap 0%nat <> unsortedHeap 0%nat
  | Throw _ => False
  end.
Proof.
  vm_compute. repeat split; try reflexivity. intros H. discriminate H.
Qed.

(** C8, amended. [sortOutdatedByPriority] sorts in place: applied to an
    outdated list whose versions are valid it returns the reference it was
    given, and after the call the array behind that reference holds the
    same entries in ascending order of [current]; no other array
    changes. *)
Theorem C8_sort_in_place :
  forall (heap : Heap) (outdatedList : Ref) (entries : list OutdatedPackage.t),
    heap outdatedList = Some entries ->
    Forall validCurrent entries ->
    exists entries',
      sortOutdatedByPriority heap outdatedList
      = Ok (write heap outdatedList entries', outdatedList)
      /\ write heap outdatedList entries' outdatedList = Some entries'
      /\ (forall r, r <> outdatedList ->
                    write heap outdatedList entries' r = heap r)
      /\ Permutation entries entries'
      /\ Sorted notAfter entries'.
Proof.
  intros heap outdatedList entries Hget Hvalid.
  destruct (sorted_spec entries Hvalid) as (entries' & Hs & Hp & Hsorted).
  exists entries'. unfold sortOutdatedByPriority. rewrite Hget, Hs. cbn [bind].
  repeat split; try assumption.
  - unfold write. now rewrite Nat.eqb_refl.
  - intros r Hr. unfold write.
    destruct (Nat.eqb_spec r outdatedList); [contradiction|reflexivity].
Qed.

(** C8, witness: the heap of the counterexample. *)
Lemma C8_witness :
  exists entries',
    sortOutdatedByPriority unsortedHeap 0%nat
    = Ok (write unsortedHeap 0%nat entries', 0%nat)
    /\ write unsortedHeap 0%nat entries' 0%nat = Some entries'
    /\ (forall r, r <> 0%nat -> write unsortedHeap 0%nat entries' r = unsortedHeap r)
    /\ Permutation [entry "react" "18.2.0" "19.0.0" UMajor;
                    entry "lodash" "4.17.20" "4.17.21" UPatch] entries'
    /\ Sorted notAfter entries'.
Proof.
  apply (C8_sort_in_place unsortedHeap 0%nat
           [entry "react" "18.2.0" "19.0.0" UMajor;
            entry "lodash" "4.17.20" "4.17.21" UPatch]).
  - reflexivity.
  - repeat constructor; discriminate.
Defined.

(** ** C9: a package named in both mappings *)

Lemma ownGet_hasKey o k v : ownGet o k = Some v -> hasKey o k = true.
Proof.
  intros H. apply hasKey_In. apply ownGet_In in H.
  now apply (in_map fst) in H.
Qed.

Lemma mergedDependencies_object props deps devDeps :
  ownGet props "dependencies" = Some (JObj deps) ->
  ownGet props "devDependencies" = Some (JObj devDeps) ->
  mergedDependencies (JObj props) = Ok (spread2 (JObj deps) (JObj devDeps)).
Proof.
  intros Hd Hv. unfold mergedDependencies. cbn. now rewrite Hd, Hv.
Qed.

(** C9. When a package is named in both mappings of a manifest, the range
    the engine works with is the one of [devDependencies]: the result of
    the registry fan-out for outdated packages and the result of the
    registry and quality-signal audit stay the same whatever range
    [dependencies] declares for that package. *)
Theorem C9_devDependencies_range_wins {RT : Runtime} :
  forall (w : World) (props deps devDeps : list (string * jsval))
         (name : string) (range devRange : jsval),
    ownGet props "dependencies" = Some (JObj deps) ->
    ownGet props "devDependencies" = Some (JObj devDeps) ->
    NoDup (map fst devDeps) ->
    ownGet deps name = Some range ->
    ownGet devDeps name = Some devRange ->
    (exists merged,
        mergedDependencies (JObj props) = Ok merged
        /\ ownGet merged name = Some devRange)
    /\ (forall range' : jsval,
           let packageJson' :=
             JObj (replaceProp "dependencies"
                     (JObj (replaceProp name range' deps)) props) in
           getOutdatedFast w packageJson' = getOutdatedFast w (JObj props)
           /\ getNpmAuditFast w packageJson' = getNpmAuditFast w (JObj props)
           /\ (forall now,
                  generateVulnerabilityReport w now packageJson'
                  = generateVulnerabilityReport w now (JObj props))).
Proof.
  intros w props deps devDeps name range devRange Hd Hv Hnd Hr Hdr.
  pose proof (mergedDependencies_object props deps devDeps Hd Hv) as Hm.
  split.
  - eexists. split; [exact Hm|].
    unfold spread2. cbn [ownEntries]. now apply ownGet_copyProps.
  - intros range' packageJson'.
    assert (Hm' : mergedDependencies packageJson' = mergedDependencies (JObj props)).
    { rewrite Hm. unfold packageJson'.
      rewrite (mergedDependencies_object _ (replaceProp name range' deps) devDeps).
      - f_equal. apply spread2_second_wins.
        apply ownGet_In in Hdr. now apply (in_map fst) in Hdr.
      - rewrite ownGet_replaceProp, (ownGet_hasKey _ _ _ Hd). reflexivity.
      - rewrite ownGet_replaceProp. cbn. exact Hv. }
    assert (Ha : getNpmAuditFast w packageJson' = getNpmAuditFast w (JObj props)).
    { unfold getNpmAuditFast. now rewrite Hm'. }
    repeat split.
    + unfold getOutdatedFast. now rewrite Hm'.
    + exact Ha.
    + intros now. unfold generateVulnerabilityReport. now rewrite Ha.
Qed.

(** C9, witness: [react] is ["^17.0.2"] in [dependencies] and ["~18.2.0"]
    in [devDependencies]; declaring ["^16.0.0"] instead changes nothing. *)
Lemma C9_witness :
  (exists merged,
      mergedDependencies (JObj twoRanges) = Ok merged
      /\ ownGet merged "react" = Some (JStr "~18.2.0"))
  /\ @getNpmAuditFast sampleRuntime reactWorld
       (JObj (replaceProp "dependencies"
                (JObj (replaceProp "react" (JStr "^16.0.0")
                         [("react", JStr "^17.0.2")])) twoRanges))
     = @getNpmAuditFast sampleRuntime reactWorld (JObj twoRanges).
Proof.
  destruct (@C9_devDependencies_range_wins sampleRuntime reactWorld twoRanges
              [("react", JStr "^17.0.2")] [("react", JStr "~18.2.0")]
              "react" (JStr "^17.0.2") (JStr "~18.2.0")
              eq_refl eq_refl
              (NoDup_cons "react" (fun H : In "react" [] => H) (NoDup_nil string))
              eq_refl eq_refl) as [H1 H2].
  split; [exact H1|]. exact (proj1 (proj2 (H2 (JStr "^16.0.0")))).
Defined.

(** ** C10: the vulnerabilities-only entry point *)

(** C10. [generateVulnerabilityReport] returns a list of vulnerabilities
    for every manifest, every response of the registry and of the
    quality-signal source and every clock, and never raises; for a
    manifest that is [null], [undefined] or no object the list is empty.
    [generateDependencyReport], in contrast, raises on [null]. *)
Theorem C10_vulnerability_report_never_raises {RT : Runtime} :
  (forall (w : World) (now : Clock) (packageJson : jsval),
      exists vulnerabilities,
        generateVulnerabilityReport w now packageJson = Ok vulnerabilities)
  /\ (forall (w : World) (now : Clock) (packageJson : jsval),
         match packageJson with
         | JObj _ => True
         | _ => generateVulnerabilityReport w now packageJson = Ok []
         end)
  /\ (forall (w : World) (now : Clock),
         isOk (generateDependencyReport w now JNull) = false).
Proof.
  split; [|split].
  - intros w now packageJson.
    unfold generateVulnerabilityReport, tryCatch, bind.
    destruct (getProp packageJson "name"); eauto.
  - intros w now packageJson. destruct packageJson; try exact I; reflexivity.
  - intros w now. reflexivity.
Qed.

Module HttpFacts.
Import JS Http StrSearch AnalyzerService AnalyzerMiddleware AnalyzerController.
Import AnalyzerRoutes HttpVocab.

Lemma validatePackageJsonData_spec req :
  if declaresDependencies (body req)
  then validatePackageJsonData req = Next
  else exists text,
         validatePackageJsonData req
         = Responded (Response.mk 400 (failureError text)).
Proof.
  unfold validatePackageJsonData, declaresDependencies, destructure, member.
  destruct (body req) as [| | | | | |props]; cbn; eauto.
  destruct (truthy match ownGet props "dependencies" with
                   | Some x => x | None => JUndefined end); cbn; [reflexivity|].
  destruct (truthy match ownGet props "devDependencies" with
                   | Some x => x | None => JUndefined end); cbn; eauto.
Qed.

Lemma declares_object body :
  declaresDependencies body = true -> exists props, body = JObj props.
Proof. destruct body; try discriminate. eauto. Qed.

Lemma analyzerErrorHandler_refusal h e : refusal (analyzerErrorHandler h e).
Proof.
  unfold analyzerErrorHandler, refusal.
  destruct (includes (message e) "package.json"); cbn; [auto|].
  destruct (includes (message e) "npm"); cbn; auto.
Qed.

Lemma analyzerErrorHandler_noManifest h :
  analyzerErrorHandler h (JsError noManifest) = genericFailure h noManifest.
Proof. reflexivity. Qed.

Lemma route_refusal h handlers req :
  (forall handler, In handler handlers ->
     match handler req with
     | Responded r => refusal r
     | Next => True
     | NextError _ => True
     end) ->
  dispatch handlers req <> Next ->
  exists r, route h handlers req = Responded r /\ refusal r.
Proof.
  intros H Hn. unfold route.
  assert (D : match dispatch handlers req with
              | Responded r => refusal r
              | _ => True
              end).
  { clear Hn. induction handlers as [|x l IH]; cbn; [exact I|].
    pose proof (H x (or_introl eq_refl)) as Hx.
    destruct (x req); auto. apply IH. intros y Hy. apply H. now right. }
  destruct (dispatch handlers req) as [r| |e].
  - eauto.
  - contradiction.
  - eexists. split; [reflexivity|]. apply analyzerErrorHandler_refusal.
Qed.

Section WithRuntime.
Context {RT : Runtime}.

Lemma report_without_manifest w now :
  generateDependencyReport w now JUndefined = Throw (JsError noManifest).
Proof. reflexivity. Qed.

Lemma generateReport_declared h now req :
  declaresDependencies (body req) = true ->
  exists props report,
    body req = JObj props
    /\ generateDependencyReport
         (serviceFor h (member props "packageJsonPath")) now (body req)
       = Ok report
    /\ generateReport h now req
       = Responded
           (Response.mk 200
              (Json.mk true (Some "Dependency report generated successfully")
                       None (Some (ReportData report)))).
Proof.
  intros H. destruct (declares_object _ H) as [props E].
  destruct (report_for_defined_manifest
              (serviceFor h (member props "packageJsonPath")) now (body req))
    as [report Hr]; [now rewrite E|].
  exists props, report. split; [exact E|]. split; [exact Hr|].
  unfold generateReport, respondOrNext. rewrite E in *.
  change (destructure "req.body" (JObj props) "packageJsonPath")
    with (Ok (member props "packageJsonPath")).
  cbn [bind]. now rewrite Hr.
Qed.

Lemma getHealthScore_fails h now req :
  exists text,
    getHealthScore h now req = NextError (JsError text)
    /\ analyzerErrorHandler h (JsError text) = genericFailure h text.
Proof.
  unfold getHealthScore, respondOrNext, destructure.
  destruct (query req); cbn; eexists; split; reflexivity.
Qed.

Lemma getOutdatedPackages_fails h now req :
  exists text,
    getOutdatedPackages h now req = NextError (JsError text)
    /\ analyzerErrorHandler h (JsError text) = genericFailure h text.
Proof.
  unfold getOutdatedPackages, respondOrNext, destructure.
  destruct (query req); cbn; eexists; split; reflexivity.
Qed.

Lemma generateAndSaveReport_fails h now req :
  exists text,
    generateAndSaveReport h now req = NextError (JsError text)
    /\ analyzerErrorHandler h (JsError text) = genericFailure h text.
Proof.
  unfold generateAndSaveReport, respondOrNext, destructure.
  destruct (body req); cbn; eexists; split; reflexivity.
Qed.

Lemma validateOutputPath_refusal h req :
  match validateOutputPath h req with
  | Responded r => refusal r
  | _ => True
  end.
Proof.
  unfold validateOutputPath.
  destruct (destructure "req.body" (body req) "outputPath") as [p|]; [|exact I].
  destruct (truthy p); [|exact I].
  destruct p; try exact I.
  destruct (negb (Host.existsSync h (Host.dirname h s)));
    [cbn; unfold refusal; cbn; auto|].
  destruct (negb (endsWith s ".json")); [cbn; unfold refusal; cbn; auto|exact I].
Qed.

Lemma validatePackageJsonData_refusal req :
  match validatePackageJsonData req with
  | Responded r => refusal r
  | Next => declaresDependencies (body req) = true
  | NextError _ => False
  end.
Proof.
  pose proof (validatePackageJsonData_spec req) as H.
  destruct (declaresDependencies (body req)).
  - now rewrite H.
  - destruct H as [text ->]. unfold refusal. cbn. auto.
Qed.

(* ---- the vulnerabilities route ---- *)

Lemma generateVulnerabilityReport_object w now props :
  generateVulnerabilityReport w now (JObj props)
  = Ok (processVulnerabilities now (getNpmAuditFast w (JObj props))).
Proof. reflexivity. Qed.

End WithRuntime.

Lemma bySeverity_Forall (P : Vulnerability.t -> Prop) s l :
  Forall P l -> Forall P (bySeverity s l).
Proof.
  intros H. unfold bySeverity. rewrite Forall_forall in *.
  intros x Hx. apply filter_In in Hx as [Hx _]. auto.
Qed.

Lemma bySeverity_named s l :
  Forall (fun v => nameOfSeverity (Vulnerability.severity v) = s)
         (bySeverity s l).
Proof.
  unfold bySeverity. rewrite Forall_forall. intros x Hx.
  apply filter_In in Hx as [_ Hx]. now apply String.eqb_eq in Hx.
Qed.

Lemma bySeverity_none s l :
  Forall (fun v => nameOfSeverity (Vulnerability.severity v) <> s) l ->
  bySeverity s l = [].
Proof.
  induction 1 as [|x l Hx _ IH]; cbn; [reflexivity|].
  apply String.eqb_neq in Hx. now rewrite Hx.
Qed.

Lemma high_moderate_counts l :
  Forall (fun v => Vulnerability.severity v = High
                   \/ Vulnerability.severity v = Moderate) l ->
  (lengthOf (bySeverity "high" l) + lengthOf (bySeverity "moderate" l)
   = lengthOf l)%Z.
Proof.
  unfold lengthOf.
  induction 1 as [|x l Hx _ IH]; cbn [bySeverity filter]; [reflexivity|].
  fold (bySeverity "high" l). fold (bySeverity "moderate" l).
  destruct Hx as [-> | ->]; cbn [nameOfSeverity String.eqb Ascii.eqb Bool.eqb];
    cbn [List.length]; lia.
Qed.

End HttpFacts.

(* ================================================================== *)
(** * Further properties of the code *)
(* ================================================================== *)

Import Str JS Vocab AuditVocab Semver SemverFunctions AnalyzerService.
Import AnalyzerUtilities UtilVocab OrderVocab NewestVocab EngineVocab.
Import FindingVocab RegistryVocab Http HttpVocab AnalyzerController.
Import Examples Samples.

(** X1: the analysis of a version is a normal form. When [analyzeVersion]
    returns an analysis, its [version] is the text
    major.minor.patch, followed by a dash and the pre-release identifiers
    when there are any (build metadata is gone), and analysing that text
    again returns the same analysis. *)
Theorem X1_analyzeVersion_normal_form :
  forall (version : string) (analysis : VersionAnalysis.t),
    analyzeVersion version = Some analysis ->
    VersionAnalysis.version analysis
    = ofN (VersionAnalysis.major analysis) ++ "."
      ++ ofN (VersionAnalysis.minor analysis) ++ "."
      ++ ofN (VersionAnalysis.patch analysis)
      ++ match VersionAnalysis.prerelease analysis with
         | None => ""
         | Some ids => "-" ++ join "." (map identifierText ids)
         end
    /\ analyzeVersion (VersionAnalysis.version analysis) = Some analysis.
Proof.
  intros version analysis H. split.
  - now apply UtilityFacts.analyzeVersion_text with (s := version).
  - now apply UtilityFacts.analyzeVersion_fixed with (s := version).
Qed.

Lemma X1_witness :
  VersionAnalysis.version sampleAnalysis
  = ofN (VersionAnalysis.major sampleAnalysis) ++ "."
    ++ ofN (VersionAnalysis.minor sampleAnalysis) ++ "."
    ++ ofN (VersionAnalysis.patch sampleAnalysis)
    ++ match VersionAnalysis.prerelease sampleAnalysis with
       | None => ""
       | Some ids => "-" ++ join "." (map identifierText ids)
       end
  /\ analyzeVersion (VersionAnalysis.version sampleAnalysis)
     = Some sampleAnalysis.
Proof.
  apply (X1_analyzeVersion_normal_form " =v1.2.3-rc.1+build.5 " sampleAnalysis).
  vm_compute. reflexivity.
Defined.

(** X2: [hasBreakingChanges] and [calculateVersionDistance] agree. For
    all strings, [hasBreakingChanges(current, latest)] is true exactly
    when the [majorVersionsBehind] of
    [calculateVersionDistance(current, latest)] is positive. *)
Theorem X2_breaking_iff_major_behind :
  forall current latest : string,
    hasBreakingChanges current latest = true
    <-> (0 < VersionDistance.majorVersionsBehind
               (calculateVersionDistance current latest))%Z.
Proof.
  intros current latest.
  rewrite UtilityFacts.hasBreakingChanges_cleaned,
          UtilityFacts.majorVersionsBehind_cleaned.
  destruct (cleaned current) as [vc|]; [|split; [discriminate|lia]].
  destruct (cleaned latest) as [vl|]; [|split; [discriminate|lia]].
  rewrite N.ltb_lt. lia.
Qed.

(** X3: a breaking change is classified as a major update. Whenever
    [hasBreakingChanges(current, latest)] is true,
    [determineUpdateType(current, latest)] is 'major'. *)
Theorem X3_breaking_change_is_major :
  forall current latest : string,
    hasBreakingChanges current latest = true ->
    determineUpdateType current latest = UMajor.
Proof.
  intros current latest.
  rewrite UtilityFacts.hasBreakingChanges_cleaned,
          UtilityFacts.determineUpdateType_cleaned.
  destruct (cleaned current) as [vc|] eqn:Hc; [|discriminate].
  destruct (cleaned latest) as [vl|] eqn:Hl; [|discriminate].
  intros H. apply N.ltb_lt in H.
  apply UtilityFacts.major_lt_update; try assumption.
  - exact (UtilityFacts.cleaned_parsed _ _ Hc).
  - exact (UtilityFacts.cleaned_parsed _ _ Hl).
Qed.

Lemma X3_witness : determineUpdateType "v1.9.3" "2.0.0-rc.1" = UMajor.
Proof.
  apply (X3_breaking_change_is_major "v1.9.3" "2.0.0-rc.1").
  vm_compute. reflexivity.
Defined.

(** X4: [areVersionsCompatible] is a partial equivalence. It is
    symmetric and transitive on all strings, and a string is compatible
    with itself exactly when [semver.clean] accepts it. *)
Theorem X4_compatibility_is_an_equivalence :
  (forall a b : string, areVersionsCompatible a b = areVersionsCompatible b a)
  /\ (forall a b c : string,
         areVersionsCompatible a b = true ->
         areVersionsCompatible b c = true ->
         areVersionsCompatible a c = true)
  /\ (forall a : string,
         areVersionsCompatible a a = true <-> Semver.clean a <> None).
Proof.
  split; [exact UtilityFacts.areVersionsCompatible_sym|].
  split; [exact UtilityFacts.areVersionsCompatible_trans|].
  exact UtilityFacts.areVersionsCompatible_refl.
Qed.

(** X5: two versions that [semver.clean] accepts are compatible, or the
    second breaks the first, or the first breaks the second, and exactly
    one of the three holds. *)
Theorem X5_compatible_or_breaking :
  forall a b : string,
    Semver.clean a <> None -> Semver.clean b <> None ->
    (areVersionsCompatible a b = true
     /\ hasBreakingChanges a b = false /\ hasBreakingChanges b a = false)
    \/ (areVersionsCompatible a b = false
        /\ hasBreakingChanges a b = true /\ hasBreakingChanges b a = false)
    \/ (areVersionsCompatible a b = false
        /\ hasBreakingChanges a b = false /\ hasBreakingChanges b a = true).
Proof.
  intros a b.
  rewrite !UtilityFacts.clean_cleaned,
          !UtilityFacts.hasBreakingChanges_cleaned,
          UtilityFacts.areVersionsCompatible_cleaned.
  destruct (cleaned a) as [va|]; [|intros H; now destruct H].
  destruct (cleaned b) as [vb|]; [|intros _ H; now destruct H].
  intros _ _.
  destruct (N.eqb_spec (major va) (major vb)),
           (N.ltb_spec (major va) (major vb)),
           (N.ltb_spec (major vb) (major va)); auto; lia.
Qed.

Lemma X5_witness :
  (areVersionsCompatible "1.4.0" "=v2.0.1" = true
   /\ hasBreakingChanges "1.4.0" "=v2.0.1" = false
   /\ hasBreakingChanges "=v2.0.1" "1.4.0" = false)
  \/ (areVersionsCompatible "1.4.0" "=v2.0.1" = false
      /\ hasBreakingChanges "1.4.0" "=v2.0.1" = true
      /\ hasBreakingChanges "=v2.0.1" "1.4.0" = false)
  \/ (areVersionsCompatible "1.4.0" "=v2.0.1" = false
      /\ hasBreakingChanges "1.4.0" "=v2.0.1" = false
      /\ hasBreakingChanges "=v2.0.1" "1.4.0" = true).
Proof.
  apply (X5_compatible_or_breaking "1.4.0" "=v2.0.1");
    vm_compute; discriminate.
Defined.

(** X6: [hasBreakingChanges] never reports a break against a range.
    Whenever its second argument, blanks apart, starts with one of the
    operators ^ ~ < >, the result is false whatever the first argument
    is. *)
Theorem X6_range_is_never_breaking :
  forall (version range : string) (c : ascii) (rest : string),
    trim range = String c rest ->
    isRangeOperator c = true -> c <> "="%char ->
    hasBreakingChanges version range = false.
Proof.
  intros version range c rest E Hop Hne.
  rewrite UtilityFacts.hasBreakingChanges_cleaned.
  rewrite (UtilityFacts.cleaned_operator range c rest E Hop Hne).
  now destruct (cleaned version).
Qed.

Lemma X6_witness : hasBreakingChanges "1.0.0" " ^2.0.0" = false.
Proof.
  apply (X6_range_is_never_breaking "1.0.0" " ^2.0.0" "^"%char "2.0.0").
  - vm_compute. reflexivity.
  - vm_compute. reflexivity.
  - discriminate.
Defined.

(** X7: [findNewestVersion] returns a greatest version. For a non-empty
    array of version strings that parse and whose numeric identifiers
    are exact (no superfluous zero, below 2^53), the call returns an
    element of the array that [compareBuild] puts at or above every
    element, and leaves the array rearranged in descending order. *)
Theorem X7_findNewestVersion_greatest :
  forall versions : list string,
    versions <> [] -> Forall comparable versions ->
    exists (newest : string) (sorted : list string),
      findNewestVersion versions = (sorted, Some newest)
      /\ Permutation versions sorted
      /\ StronglySorted notOlder sorted
      /\ In newest versions
      /\ (forall x, In x versions -> notOlder newest x).
Proof. exact NewestFacts.findNewestVersion_spec. Qed.

Lemma X7_witness :
  exists (newest : string) (sorted : list string),
    findNewestVersion releases = (sorted, Some newest)
    /\ Permutation releases sorted
    /\ StronglySorted notOlder sorted
    /\ In newest releases
    /\ (forall x, In x releases -> notOlder newest x).
Proof.
  apply (X7_findNewestVersion_greatest releases).
  - discriminate.
  - repeat constructor;
      (eexists; split; [vm_compute; reflexivity|vm_compute; reflexivity]).
Defined.

(** X8: the edge cases of [findNewestVersion]. An empty array gives
    null. An array of one element gives that element back without
    looking at it, unless it is the empty string. An array of two or more
    elements one of which does not parse gives null and is left as it
    was. *)
Theorem X8_findNewestVersion_edges :
  findNewestVersion [] = ([], None)
  /\ (forall x : string,
         findNewestVersion [x] = ([x], if x =? "" then None else Some x))
  /\ (forall (versions : list string) (x : string),
         (2 <= List.length versions)%nat -> In x versions ->
         Semver.parse x = None ->
         findNewestVersion versions = (versions, None)).
Proof.
  split; [reflexivity|]. split; [reflexivity|].
  exact NewestFacts.findNewestVersion_invalid.
Qed.

(** X9: [extractVersionFromRange] reads the version behind any run of
    operators. For a text that [semver] accepts as a version and any
    string of the characters ^ ~ > = < put before it, the result is the
    canonical text of that version: an upper bound such as <2.0.0 is
    read as the version 2.0.0. *)
Theorem X9_extract_strips_operators :
  forall (operators text : string) (v : SemVer),
    Str.forallb isRangeOperator operators = true ->
    Semver.parse text = Some v ->
    extractVersionFromRange (JStr (operators ++ text))
    = Ok (Some (Semver.format v)).
Proof.
  intros operators text v Hop Hv.
  now apply UtilityFacts.extractVersionFromRange_prefixed.
Qed.

Lemma X9_witness :
  extractVersionFromRange (JStr ("<" ++ "2.0.0"))
  = Ok (Some (Semver.format (mkSemVer 2 0 0 [] []))).
Proof.
  apply (X9_extract_strips_operators "<" "2.0.0" (mkSemVer 2 0 0 [] []));
    vm_compute; reflexivity.
Defined.

(** X10: what the report lists as outdated is newer in the registry. In
    every report of [generateDependencyReport] the outdated entries name
    distinct packages, and for each entry: the package is a key of the
    merged dependencies, [current] is the version
    [extractVersionFromRange] reads from its effective range, [latest]
    is the [dist-tags.latest] of the registry's answer, [semver.gt(latest,
    current)] holds, and [type] is [determineUpdateType(current,
    latest)]. *)
Theorem X10_outdated_entries_are_newer {RT : Runtime} :
  forall (w : World) (now : Clock) (packageJson : jsval)
         (report : DependencyReport.t),
    generateDependencyReport w now packageJson = Ok report ->
    NoDup (map OutdatedPackage.package (DependencyReport.outdated report))
    /\ forall e, In e (DependencyReport.outdated report) ->
         exists deps range response tags,
           mergedDependencies packageJson = Ok deps
           /\ ownGet deps (OutdatedPackage.package e) = Some range
           /\ extractVersionFromRange range
              = Ok (Some (OutdatedPackage.current e))
           /\ registry w (OutdatedPackage.package e) = Some response
           /\ getProp response "dist-tags" = Ok tags
           /\ getOpt tags "latest" = Ok (JStr (OutdatedPackage.latest e))
           /\ Semver.gt (OutdatedPackage.latest e) (OutdatedPackage.current e)
              = Ok true
           /\ OutdatedPackage.type e
              = determineUpdateType (OutdatedPackage.current e)
                                    (OutdatedPackage.latest e).
Proof.
  intros w now packageJson report H. split.
  - exact (EngineFacts.outdated_packages_distinct w now packageJson report H).
  - intros e He.
    destruct (EngineFacts.outdated_recorded w now packageJson report e H He)
      as (deps & info & Hm & (_ & range & response & tags & Hin & Hx & Hr & Ht
                              & Hl & Hg) & Hc & Hlat & Hty).
    exists deps, range, response, tags.
    rewrite Hc, Hlat in *.
    repeat split; try assumption.
    apply EngineFacts.In_ownGet; [|assumption].
    exact (EngineFacts.mergedDependencies_nodup _ _ Hm).
Qed.

Lemma X10_witness :
  NoDup (map OutdatedPackage.package (DependencyReport.outdated reactReport))
  /\ forall e, In e (DependencyReport.outdated reactReport) ->
       exists deps range response tags,
         mergedDependencies (JObj twoRanges) = Ok deps
         /\ ownGet deps (OutdatedPackage.package e) = Some range
         /\ extractVersionFromRange range
            = Ok (Some (OutdatedPackage.current e))
         /\ registry reactWorld (OutdatedPackage.package e) = Some response
         /\ getProp response "dist-tags" = Ok tags
         /\ getOpt tags "latest" = Ok (JStr (OutdatedPackage.latest e))
         /\ Semver.gt (OutdatedPackage.latest e) (OutdatedPackage.current e)
            = Ok true
         /\ OutdatedPackage.type e
            = determineUpdateType (OutdatedPackage.current e)
                                  (OutdatedPackage.latest e).
Proof.
  apply (@X10_outdated_entries_are_newer sampleRuntime reactWorld morning
           (JObj twoRanges) reactReport).
  vm_compute. reflexivity.
Defined.

(** X11: the order in which the registry fetches complete does not
    change the report, the order of its outdated list apart. Two runs
    that differ only in that order both fail with the same error, or
    return reports with the same health score, summary, totals,
    vulnerabilities and dependency mappings, and outdated lists that are
    permutations of each other. *)
Theorem X11_completion_order_is_irrelevant {RT : Runtime} :
  forall (w : World) (completion' : string -> nat) (now : Clock)
         (packageJson : jsval),
    match generateDependencyReport w now packageJson,
          generateDependencyReport (reordered w completion') now packageJson
    with
    | Ok r, Ok r' =>
        Permutation (DependencyReport.outdated r) (DependencyReport.outdated r')
        /\ DependencyReport.healthScore r = DependencyReport.healthScore r'
        /\ DependencyReport.summary r = DependencyReport.summary r'
        /\ DependencyReport.totalDependencies r
           = DependencyReport.totalDependencies r'
        /\ DependencyReport.vulnerabilities r
           = DependencyReport.vulnerabilities r'
        /\ DependencyReport.dependencies r = DependencyReport.dependencies r'
        /\ DependencyReport.devDependencies r
           = DependencyReport.devDependencies r'
    | Throw e, Throw e' => e = e'
    | _, _ => False
    end.
Proof. exact ReorderFacts.report_reordered. Qed.

(** X12: staleness never raises the score of a report. For every
    outdated entry of a report of [generateDependencyReport] the penalty
    that [calculateHealthScore] subtracts is not negative, and it is at
    least 1 when neither version carries a pre-release tag. *)
Theorem X12_staleness_penalty_is_not_negative {RT : Runtime} :
  forall (w : World) (now : Clock) (packageJson : jsval)
         (report : DependencyReport.t) (e : OutdatedPackage.t),
    generateDependencyReport w now packageJson = Ok report ->
    In e (DependencyReport.outdated report) ->
    (0 <= outdatedPenalty e)%Z
    /\ (forall vc vl : SemVer,
           Semver.parse (OutdatedPackage.current e) = Some vc ->
           Semver.parse (OutdatedPackage.latest e) = Some vl ->
           prerelease vc = [] -> prerelease vl = [] ->
           (1 <= outdatedPenalty e)%Z).
Proof.
  intros w now packageJson report e H He.
  destruct (EngineFacts.outdated_recorded w now packageJson report e H He)
    as (deps & info & _ & (_ & _ & _ & _ & _ & _ & _ & _ & _ & Hg)
        & Hc & Hl & Hty).
  rewrite <- Hc, <- Hl in Hg.
  apply EngineFacts.gt_inv in Hg as (vl & vc & El & Ec & Hgt).
  destruct (EngineFacts.newer_penalty e vc vl Ec El Hgt Hty) as [H0 H1].
  split; [exact H0|].
  intros vc' vl' Ec' El' Pc Pl. unfold parse in *.
  rewrite Ec in Ec'. rewrite El in El'.
  injection Ec' as <-. injection El' as <-.
  apply H1; unfold hasPre; [now rewrite Pc|now rewrite Pl].
Qed.

Lemma X12_witness :
  (0 <= outdatedPenalty reactEntry)%Z
  /\ (forall vc vl : SemVer,
         Semver.parse (OutdatedPackage.current reactEntry) = Some vc ->
         Semver.parse (OutdatedPackage.latest reactEntry) = Some vl ->
         prerelease vc = [] -> prerelease vl = [] ->
         (1 <= outdatedPenalty reactEntry)%Z).
Proof.
  apply (@X12_staleness_penalty_is_not_negative sampleRuntime reactWorld
           morning (JObj twoRanges) reactReport reactEntry).
  - vm_compute. reflexivity.
  - left. reflexivity.
Defined.

(** X13: more vulnerabilities never raise the health score. Appending
    vulnerabilities to the list a report is filled with leaves the score
    equal or lower, and leaves it equal when all of them have the
    severity 'unknown'. *)
Theorem X13_more_vulnerabilities_lower_score {RT : Runtime} :
  forall (report : DependencyReport.t)
         (vulnerabilities more : list Vulnerability.t),
    (DependencyReport.healthScore (fillReport report (vulnerabilities ++ more))
     <= DependencyReport.healthScore (fillReport report vulnerabilities))%Z
    /\ (Forall (fun v => Vulnerability.severity v = Unknown) more ->
        DependencyReport.healthScore
          (fillReport report (vulnerabilities ++ more))
        = DependencyReport.healthScore (fillReport report vulnerabilities)).
Proof.
  intros report vulnerabilities more.
  rewrite !ScoreFacts.fillReport_score, !ScoreFacts.countSeverity_app.
  split.
  - apply Z.max_le_compat_l, Z.min_le_compat_l, ScoreFacts.fold_mono.
    apply ScoreFacts.afterVulnerabilities_mono;
      match goal with
      | |- (_ <= _ + countSeverity ?s ?l)%Z =>
          pose proof (ScoreFacts.countSeverity_nonneg s l); lia
      end.
  - intros Hu.
    rewrite !(ScoreFacts.countSeverity_unknown _ more) by (discriminate || exact Hu).
    now rewrite !Z.add_0_r.
Qed.

(** X14: every vulnerability [processVulnerabilities] returns is filled
    in. Whatever the audit data, each entry of the result has an id that
    is not empty and a truthy version, description and fixedIn (the
    defaults apply), and its package is a key of the [vulnerabilities]
    member of the data. *)
Theorem X14_processed_vulnerabilities_are_filled {RT : Runtime} :
  forall (now : Clock) (npmAudit : jsval) (v : Vulnerability.t),
    In v (processVulnerabilities now npmAudit) ->
    filled v
    /\ exists vulnerabilities,
         getProp npmAudit "vulnerabilities" = Ok vulnerabilities
         /\ In (Vulnerability.package v) (keys (ownEntries vulnerabilities)).
Proof. exact FindingFacts.processVulnerabilities_filled. Qed.

Lemma X14_witness :
  filled synthesized
  /\ exists vulnerabilities,
       getProp (JObj [("vulnerabilities", untitledSource)]) "vulnerabilities"
       = Ok vulnerabilities
       /\ In (Vulnerability.package synthesized)
             (keys (ownEntries vulnerabilities)).
Proof.
  apply (@X14_processed_vulnerabilities_are_filled sampleRuntime morning
           (JObj [("vulnerabilities", untitledSource)]) synthesized).
  vm_compute. left. reflexivity.
Defined.

(** X15: what [generateVulnerabilityReport] can report. Every entry of
    its result is of one of three kinds: id npm-deprecated-<package>
    with severity moderate, id npms-quality-check with severity high or
    moderate, or id npms-vulnerability-flag with severity high. Its
    package is a key of the merged dependencies whose effective range
    yields a version and for which the registry has answered. *)
Theorem X15_registry_findings {RT : Runtime} :
  forall (w : World) (now : Clock) (packageJson : jsval)
         (vulnerabilities : list Vulnerability.t) (v : Vulnerability.t),
    generateVulnerabilityReport w now packageJson = Ok vulnerabilities ->
    In v vulnerabilities ->
    registryFinding v
    /\ exists deps range current response,
         mergedDependencies packageJson = Ok deps
         /\ ownGet deps (Vulnerability.package v) = Some range
         /\ extractVersionFromRange range = Ok (Some current)
         /\ registry w (Vulnerability.package v) = Some response.
Proof.
  intros w now packageJson vulnerabilities v H Hin.
  unfold generateVulnerabilityReport, tryCatch, bind in H.
  destruct (getProp packageJson "name"); injection H as <-; [|destruct Hin].
  destruct (RegistryFacts.getNpmAuditFast_findings w now packageJson v Hin)
    as (Hf & deps & Hm & range & current & response & Hd & Hx & Hr).
  split; [exact Hf|].
  exists deps, range, current, response. repeat split; try assumption.
  apply EngineFacts.In_ownGet; [|assumption].
  exact (EngineFacts.mergedDependencies_nodup _ _ Hm).
Qed.

Lemma X15_witness :
  registryFinding reactDeprecated
  /\ exists deps range current response,
       mergedDependencies (JObj twoRanges) = Ok deps
       /\ ownGet deps (Vulnerability.package reactDeprecated) = Some range
       /\ extractVersionFromRange range = Ok (Some current)
       /\ registry reactWorld (Vulnerability.package reactDeprecated)
          = Some response.
Proof.
  apply (@X15_registry_findings sampleRuntime reactWorld morning
           (JObj twoRanges) [reactDeprecated] reactDeprecated).
  - vm_compute. reflexivity.
  - left. reflexivity.
Defined.

Lemma registryFinding_severity v :
  registryFinding v ->
  Vulnerability.severity v = High \/ Vulnerability.severity v = Moderate.
Proof. intros [[_ H]|[[_ [H|H]]|[_ H]]]; auto. Qed.

Lemma dispatch_two (first second : Request -> Outcome) req :
  AnalyzerRoutes.dispatch [first; second] req
  = match first req with
    | Next => match second req with
              | Next => Next
              | outcome => outcome
              end
    | outcome => outcome
    end.
Proof. cbn. destruct (first req); [reflexivity| |reflexivity].
       now destruct (second req). Qed.

(** X16: [POST /report] answers 200 with the report exactly when the
    body is an object with a truthy [dependencies] or [devDependencies],
    and 400 otherwise; the controller never passes an error on, and the
    error handler is not reached. *)
Theorem X16_report_route {RT : Runtime} :
  forall (h : Host.t) (now : Clock) (req : Request),
    if declaresDependencies (body req) then
      exists props report,
        body req = JObj props
        /\ generateDependencyReport
             (serviceFor h (member props "packageJsonPath")) now (body req)
           = Ok report
        /\ AnalyzerRoutes.report h now req
           = Responded
               (Response.mk 200
                  (Json.mk true
                     (Some "Dependency report generated successfully")
                     None (Some (ReportData report))))
    else
      exists text,
        AnalyzerRoutes.report h now req
        = Responded (Response.mk 400 (failureError text)).
Proof.
  intros h now req. unfold AnalyzerRoutes.report, AnalyzerRoutes.route.
  rewrite dispatch_two.
  pose proof (HttpFacts.validatePackageJsonData_spec req) as V.
  destruct (declaresDependencies (body req)) eqn:D.
  - rewrite V.
    destruct (HttpFacts.generateReport_declared h now req D)
      as (props & report & E & Hr & Hg).
    exists props, report. rewrite Hg. auto.
  - destruct V as [text ->]. now exists text.
Qed.

(** X17: the routes that call the service without a manifest never
    succeed. [POST /report/save], [GET /health-score] and
    [GET /outdated] answer every request with status 400 or 500,
    [success: false] and no data; for the last two, a request whose body
    passes the validation is answered with status 500 and the message
    'An error occurred while analyzing dependencies'. *)
Theorem X17_routes_without_manifest_fail {RT : Runtime} :
  (forall (h : Host.t) (now : Clock) (req : Request),
      exists r, AnalyzerRoutes.reportSave h now req = Responded r /\ refusal r)
  /\ (forall (h : Host.t) (now : Clock) (req : Request),
         exists r,
           AnalyzerRoutes.healthScore h now req = Responded r /\ refusal r)
  /\ (forall (h : Host.t) (now : Clock) (req : Request),
         exists r,
           AnalyzerRoutes.outdated h now req = Responded r /\ refusal r)
  /\ (forall (h : Host.t) (now : Clock) (req : Request),
         declaresDependencies (body req) = true ->
         exists text text',
           AnalyzerRoutes.healthScore h now req
           = Responded (genericFailure h text)
           /\ AnalyzerRoutes.outdated h now req
              = Responded (genericFailure h text')).
Proof.
  assert (G : forall h text, refusal (genericFailure h text)).
  { intros h text. unfold refusal, genericFailure. cbn. auto. }
  repeat split.
  - intros h now req. unfold AnalyzerRoutes.reportSave, AnalyzerRoutes.route.
    cbn [AnalyzerRoutes.dispatch].
    pose proof (HttpFacts.validatePackageJsonData_refusal req) as V.
    destruct (AnalyzerMiddleware.validatePackageJsonData req) as [r| |e];
      [eauto| |contradiction].
    pose proof (HttpFacts.validateOutputPath_refusal h req) as O.
    destruct (AnalyzerMiddleware.validateOutputPath h req) as [r| |e];
      [eauto| |eexists; split;
                [reflexivity|apply HttpFacts.analyzerErrorHandler_refusal]].
    destruct (HttpFacts.generateAndSaveReport_fails h now req)
      as (text & -> & ->). eauto.
  - intros h now req. unfold AnalyzerRoutes.healthScore, AnalyzerRoutes.route.
    rewrite dispatch_two.
    pose proof (HttpFacts.validatePackageJsonData_refusal req) as V.
    destruct (AnalyzerMiddleware.validatePackageJsonData req) as [r| |e];
      [eauto| |contradiction].
    destruct (HttpFacts.getHealthScore_fails h now req) as (text & -> & ->).
    eauto.
  - intros h now req. unfold AnalyzerRoutes.outdated, AnalyzerRoutes.route.
    rewrite dispatch_two.
    pose proof (HttpFacts.validatePackageJsonData_refusal req) as V.
    destruct (AnalyzerMiddleware.validatePackageJsonData req) as [r| |e];
      [eauto| |contradiction].
    destruct (HttpFacts.getOutdatedPackages_fails h now req)
      as (text & -> & ->).
    eauto.
  - intros h now req D.
    pose proof (HttpFacts.validatePackageJsonData_spec req) as V.
    rewrite D in V.
    destruct (HttpFacts.getHealthScore_fails h now req) as (text & H1 & E1).
    destruct (HttpFacts.getOutdatedPackages_fails h now req)
      as (text' & H2 & E2).
    exists text, text'.
    unfold AnalyzerRoutes.healthScore, AnalyzerRoutes.outdated,
      AnalyzerRoutes.route.
    rewrite !dispatch_two, V, H1, H2, E1, E2. auto.
Qed.

(** X18: [POST /vulnerabilities] answers a body that passes the
    validation with status 200. The list it sends holds only findings of
    the three kinds of the registry audit, so the summary counts no
    critical, low or unknown entry and its high and moderate counts add
    up to the total, which is the count; with a non-empty [severity] in
    the query, every entry sent has that severity. Every other request
    is answered with a failure. *)
Theorem X18_vulnerabilities_route {RT : Runtime} :
  forall (h : Host.t) (now : Clock) (req : Request),
    if declaresDependencies (body req) && negb (isNullish (query req)) then
      exists vulnerabilities counts,
        AnalyzerRoutes.vulnerabilities h now req
        = Responded
            (Response.mk 200
               (Json.mk true None None
                  (Some (VulnerabilityData vulnerabilities
                           (lengthOf vulnerabilities) counts))))
        /\ Forall registryFinding vulnerabilities
        /\ SeverityCounts.total counts = lengthOf vulnerabilities
        /\ SeverityCounts.critical counts = 0%Z
        /\ SeverityCounts.low counts = 0%Z
        /\ SeverityCounts.unknown counts = 0%Z
        /\ (SeverityCounts.high counts + SeverityCounts.moderate counts
            = SeverityCounts.total counts)%Z
        /\ (forall s : string,
               getProp (query req) "severity" = Ok (JStr s) -> s <> "" ->
               Forall (fun v => nameOfSeverity (Vulnerability.severity v) = s)
                      vulnerabilities)
    else
      exists r,
        AnalyzerRoutes.vulnerabilities h now req = Responded r /\ refusal r.
Proof.
  intros h now req.
  unfold AnalyzerRoutes.vulnerabilities, AnalyzerRoutes.route.
  rewrite dispatch_two.
  pose proof (HttpFacts.validatePackageJsonData_spec req) as V.
  destruct (declaresDependencies (body req)) eqn:D; cbn [andb].
  2:{ destruct V as [text ->]. eexists. split; [reflexivity|].
      unfold refusal. cbn. auto. }
  rewrite V. destruct (HttpFacts.declares_object _ D) as [props E].
  unfold getVulnerabilities, respondOrNext, destructure.
  destruct (isNullish (query req)) eqn:Q; cbn [negb].
  { destruct (query req); try discriminate Q; cbn;
      (eexists; split; [reflexivity|unfold refusal; cbn; auto]). }
  assert (Hq : exists severity, getProp (query req) "severity" = Ok severity).
  { destruct (query req); try discriminate Q; cbn; eauto. }
  destruct Hq as [severity Hs].
  assert (Hq' : match query req with
                | JUndefined | JNull =>
                    Throw (JsError
                      ("Cannot destructure property '" ++ "severity" ++ "' of '"
                       ++ "req.query" ++ "' as it is " ++ describe (query req)
                       ++ "."))
                | _ => getProp (query req) "severity"
                end = Ok severity).
  { destruct (query req); try discriminate Q; exact Hs. }
  rewrite Hq'. cbn [bind]. rewrite E.
  rewrite HttpFacts.generateVulnerabilityReport_object. cbn [bind].
  set (all := processVulnerabilities now
                (getNpmAuditFast (analyzerService h) (JObj props))).
  assert (Hall : Forall registryFinding all).
  { rewrite Forall_forall. intros v Hv.
    now destruct (RegistryFacts.getNpmAuditFast_findings _ _ _ v Hv). }
  set (sent := match severity with
               | JStr s => if truthy severity then bySeverity s all else all
               | _ => all
               end).
  assert (Hsent : Forall registryFinding sent).
  { subst sent. destruct severity; try exact Hall.
    destruct (truthy (JStr s)); [|exact Hall].
    now apply HttpFacts.bySeverity_Forall. }
  assert (Hsev : Forall (fun v => Vulnerability.severity v = High
                                  \/ Vulnerability.severity v = Moderate) sent).
  { eapply Forall_impl; [|exact Hsent]. apply registryFinding_severity. }
  eexists sent, _. split; [reflexivity|].
  cbn [SeverityCounts.total SeverityCounts.critical SeverityCounts.low
       SeverityCounts.unknown SeverityCounts.high SeverityCounts.moderate].
  split; [exact Hsent|]. split; [reflexivity|].
  assert (None : forall name,
             name <> "high" -> name <> "moderate" -> bySeverity name sent = []).
  { intros name H1 H2. apply HttpFacts.bySeverity_none.
    eapply Forall_impl; [|exact Hsev].
    intros v [Hv|Hv]; rewrite Hv; cbn; congruence. }
  rewrite !None by discriminate.
  repeat split; try reflexivity.
  - now apply HttpFacts.high_moderate_counts.
  - intros s Hs' Hne. rewrite Hs in Hs'. injection Hs' as ->.
    subst sent. cbn [truthy].
    apply String.eqb_neq in Hne. rewrite Hne. cbn [negb].
    apply HttpFacts.bySeverity_named.
Qed.

(** X19: [determineUpdateType] does not depend on the order of its
    arguments: a downgrade is classified like the upgrade between the
    same two versions. *)
Theorem X19_update_type_is_symmetric :
  forall a b : string, determineUpdateType a b = determineUpdateType b a.
Proof. exact CountFacts.determineUpdateType_sym. Qed.

(** X20: swapping the arguments of [calculateVersionDistance] changes
    the sign of each of its four fields. *)
Theorem X20_distance_changes_sign :
  forall current latest : string,
    let d := calculateVersionDistance current latest in
    let d' := calculateVersionDistance latest current in
    VersionDistance.majorVersionsBehind d'
    = (- VersionDistance.majorVersionsBehind d)%Z
    /\ VersionDistance.minorVersionsBehind d'
       = (- VersionDistance.minorVersionsBehind d)%Z
    /\ VersionDistance.patchVersionsBehind d'
       = (- VersionDistance.patchVersionsBehind d)%Z
    /\ VersionDistance.totalDistance d'
       = (- VersionDistance.totalDistance d)%Z.
Proof. exact CountFacts.calculateVersionDistance_swap. Qed.

(** X21: the counters of a report. In every report of
    [generateDependencyReport], [summary.outdated] is the length of the
    outdated list and [totalDependencies] is [totalDeps + totalDevDeps];
    the outdated list is no longer than the merged dependencies, and
    these are no more than [totalDependencies], which counts a package
    listed in both mappings twice. *)
Theorem X21_report_counters {RT : Runtime} :
  forall (w : World) (now : Clock) (packageJson : jsval)
         (report : DependencyReport.t),
    generateDependencyReport w now packageJson = Ok report ->
    Summary.outdated (DependencyReport.summary report)
    = Z.of_nat (List.length (DependencyReport.outdated report))
    /\ DependencyReport.totalDependencies report
       = (Summary.totalDeps (DependencyReport.summary report)
          + Summary.totalDevDeps (DependencyReport.summary report))%Z
    /\ exists deps,
         mergedDependencies packageJson = Ok deps
         /\ (List.length (DependencyReport.outdated report)
             <= List.length deps)%nat
         /\ (Z.of_nat (List.length deps)
             <= DependencyReport.totalDependencies report)%Z.
Proof. exact CountFacts.report_counters. Qed.

Lemma X21_witness :
  Summary.outdated (DependencyReport.summary reactReport)
  = Z.of_nat (List.length (DependencyReport.outdated reactReport))
  /\ DependencyReport.totalDependencies reactReport
     = (Summary.totalDeps (DependencyReport.summary reactReport)
        + Summary.totalDevDeps (DependencyReport.summary reactReport))%Z
  /\ exists deps,
       mergedDependencies (JObj twoRanges) = Ok deps
       /\ (List.length (DependencyReport.outdated reactReport)
           <= List.length deps)%nat
       /\ (Z.of_nat (List.length deps)
           <= DependencyReport.totalDependencies reactReport)%Z.
Proof.
  apply (@X21_report_counters sampleRuntime reactWorld morning
           (JObj twoRanges) reactReport).
  vm_compute. reflexivity.
Defined.

(** X22: [processVulnerabilities] returns at most one entry for each
    element of a [via] array that is an object; elements that are
    strings, and advisories without a [via] array, give none. *)
Theorem X22_one_entry_per_advisory_item {RT : Runtime} :
  forall (now : Clock) (npmAudit : jsval),
    (List.length (processVulnerabilities now npmAudit)
     <= CountVocab.advisoryItems npmAudit)%nat.
Proof. exact CountFacts.processVulnerabilities_atMost. Qed.

(** X23: in the result of [generateVulnerabilityReport] no package has
    more than three entries. *)
Theorem X23_three_findings_per_package {RT : Runtime} :
  forall (w : World) (now : Clock) (packageJson : jsval)
         (vulnerabilities : list Vulnerability.t) (package : string),
    generateVulnerabilityReport w now packageJson = Ok vulnerabilities ->
    (List.length (CountVocab.ofPackage package vulnerabilities) <= 3)%nat.
Proof.
  intros w now packageJson vulnerabilities package H.
  unfold generateVulnerabilityReport, tryCatch, bind in H.
  destruct (getProp packageJson "name"); injection H as <-.
  - apply CountFacts.findings_per_package.
  - cbn. lia.
Qed.

Lemma X23_witness :
  (List.length (CountVocab.ofPackage "react" [reactDeprecated]) <= 3)%nat.
Proof.
  apply (@X23_three_findings_per_package sampleRuntime reactWorld morning
           (JObj twoRanges) [reactDeprecated] "react").
  vm_compute. reflexivity.
Defined.
